(** * issue-board-creator: the epic/story creation pipeline of [src/index.ts]

    A shallow embedding of [createIssues] and the properties of its
    hierarchy resolution, label deduplication, priority ordering and the
    order of the calls it makes on the GitHub client.

    Conventions of the embedding.
    - A JavaScript string is a [string]; the functions used here ([split]
      on ["-"], the test [\d], [endsWith]) only look at ASCII characters, so
      they act on the UTF-8 bytes as they act on UTF-16 code units.
    - A value of type [string | undefined] is an [option string]; [None]
      is [undefined].
    - The calls on the client are recorded, in order, in a [history];
      the client, the markdown parser and the file system are parameters
      (record [Env]): the client answers as a function of the calls made
      before, so that nothing is assumed about the ids it hands out. *)

From Stdlib Require Import ZArith Ascii String List Permutation Sorted Lia.
From stdpp Require Import base option list strings gmap pretty.

Open Scope string_scope.
Open Scope Z_scope.
Open Scope list_scope.

(* ================================================================== *)
(** ** JavaScript values and strings *)

Module JS.

(** Truthiness of a [string | undefined]: [undefined] and [""] are falsy. *)
Definition truthy (v : option string) : bool :=
  match v with
  | Some (String _ _) => true
  | _ => false
  end.

(** A template literal's [${v}]: [undefined] prints as "undefined". *)
Definition show (v : option string) : string :=
  match v with
  | Some s => s
  | None => "undefined"
  end.

Definition newline : string := String (ascii_of_nat 10) "".

(** [s.endsWith(suffix)] *)
Definition endsWith (s suffix : string) : bool :=
  let n := String.length s in
  let k := String.length suffix in
  (k <=? n)%nat && String.eqb (substring (n - k) k s) suffix.

(** [s.split(sep)] for a one-character separator: never empty. *)
Fixpoint split (sep : ascii) (s : string) : list string :=
  match s with
  | EmptyString => [""]
  | String c s' =>
      if Ascii.eqb c sep then "" :: split sep s'
      else match split sep s' with
           | x :: xs => String c x :: xs
           | [] => [String c ""]
           end
  end.

(** [\d] *)
Definition is_digit (c : ascii) : bool :=
  let n := nat_of_ascii c in (48 <=? n)%nat && (n <=? 57)%nat.

(** The longest prefix of digits, and what follows it. *)
Fixpoint digit_run (s : string) : string * string :=
  match s with
  | EmptyString => ("", "")
  | String c s' =>
      if is_digit c
      then let (d, r) := digit_run s' in (String c d, r)
      else ("", s)
  end.

(** [file.match(/^(\d+)-/)?.[1]]: the regular expression is anchored and
    [\d+] is greedy, and no shorter run can be followed by ["-"], so the
    capture is the whole leading digit run, when it is not empty and a
    ["-"] follows it. *)
Definition match_digits_dash (file : string) : option string :=
  match digit_run file with
  | (String c d, String "-" _) => Some (String c d)
  | _ => None
  end.

(** [arr.indexOf(x)], -1 when absent. *)
Fixpoint indexOf (l : list string) (x : string) : Z :=
  match l with
  | [] => -1
  | y :: l' =>
      if String.eqb y x then 0
      else let i := indexOf l' x in if i =? -1 then -1 else i + 1
  end.

(** [[...new Set(l)]]: the distinct values, in order of first occurrence. *)
Fixpoint Set_values {A} `{EqDecision A} (seen l : list A) : list A :=
  match l with
  | [] => []
  | x :: l' =>
      if decide (x ∈ seen) then Set_values seen l'
      else x :: Set_values (x :: seen) l'
  end.

(** [arr.sort((a, b) => key(a) - key(b))]: the sort of an array is
    stable, so its result is the one of a stable insertion. *)
Fixpoint insert_by {A} (key : A -> Z) (x : A) (l : list A) : list A :=
  match l with
  | [] => [x]
  | y :: l' => if key y <=? key x then y :: insert_by key x l' else x :: l
  end.

Definition sort_by {A} (key : A -> Z) (l : list A) : list A :=
  fold_left (fun acc x => insert_by key x acc) l [].

(** *** Plain objects used as dictionaries

    An object literal [{}] with string keys: the own properties in
    insertion order, each key once. *)
Definition object (V : Type) := list (string * V).

(** [o[k] = v]: an existing property keeps its place. *)
Fixpoint set {V} (k : string) (v : V) (o : object V) : object V :=
  match o with
  | [] => [(k, v)]
  | (k', v') :: o' =>
      if String.eqb k' k then (k, v) :: o' else (k', v') :: set k v o'
  end.

(** The own property [k] of [o]. *)
Fixpoint own {V} (k : string) (o : object V) : option V :=
  match o with
  | [] => None
  | (k', v') :: o' => if String.eqb k' k then Some v' else own k o'
  end.

(** The properties every object inherits from [Object.prototype]. *)
Definition Object_prototype_keys : list string :=
  [ "constructor"; "__defineGetter__"; "__defineSetter__"; "hasOwnProperty";
    "__lookupGetter__"; "__lookupSetter__"; "isPrototypeOf";
    "propertyIsEnumerable"; "toString"; "valueOf"; "__proto__";
    "toLocaleString" ].

(** What [o[k]] evaluates to. *)
Inductive property (V : Type) :=
| Own (v : V)
| Inherited
| Undefined.
Arguments Own {V} v.
Arguments Inherited {V}.
Arguments Undefined {V}.

Definition get {V} (k : string) (o : object V) : property V :=
  match own k o with
  | Some v => Own v
  | None =>
      if existsb (String.eqb k) Object_prototype_keys then Inherited
      else Undefined
  end.

(** The value of a run of decimal digits. *)
Definition digit_value (c : ascii) : Z := Z.of_nat (nat_of_ascii c) - 48.

Fixpoint decimal (acc : Z) (s : string) : Z :=
  match s with
  | EmptyString => acc
  | String c s' => decimal (10 * acc + digit_value c) s'
  end.

Fixpoint all_digits (s : string) : bool :=
  match s with
  | EmptyString => true
  | String c s' => is_digit c && all_digits s'
  end.

(** An array index is a canonical numeric string below [2^32 - 1]: such
    keys are enumerated first, in ascending numeric order. *)
Definition array_index (k : string) : option Z :=
  match k with
  | EmptyString => None
  | String c s' =>
      if all_digits k && (negb (Ascii.eqb c "0") || String.eqb s' "")
         && (decimal 0 k <? 2 ^ 32 - 1)
      then Some (decimal 0 k) else None
  end.

Definition is_array_index (k : string) : bool :=
  match array_index k with Some _ => true | None => false end.

Definition index_of_key (k : string) : Z :=
  match array_index k with Some i => i | None => 0 end.

(** [Object.entries(o)]: array indices ascending, then the other keys in
    insertion order. *)
Definition entries {V} (o : object V) : list (string * V) :=
  sort_by (fun kv => index_of_key (fst kv))
          (List.filter (fun kv => is_array_index (fst kv)) o)
  ++ List.filter (fun kv => negb (is_array_index (fst kv))) o.

(** [Object.values(o)] *)
Definition values {V} (o : object V) : list V := map snd (entries o).

End JS.

(* ================================================================== *)
(** ** Records *)

(** Modelled from the spec: the declarations of [./types] are not part of
    the sources at hand; the frontmatter has the optional fields [title],
    [label], [role], [action] and [benefit], and a parsed markdown file is
    a frontmatter and a description. *)
Record Frontmatter := {
  title : option string;
  label : option string;
  role : option string;
  action : option string;
  benefit : option string;
}.

Record MDStory := {
  frontmatter : Frontmatter;
  description : string;
}.

(** The value stored under an epic number in [epics]. *)
Module Epic.
Record t := {
  epic : MDStory;
  stories : list MDStory;
  issueId : string;
}.
End Epic.

(** [MDStoryWithEpic]: a story with its title, its rank, and the label
    and issue ids recorded under [epic]. *)
Module Story.
Record t := {
  title : string;
  frontmatter : Frontmatter;
  description : string;
  priority : Z;
  labelId : option string;
  issueId : option string;
}.
End Story.

Record Config := {
  owner : string;
  repo : string;
  token : string;
  epicsDir : string;
  storiesDir : string;
  priorityFile : string;
}.

(* ================================================================== *)
(** ** The client, and the calls made on it *)

(** The arguments every issue-creating call carries along. *)
Record Target := {
  t_repositoryId : string;
  t_projectInfo : string;
  t_owner : string;
  t_repo : string;
}.

Inductive call :=
| GetProjectInfo (owner repo : string)
| GetRepositoryId (owner repo : string)
| CreateLabelIfNotExists (repositoryId : string) (name : option string)
| CreateIssue (target : Target) (title : option string) (body : string)
    (labelId : string)
| CreateIssueAddToProject (target : Target) (parentIssueId : option string)
    (title body : string) (labelId : option string).

Definition history := list call.

Inductive error :=
| Error (message : string)        (* [throw new Error(message)] *)
| TypeError (message : string)    (* raised by the runtime *)
| Thrown (message : string).      (* raised by the client or the parser *)

(** What a collaborator does when called: it throws or it returns. *)
Definition outcome (A : Type) := (string + A)%type.

(** The collaborators of [createIssues]. The functions of
    [./github/client] and [./parse] are not among the sources at hand and
    are taken as they are typed at their call sites; each client function
    is given the calls made before it. [getProjectInfo] may return
    nothing; a project information is an object, hence truthy. The file
    system is one that can be read. *)
Record Env := {
  readdirSync : string -> list string;
  readFileSync : string -> string;
  getMDStory : string -> outcome MDStory;
  JSON_parse : string -> outcome (list string);
  getProjectInfo : history -> string -> string -> outcome (option string);
  getRepositoryId : history -> string -> string -> outcome string;
  createLabelIfNotExists : history -> string -> option string -> outcome string;
  createIssue :
    history -> Target -> option string -> string -> string -> outcome string;
  createIssueAddToProject :
    history -> Target -> option string -> string -> string -> option string ->
    outcome string;
}.

(** [join(dir, file)] *)
Definition join (dir file : string) : string := dir +:+ "/" +:+ file.

(* ================================================================== *)
(** ** A monad for calls that are awaited one after the other *)

Definition M (A : Type) := history -> history * (error + A).

Definition ret {A} (a : A) : M A := fun h => (h, inr a).

Definition throw {A} (e : error) : M A := fun h => (h, inl e).

Definition bind {A B} (f : A -> M B) (m : M A) : M B :=
  fun h =>
    match m h with
    | (h', inr a) => f a h'
    | (h', inl e) => (h', inl e)
    end.

#[export] Instance M_ret : MRet M := @ret.
#[export] Instance M_bind : MBind M := @bind.

(** [await f(args)]: the call is recorded, then the client answers. *)
Definition await {A} (c : call) (answer : history -> outcome A) : M A :=
  fun h =>
    (h ++ [c],
     match answer h with
     | inl m => inl (Thrown m)
     | inr a => inr a
     end).

(** A computation that makes no call. *)
Definition lift {A} (r : error + A) : M A := fun h => (h, r).

(** [for (const x of l) { ... }] threading the loop's state. *)
Fixpoint for_of {A S} (l : list A) (body : A -> S -> M S) (s : S) : M S :=
  match l with
  | [] => ret s
  | x :: l' => s' ← body x s; for_of l' body s'
  end.

(** [l.map(f)] (or [l.forEach]) with an [f] that may throw. *)
Fixpoint try_fold {A S} (f : A -> S -> error + S) (l : list A) (s : S)
  : error + S :=
  match l with
  | [] => inr s
  | x :: l' =>
      match f x s with
      | inl e => inl e
      | inr s' => try_fold f l' s'
      end
  end.

Fixpoint try_map {A B} (f : A -> error + B) (l : list A) : error + list B :=
  match l with
  | [] => inr []
  | x :: l' =>
      match f x with
      | inl e => inl e
      | inr y =>
          match try_map f l' with
          | inl e => inl e
          | inr ys => inr (y :: ys)
          end
      end
  end.

Definition parsed {A} (o : outcome A) : error + A :=
  match o with
  | inl m => inl (Thrown m)
  | inr a => inr a
  end.

(* ================================================================== *)
(** ** [createIssues] *)

Definition quote : string := String (ascii_of_nat 34) "".

(** The narrative sentence of a frontmatter. *)
Definition sentence (fm : Frontmatter) : string :=
  "As a " +:+ JS.show (role fm) +:+ ", I want to " +:+ JS.show (action fm)
  +:+ " so that " +:+ JS.show (benefit fm) +:+ ".".

(** The [body] of an epic's issue. *)
Definition epicBody (fm : Frontmatter) : string :=
  if JS.truthy (role fm) then sentence fm else "".

(** The [title] of a story, before it is checked. *)
Definition storyTitle (fm : Frontmatter) : option string :=
  if JS.truthy (role fm)
  then Some ("As a " +:+ JS.show (role fm) +:+ ", I want to "
             +:+ JS.show (action fm))
  else title fm.

(** The [body] of a story's issue. *)
Definition storyBody (story : Story.t) : string :=
  (if JS.truthy (role (Story.frontmatter story))
   then sentence (Story.frontmatter story) +:+ JS.newline +:+ JS.newline
   else "")
  +:+ Story.description story.

(** The two errors that name a story file. *)
Definition notInPriorityOrder (file : string) : error :=
  Error ("Story " +:+ file +:+ " not found in priority order").

Definition titleNotSet (file : string) : error :=
  Error ("Title not set for " +:+ file).

(** What the runtime raises for [epics[epicNumber].issueId] when
    [epics[epicNumber]] is [undefined]. *)
Definition issueIdOfUndefined : error :=
  TypeError "Cannot read properties of undefined (reading 'issueId')".

(** The error of the epic loop when the id kept for "Epic" is falsy. *)
Definition epicLabelNotFound : error :=
  Error ("Label " +:+ quote +:+ "Epic" +:+ quote +:+ " not found").

Section Pipeline.

Variable env : Env.

(** The key under which an epic file is stored: the captured digits,
    or the property key of [undefined]. *)
Definition epicNumber (file : string) : string :=
  JS.show (JS.match_digits_dash file).

(** The body of [epicFiles.forEach]. *)
Definition readEpic (epicsDir file : string) (epics : JS.object Epic.t)
  : error + JS.object Epic.t :=
  let content := readFileSync env (join epicsDir file) in
  match parsed (getMDStory env content) with
  | inl e => inl e
  | inr md =>
      inr (JS.set (epicNumber file)
             {| Epic.epic := md; Epic.stories := []; Epic.issueId := "" |}
             epics)
  end.

Definition epicLabel (e : Epic.t) : option string :=
  label (frontmatter (Epic.epic e)).

(** [labels]: every epic's label and "Epic", each once. *)
Definition labels (epics : JS.object Epic.t) : list (option string) :=
  JS.Set_values [] (map epicLabel (JS.values epics) ++ [Some "Epic"]).

(** The body of the loop over [labels]. *)
Definition resolveLabel (repositoryId : string) (name : option string)
    (labelsByName : gmap (option string) string)
  : M (gmap (option string) string) :=
  id ← await (CreateLabelIfNotExists repositoryId name)
         (fun h => createLabelIfNotExists env h repositoryId name);
  mret (<[name := id]> labelsByName).

(** The body of the loop over [Object.values(epics)]; the issue id is
    written into the record that [epics] holds under the same key. *)
Definition createEpic (target : Target)
    (labelsByName : gmap (option string) string)
    (kv : string * Epic.t) (epics : JS.object Epic.t)
  : M (JS.object Epic.t) :=
  let epicStory := snd kv in
  match labelsByName !! Some "Epic" with
  | Some (String c s) =>
      let labelId := String c s in
      let fm := frontmatter (Epic.epic epicStory) in
      issueId ← await (CreateIssue target (title fm) (epicBody fm) labelId)
                  (fun h => createIssue env h target (title fm) (epicBody fm)
                              labelId);
      mret (JS.set (fst kv)
              {| Epic.epic := Epic.epic epicStory;
                 Epic.stories := Epic.stories epicStory;
                 Epic.issueId := issueId |}
              epics)
  | _ => throw epicLabelNotFound
  end.

(** [file.split("-").slice(0, 2)] and the story id made of it. *)
Definition storySegments (file : string) : list string :=
  firstn 2 (JS.split "-" file).

Definition storyEpicNumber (file : string) : string :=
  JS.show (storySegments file !! 0%nat).

Definition storyId (file : string) : string :=
  storyEpicNumber file +:+ "-" +:+ JS.show (storySegments file !! 1%nat).

(** The function mapped over [storyFiles]. *)
Definition buildStory (storiesDir : string) (priorityOrder : list string)
    (labelsByName : gmap (option string) string) (epics : JS.object Epic.t)
    (file : string) : error + Story.t :=
  let content := readFileSync env (join storiesDir file) in
  match parsed (getMDStory env content) with
  | inl e => inl e
  | inr md =>
      let fm := frontmatter md in
      let priorityIndex := JS.indexOf priorityOrder (storyId file) in
      if priorityIndex =? -1 then inl (notInPriorityOrder file)
      else
        let priority := priorityIndex + 1 in
        match storyTitle fm with
        | Some (String c s) =>
            let mk issueId :=
              {| Story.title := String c s;
                 Story.frontmatter := fm;
                 Story.description := description md;
                 Story.priority := priority;
                 Story.labelId := labelsByName !! label fm;
                 Story.issueId := issueId |} in
            match JS.get (storyEpicNumber file) epics with
            | JS.Own e => inr (mk (Some (Epic.issueId e)))
            | JS.Inherited => inr (mk None)
            | JS.Undefined => inl issueIdOfUndefined
            end
        | _ => inl (titleNotSet file)
        end
  end.

Definition storyCall (target : Target) (story : Story.t) : call :=
  CreateIssueAddToProject target (Story.issueId story) (Story.title story)
    (storyBody story) (Story.labelId story).

(** The body of the loop over the sorted stories. *)
Definition createStory (target : Target) (story : Story.t) (_ : unit)
  : M unit :=
  _ ← await (storyCall target story)
        (fun h => createIssueAddToProject env h target (Story.issueId story)
                    (Story.title story) (storyBody story)
                    (Story.labelId story));
  mret tt.

Definition mdFiles (dir : string) : list string :=
  List.filter (fun file => JS.endsWith file ".md") (readdirSync env dir).

(** The stages of [createIssues], after the two look-ups at its start. *)
Definition epicsOfFiles (config : Config) : error + JS.object Epic.t :=
  try_fold (readEpic (epicsDir config)) (mdFiles (epicsDir config)) [].

Definition storiesWithEpic (config : Config) (priorityOrder : list string)
    (labelsByName : gmap (option string) string) (epics : JS.object Epic.t)
  : error + list Story.t :=
  try_map (buildStory (storiesDir config) priorityOrder labelsByName epics)
          (mdFiles (storiesDir config)).

Definition createIssues (config : Config) : M unit :=
  projectInfo ← await (GetProjectInfo (owner config) (repo config))
                  (fun h => getProjectInfo env h (owner config) (repo config));
  match projectInfo with
  | None => throw (Error "Could not find project information")
  | Some projectInfo =>
      repositoryId ← await (GetRepositoryId (owner config) (repo config))
                       (fun h => getRepositoryId env h (owner config)
                                   (repo config));
      let target :=
        {| t_repositoryId := repositoryId; t_projectInfo := projectInfo;
           t_owner := owner config; t_repo := repo config |} in
      epics ← lift (epicsOfFiles config);
      labelsByName ← for_of (labels epics) (resolveLabel repositoryId) ∅;
      epics ← for_of (JS.entries epics) (createEpic target labelsByName) epics;
      priorityOrder ←
        lift (parsed (JSON_parse env (readFileSync env (priorityFile config))));
      stories ← lift (storiesWithEpic config priorityOrder labelsByName epics);
      for_of (JS.sort_by Story.priority stories) (createStory target) tt
  end.

(** A run: the calls made, and how it ended. *)
Definition run (config : Config) : history * (error + unit) :=
  createIssues config [].

End Pipeline.

(* ================================================================== *)
(** ** Reading a run *)

(** The two look-ups every run starts with. *)
Definition start (config : Config) : history :=
  [GetProjectInfo (owner config) (repo config);
   GetRepositoryId (owner config) (repo config)].

Definition labelCalls (repositoryId : string) (names : list (option string))
  : history :=
  map (CreateLabelIfNotExists repositoryId) names.

Definition epicCall (target : Target) (labelId : string) (e : Epic.t) : call :=
  CreateIssue target (title (frontmatter (Epic.epic e)))
    (epicBody (frontmatter (Epic.epic e))) labelId.

(** The label names, the epic issues and the story issues asked for in a
    history. *)
Definition labelName (c : call) : option (option string) :=
  match c with
  | CreateLabelIfNotExists _ name => Some name
  | _ => None
  end.

Definition isCreateIssue (c : call) : bool :=
  match c with
  | CreateIssue _ _ _ _ => true
  | _ => false
  end.

Definition isCreateIssueAddToProject (c : call) : bool :=
  match c with
  | CreateIssueAddToProject _ _ _ _ _ => true
  | _ => false
  end.

Definition labelNames (h : history) : list (option string) := omap labelName h.
Definition epicIssues (h : history) : history := List.filter isCreateIssue h.
Definition storyIssues (h : history) : history :=
  List.filter isCreateIssueAddToProject h.

(** How far a run went. The label loop ran to its end with the map
    [labelsByName] and the epic loop ran to its end with the object
    [epics], after the calls [h]. *)
Record EpicsCreated (env : Env) (config : Config) (target : Target)
    (labelsByName : gmap (option string) string)
    (epics0 epics : JS.object Epic.t) (h : history) : Prop := {
  ec_projectInfo :
    getProjectInfo env [] (owner config) (repo config)
    = inr (Some (t_projectInfo target));
  ec_repositoryId :
    getRepositoryId env [GetProjectInfo (owner config) (repo config)]
      (owner config) (repo config)
    = inr (t_repositoryId target);
  ec_owner : t_owner target = owner config;
  ec_repo : t_repo target = repo config;
  ec_files : epicsOfFiles env config = inr epics0;
  ec_loops :
    exists h1,
      for_of (labels epics0) (resolveLabel env (t_repositoryId target)) ∅
        (start config) = (h1, inr labelsByName)
      /\ for_of (JS.entries epics0) (createEpic env target labelsByName)
           epics0 h1 = (h, inr epics);
}.

(** The stories were read and checked after that. *)
Record StoriesBuilt (env : Env) (config : Config) (target : Target)
    (labelsByName : gmap (option string) string)
    (epics0 epics : JS.object Epic.t) (h : history)
    (priorityOrder : list string) (stories : list Story.t) : Prop := {
  sb_epics : EpicsCreated env config target labelsByName epics0 epics h;
  sb_priority :
    JSON_parse env (readFileSync env (priorityFile config)) = inr priorityOrder;
  sb_stories :
    storiesWithEpic env config priorityOrder labelsByName epics = inr stories;
}.


(* ================================================================== *)
(** ** Notions used to state the properties *)

(** A loop body that awaits one call and then updates the loop's state:
    the three loops of [createIssues] have this form. *)
Definition step {A V S : Type} (c : A -> call)
    (answer : A -> history -> outcome V) (update : A -> V -> S -> S)
    (x : A) (s : S) : M S :=
  v ← await (c x) (answer x); mret (update x v s).

(** The label id the epic loop passes on: the one resolved for "Epic". *)
Definition epicLabelId (labelsByName : gmap (option string) string) : string :=
  default "" (labelsByName !! Some "Epic").

Definition epicCalls (target : Target)
    (labelsByName : gmap (option string) string) (es : list Epic.t) : history :=
  map (epicCall target (epicLabelId labelsByName)) es.

Definition storyCalls (target : Target) (ss : list Story.t) : history :=
  map (storyCall target) ss.

(** The calls made once the epic loop has ended. *)
Definition callsOfEpics (config : Config) (target : Target)
    (labelsByName : gmap (option string) string) (epics0 : JS.object Epic.t)
  : history :=
  start config ++ labelCalls (t_repositoryId target) (labels epics0)
  ++ epicCalls target labelsByName (JS.values epics0).

(** The shapes a run can have: where it stopped, the calls made until
    then, and how it ended. *)
Inductive Run (env : Env) (config : Config) : history -> error + unit -> Prop :=
| Run_lookups h e :
    h = [GetProjectInfo (owner config) (repo config)] \/ h = start config ->
    Run env config h (inl e)
| Run_labels target epics0 names1 names2 e :
    epicsOfFiles env config = inr epics0 ->
    labels epics0 = names1 ++ names2 ->
    Run env config
      (start config ++ labelCalls (t_repositoryId target) names1) (inl e)
| Run_epics target epics0 labelsByName es1 es2 e :
    epicsOfFiles env config = inr epics0 ->
    JS.values epics0 = es1 ++ es2 ->
    Run env config
      (start config ++ labelCalls (t_repositoryId target) (labels epics0)
       ++ epicCalls target labelsByName es1) (inl e)
| Run_priority target labelsByName epics0 epics h m :
    EpicsCreated env config target labelsByName epics0 epics h ->
    JSON_parse env (readFileSync env (priorityFile config)) = inl m ->
    Run env config h (inl (Thrown m))
| Run_invalid target labelsByName epics0 epics h priorityOrder e :
    EpicsCreated env config target labelsByName epics0 epics h ->
    JSON_parse env (readFileSync env (priorityFile config)) = inr priorityOrder ->
    storiesWithEpic env config priorityOrder labelsByName epics = inl e ->
    Run env config h (inl e)
| Run_stories target labelsByName epics0 epics h priorityOrder stories ss1 ss2 r :
    StoriesBuilt env config target labelsByName epics0 epics h priorityOrder
      stories ->
    JS.sort_by Story.priority stories = ss1 ++ ss2 ->
    match r with inr _ => ss2 = [] | inl _ => ss1 <> [] end ->
    Run env config (h ++ storyCalls target ss1) r.

(** An epic record once its issue id has been written. *)
Definition withIssueId (e : Epic.t) (issueId : string) : Epic.t :=
  {| Epic.epic := Epic.epic e; Epic.stories := Epic.stories e;
     Epic.issueId := issueId |}.

(** What [createIssues] does after the epic loop. *)
Definition afterEpics (env : Env) (config : Config) (target : Target)
    (labelsByName : gmap (option string) string) (epics : JS.object Epic.t)
  : M unit :=
  priorityOrder ←
    lift (parsed (JSON_parse env (readFileSync env (priorityFile config))));
  stories ← lift (storiesWithEpic env config priorityOrder labelsByName epics);
  for_of (JS.sort_by Story.priority stories) (createStory env target) tt.

(** Records in ascending order of a rank, with and without ties. *)
Definition ascending {A} (key : A -> Z) : list A -> Prop :=
  StronglySorted (fun a b => key a <= key b).

Definition strictlyAscending {A} (key : A -> Z) : list A -> Prop :=
  StronglySorted (fun a b => key a < key b).

(** The record [epicFiles.forEach] stores for a parsed file. *)
Definition epicOfFile (md : MDStory) : Epic.t :=
  {| Epic.epic := md; Epic.stories := []; Epic.issueId := "" |}.

(* ================================================================== *)
(** ** The command line of [src/cli.ts] *)

(** [Partial<Config>] as [getConfig] handles it: either part may be
    missing, and so may a field of a part, since a part can come from a
    configuration file. What a configuration file holds is taken at the
    type [loadConfigFile] declares, up to missing parts and fields:
    [null], or an object whose parts, when present, are objects whose
    fields, when present, are strings. *)
Module Github.
Record t := {
  owner : option string;
  repo : option string;
  token : option string;
}.
End Github.

Module Data.
Record t := {
  epicsDir : option string;
  storiesDir : option string;
  priorityFile : option string;
}.
End Data.

Record PartialConfig := {
  github : option Github.t;
  data : option Data.t;
}.

(** [a || b] on values of type [string | undefined]. *)
Definition or_else (a b : option string) : option string :=
  if JS.truthy a then a else b.

(** A question of [prompts], and what the command line shows. *)
Record Question := {
  q_type : string;
  q_name : string;
  q_message : string;
  q_initial : option string;
}.

Inductive output :=
| Log (message : string)                  (* [console.log] *)
| Warn (message : string)                 (* [console.warn] *)
| ErrorLog (label message : string)       (* [console.error] *)
| Prompt (questions : list Question).     (* [prompts] *)

Definition screen := list output.

(** What the command line runs in: the working directory, the file
    system, the environment variables and the person who answers the
    prompts (as a function of what was shown before and of the questions;
    an answer may be missing). [path.join] is taken as it is, and reading
    or parsing a configuration file may throw. *)
Module Shell.
Record t := {
  cwd : string;
  join : string -> string -> string;
  existsSync : string -> bool;
  readFileSync : string -> outcome string;
  JSON_parse : string -> outcome (option PartialConfig);
  env : string -> option string;
  prompts : screen -> list Question -> string -> option string;
}.
End Shell.

(** The effects of the command line: what is shown, and errors. *)
Definition IO (A : Type) := screen -> screen * (error + A).

Definition IO_ret {A} (a : A) : IO A := fun s => (s, inr a).

Definition IO_bind {A B} (f : A -> IO B) (m : IO A) : IO B :=
  fun s =>
    match m s with
    | (s', inr a) => f a s'
    | (s', inl e) => (s', inl e)
    end.

#[export] Instance IO_mret : MRet IO := @IO_ret.
#[export] Instance IO_mbind : MBind IO := @IO_bind.

Definition show (o : output) : IO unit := fun s => (s ++ [o], inr tt).

Definition raise {A} (e : error) : IO A := fun s => (s, inl e).

Definition ask (sh : Shell.t) (questions : list Question)
  : IO (string -> option string) :=
  fun s => (s ++ [Prompt questions], inr (Shell.prompts sh s questions)).

Section CommandLine.

Variable sh : Shell.t.

(** [checkDefaultDataDir] *)
Definition checkDefaultDataDir : option string :=
  let defaultDataDir := Shell.join sh (Shell.cwd sh) "data" in
  if Shell.existsSync sh defaultDataDir then Some defaultDataDir else None.

Definition configPaths : list string :=
  [Shell.join sh (Shell.cwd sh) ".issue-board-creator.json";
   Shell.join sh (Shell.cwd sh) ".issue-board-creator.config.json"].

(** [JSON.parse(readFileSync(configPath, "utf-8"))] *)
Definition parseConfigFile (configPath : string)
  : outcome (option PartialConfig) :=
  match Shell.readFileSync sh configPath with
  | inl m => inl m
  | inr configContent => Shell.JSON_parse sh configContent
  end.

(** The loop of [loadConfigFile]. *)
Fixpoint loadConfigFrom (paths : list string) : IO (option PartialConfig) :=
  match paths with
  | [] => mret None
  | configPath :: paths' =>
      if Shell.existsSync sh configPath then
        match parseConfigFile configPath with
        | inr configFile => mret configFile
        | inl _ =>
            _ ← show (Warn ("Warning: Could not parse config file "
                            +:+ configPath));
            loadConfigFrom paths'
        end
      else loadConfigFrom paths'
  end.

Definition loadConfigFile : IO (option PartialConfig) :=
  loadConfigFrom configPaths.

(** [config.github?.owner] and the like. *)
Definition githubOwner (config : PartialConfig) : option string :=
  github config ≫= Github.owner.
Definition githubRepo (config : PartialConfig) : option string :=
  github config ≫= Github.repo.
Definition githubToken (config : PartialConfig) : option string :=
  github config ≫= Github.token.
Definition dataEpicsDir (config : PartialConfig) : option string :=
  data config ≫= Data.epicsDir.
Definition dataStoriesDir (config : PartialConfig) : option string :=
  data config ≫= Data.storiesDir.
Definition dataPriorityFile (config : PartialConfig) : option string :=
  data config ≫= Data.priorityFile.

(** [{ ...config, ...configFile }]: a part that the file has replaces the
    part of [config] as a whole. *)
Definition spread (config configFile : PartialConfig) : PartialConfig :=
  {| github := match github configFile with
               | Some g => Some g
               | None => github config
               end;
     data := match data configFile with
             | Some d => Some d
             | None => data config
             end |}.

(** Step 1 of [getConfig]: the default [./data] directory. *)
Definition fromDataDir : IO PartialConfig :=
  match checkDefaultDataDir with
  | Some (String c d) =>
      let defaultDataDir := String c d in
      _ ← show (Log "Found default ./data directory");
      mret {| github := None;
              data := Some
                {| Data.epicsDir := Some (Shell.join sh defaultDataDir "epics");
                   Data.storiesDir :=
                     Some (Shell.join sh defaultDataDir "stories");
                   Data.priorityFile :=
                     Some (Shell.join sh defaultDataDir "priority.json") |} |}
  | _ => mret {| github := None; data := None |}
  end.

(** Step 2: the configuration file. *)
Definition fromConfigFile (config : PartialConfig) : IO PartialConfig :=
  configFile ← loadConfigFile;
  match configFile with
  | Some configFile =>
      _ ← show (Log "Loaded configuration from .issue-board-creator.json");
      mret (spread config configFile)
  | None => mret config
  end.

(** Step 3: the environment variables. *)
Definition fromEnvironment (config : PartialConfig) : IO PartialConfig :=
  let envOwner := Shell.env sh "GITHUB_OWNER" in
  let envRepo := Shell.env sh "GITHUB_REPO" in
  let envToken := Shell.env sh "GITHUB_TOKEN" in
  if JS.truthy (or_else (or_else envOwner envRepo) envToken) then
    _ ← show (Log "Using environment variables for GitHub configuration");
    mret {| github := Some
              {| Github.owner :=
                   or_else (or_else envOwner (githubOwner config)) (Some "");
                 Github.repo :=
                   or_else (or_else envRepo (githubRepo config)) (Some "");
                 Github.token :=
                   or_else (or_else envToken (githubToken config)) (Some "") |};
            data := data config |}
  else mret config.

Definition needGithubConfig (config : PartialConfig) : bool :=
  negb (JS.truthy (githubOwner config))
  || negb (JS.truthy (githubRepo config))
  || negb (JS.truthy (githubToken config)).

Definition needDataConfig (config : PartialConfig) : bool :=
  negb (JS.truthy (dataEpicsDir config))
  || negb (JS.truthy (dataStoriesDir config))
  || negb (JS.truthy (dataPriorityFile config)).

Definition githubQuestions (config : PartialConfig) : list Question :=
  [ {| q_type := "text"; q_name := "owner";
       q_message := "GitHub username/organization:";
       q_initial := githubOwner config |};
    {| q_type := "text"; q_name := "repo";
       q_message := "GitHub repository name:";
       q_initial := githubRepo config |};
    {| q_type := "password"; q_name := "token";
       q_message := "GitHub personal access token (repo + project scopes):";
       q_initial := githubToken config |} ].

Definition dataQuestions (config : PartialConfig) : list Question :=
  [ {| q_type := "text"; q_name := "epicsDir";
       q_message := "Epics directory path:";
       q_initial := or_else (dataEpicsDir config) (Some "./data/epics") |};
    {| q_type := "text"; q_name := "storiesDir";
       q_message := "Stories directory path:";
       q_initial := or_else (dataStoriesDir config) (Some "./data/stories") |};
    {| q_type := "text"; q_name := "priorityFile";
       q_message := "Priority file path:";
       q_initial :=
         or_else (dataPriorityFile config) (Some "./data/priority.json") |} ].

Definition promptGithub (config : PartialConfig) : IO PartialConfig :=
  githubPrompts ← ask sh (githubQuestions config);
  mret {| github := Some
            {| Github.owner :=
                 or_else (or_else (githubPrompts "owner") (githubOwner config))
                   (Some "");
               Github.repo :=
                 or_else (or_else (githubPrompts "repo") (githubRepo config))
                   (Some "");
               Github.token :=
                 or_else (or_else (githubPrompts "token") (githubToken config))
                   (Some "") |};
          data := data config |}.

Definition promptData (config : PartialConfig) : IO PartialConfig :=
  dataPrompts ← ask sh (dataQuestions config);
  mret {| github := github config;
          data := Some
            {| Data.epicsDir :=
                 or_else (or_else (dataPrompts "epicsDir") (dataEpicsDir config))
                   (Some "");
               Data.storiesDir :=
                 or_else
                   (or_else (dataPrompts "storiesDir") (dataStoriesDir config))
                   (Some "");
               Data.priorityFile :=
                 or_else
                   (or_else (dataPrompts "priorityFile")
                      (dataPriorityFile config))
                   (Some "") |} |}.

(** Step 4: the prompts for what is missing. The two needs are computed
    before any question is asked. *)
Definition fromPrompts (config : PartialConfig) : IO PartialConfig :=
  let needGithub := needGithubConfig config in
  let needData := needDataConfig config in
  if needGithub || needData then
    _ ← show (Log "\nPlease provide the following information:");
    config ← (if needGithub then promptGithub config else mret config);
    if needData then promptData config else mret config
  else mret config.

Definition missingGithub : error :=
  Error "Missing required GitHub configuration (owner, repo, token)".

Definition missingData : error :=
  Error "Missing required data configuration (epicsDir, storiesDir, priorityFile)".

(** [config as Config], for a configuration that passed the checks. *)
Definition asConfig (config : PartialConfig) : Config :=
  {| owner := default "" (githubOwner config);
     repo := default "" (githubRepo config);
     token := default "" (githubToken config);
     epicsDir := default "" (dataEpicsDir config);
     storiesDir := default "" (dataStoriesDir config);
     priorityFile := default "" (dataPriorityFile config) |}.

(** The checks at the end of [getConfig]. *)
Definition validate (config : PartialConfig) : IO Config :=
  if needGithubConfig config then raise missingGithub
  else if needDataConfig config then raise missingData
  else mret (asConfig config).

(** Steps 1 to 3. *)
Definition gather : IO PartialConfig :=
  config ← fromDataDir;
  config ← fromConfigFile config;
  fromEnvironment config.

Definition getConfig : IO Config :=
  config ← gather;
  config ← fromPrompts config;
  validate config.

End CommandLine.

(** [error instanceof Error ? error.message : error] *)
Definition errorMessage (e : error) : string :=
  match e with
  | Error m => m
  | TypeError m => m
  | Thrown m => m
  end.

(** [main]: what the command line shows, the calls made on the client,
    and the exit code. *)
Definition main (sh : Shell.t) (env : Env) : screen * history * Z :=
  match getConfig sh [Log "🚀 Issue Board Creator\n"] with
  | (s, inl e) => (s ++ [ErrorLog "\n❌ Error:" (errorMessage e)], [], 1)
  | (s, inr config) =>
      let s' :=
        s ++ [Log "\nConfiguration:";
              Log ("  GitHub: " +:+ owner config +:+ "/" +:+ repo config);
              Log ("  Epics: " +:+ epicsDir config);
              Log ("  Stories: " +:+ storiesDir config);
              Log ("  Priority: " +:+ priorityFile config)] in
      match run env config with
      | (h, inl e) => (s' ++ [ErrorLog "\n❌ Error:" (errorMessage e)], h, 1)
      | (h, inr _) =>
          (s' ++ [Log "\n✅ Successfully created GitHub issues and project cards!"],
           h, 0)
      end
  end.

(* ================================================================== *)
(** ** Further notions about [createIssues] *)

(** The two look-ups succeeded, the epic files were read and the label
    loop ran to its end with the map [labelsByName], after the calls [h]. *)
Record LabelsResolved (env : Env) (config : Config) (target : Target)
    (labelsByName : gmap (option string) string)
    (epics0 : JS.object Epic.t) (h : history) : Prop := {
  lr_projectInfo :
    getProjectInfo env [] (owner config) (repo config)
    = inr (Some (t_projectInfo target));
  lr_repositoryId :
    getRepositoryId env [GetProjectInfo (owner config) (repo config)]
      (owner config) (repo config)
    = inr (t_repositoryId target);
  lr_owner : t_owner target = owner config;
  lr_repo : t_repo target = repo config;
  lr_files : epicsOfFiles env config = inr epics0;
  lr_labels :
    for_of (labels epics0) (resolveLabel env (t_repositoryId target)) ∅
      (start config) = (h, inr labelsByName);
}.

(** What [createIssues] does after the label loop. *)
Definition afterLabels (env : Env) (config : Config) (target : Target)
    (labelsByName : gmap (option string) string) (epics0 : JS.object Epic.t)
  : M unit :=
  epics ← for_of (JS.entries epics0) (createEpic env target labelsByName) epics0;
  afterEpics env config target labelsByName epics.

(** What the client throws at a call made after the calls [h], if it
    throws. *)
Definition thrown (env : Env) (h : history) (c : call) : option string :=
  match c with
  | GetProjectInfo o r =>
      match getProjectInfo env h o r with inr _ => None | inl m => Some m end
  | GetRepositoryId o r =>
      match getRepositoryId env h o r with inr _ => None | inl m => Some m end
  | CreateLabelIfNotExists rid name =>
      match createLabelIfNotExists env h rid name with
      | inr _ => None
      | inl m => Some m
      end
  | CreateIssue target title body labelId =>
      match createIssue env h target title body labelId with
      | inr _ => None
      | inl m => Some m
      end
  | CreateIssueAddToProject target parent title body labelId =>
      match createIssueAddToProject env h target parent title body labelId with
      | inr _ => None
      | inl m => Some m
      end
  end.

(** Of the calls [seg] made after [h], every one that is followed by
    another was answered, and so was the last when [ok]. *)
Definition allAnswered (env : Env) (h seg : history) (ok : bool) : Prop :=
  forall h1 c rest,
    seg = h1 ++ c :: rest ->
    rest <> [] \/ ok = true ->
    thrown env (h ++ h1) c = None.

Definition succeeded {A} (r : error + A) : bool :=
  match r with inr _ => true | inl _ => false end.

(** A computation that stops at the first call at which the client
    throws, with what the client threw. *)
Definition failFast {A} (env : Env) (m : M A) : Prop :=
  forall h h' r,
    m h = (h', r) ->
    exists seg,
      h' = h ++ seg
      /\ allAnswered env h seg (succeeded r)
      /\ forall h1 c message,
           seg = h1 ++ [c] ->
           thrown env (h ++ h1) c = Some message ->
           r = inl (Thrown message).



(** The warnings of [loadConfigFile] for the files among [paths] that
    exist, when none of them can be parsed. *)
Definition warnings (sh : Shell.t) (paths : list string) : screen :=
  map (fun p => Warn ("Warning: Could not parse config file " +:+ p))
      (List.filter (Shell.existsSync sh) paths).

(* ================================================================== *)
(** ** Test doubles *)

Module Demo.

Definition config : Config :=
  {| owner := "octo"; repo := "board"; token := "secret";
     epicsDir := "epics"; storiesDir := "stories";
     priorityFile := "priority.json" |}.

Definition target : Target :=
  {| t_repositoryId := "R_1"; t_projectInfo := "PVT_1";
     t_owner := "octo"; t_repo := "board" |}.

Fixpoint doc (docs : list (string * MDStory)) (path : string) : outcome MDStory :=
  match docs with
  | [] => inl "no frontmatter"
  | (p, md) :: docs' => if String.eqb p path then inr md else doc docs' path
  end.

(** A client that accepts every call and numbers the issues by the
    number of calls made before, a file system with the two directories
    of [config], and a parser given as a table from paths: a file's
    content stands for the file. *)
Definition env (epicFiles storyFiles : list string)
    (docs : list (string * MDStory)) (manifest : list string) : Env :=
  {| readdirSync := fun dir =>
       if String.eqb dir "epics" then epicFiles
       else if String.eqb dir "stories" then storyFiles else [];
     readFileSync := fun path => path;
     getMDStory := doc docs;
     JSON_parse := fun _ => inr manifest;
     getProjectInfo := fun _ _ _ => inr (Some "PVT_1");
     getRepositoryId := fun _ _ _ => inr "R_1";
     createLabelIfNotExists := fun _ _ name => inr ("LA_" +:+ JS.show name);
     createIssue := fun h _ _ _ _ => inr ("I_" +:+ pretty (length h));
     createIssueAddToProject := fun h _ _ _ _ _ =>
       inr ("I_" +:+ pretty (length h)) |}.

(** The object [epics] of an environment whose epic files all parse. *)
Definition epicsOf (e : Env) : JS.object Epic.t :=
  match epicsOfFiles e config with
  | inr epics => epics
  | inl _ => []
  end.

(** The map [labelsByName] of an environment that resolves every label. *)
Definition labelsOf (e : Env) : gmap (option string) string :=
  match for_of (labels (epicsOf e)) (resolveLabel e "R_1") ∅ (start config) with
  | (_, inr m) => m
  | (_, inl _) => ∅
  end.

(** The object [epics] after the epic loop, and the stories built then. *)
Definition epicsAfter (e : Env) : JS.object Epic.t :=
  match for_of (JS.entries (epicsOf e)) (createEpic e target (labelsOf e))
          (epicsOf e)
          (start config ++ labelCalls "R_1" (labels (epicsOf e))) with
  | (_, inr epics) => epics
  | (_, inl _) => []
  end.

Definition storiesOf (e : Env) (priorityOrder : list string) : list Story.t :=
  match storiesWithEpic e config priorityOrder (labelsOf e) (epicsAfter e) with
  | inr stories => stories
  | inl _ => []
  end.

Definition md (title label role action benefit : option string)
    (description : string) : MDStory :=
  {| frontmatter := {| title := title; label := label; role := role;
                       action := action; benefit := benefit |};
     description := description |}.

(** The layout of the README: two epics, three stories. *)
Definition readme : Env :=
  env ["001-epic-one.md"; "002-epic-two.md"; "notes.txt"]
      ["001-001-first-story.md"; "001-002-second-story.md";
       "002-001-first-story-of-epic-2.md"]
      [("epics/001-epic-one.md",
        md (Some "Epic One") (Some "backend") (Some "user")
           (Some "perform an action") (Some "achieve a goal") "Epic text");
       ("epics/002-epic-two.md",
        md (Some "Epic Two") (Some "backend") None None None "More text");
       ("stories/001-001-first-story.md",
        md (Some "First Story") (Some "backend") (Some "user")
           (Some "do something specific") (Some "get some value") "Story A");
       ("stories/001-002-second-story.md",
        md (Some "Second Story") (Some "backend") None None None "Story B");
       ("stories/002-001-first-story-of-epic-2.md",
        md (Some "Third Story") (Some "backend") None None None "Story C")]
      ["001-002"; "002-001"; "001-001"].

(** One epic labelled "backend"; its story carries the label "frontend". *)
Definition mislabelled : Env :=
  env ["001-epic-one.md"] ["001-001-login.md"]
      [("epics/001-epic-one.md",
        md (Some "Epic One") (Some "backend") None None None "Epic text");
       ("stories/001-001-login.md",
        md (Some "Login") (Some "frontend") None None None "Story text")]
      ["001-001"].

(** Two story files with the same first two segments. *)
Definition twins : Env :=
  env ["001-epic-one.md"] ["001-001-a.md"; "001-001-b.md"]
      [("epics/001-epic-one.md",
        md (Some "Epic One") (Some "backend") None None None "Epic text");
       ("stories/001-001-a.md",
        md (Some "Story A") (Some "backend") None None None "Text A");
       ("stories/001-001-b.md",
        md (Some "Story B") (Some "backend") None None None "Text B")]
      ["001-001"].

(** The story 001-002 is missing from the manifest. *)
Definition unlisted : Env :=
  env ["001-epic-one.md"] ["001-001-a.md"; "001-002-b.md"]
      [("epics/001-epic-one.md",
        md (Some "Epic One") (Some "backend") None None None "Epic text");
       ("stories/001-001-a.md",
        md (Some "Story A") (Some "backend") None None None "Text A");
       ("stories/001-002-b.md",
        md (Some "Story B") (Some "backend") None None None "Text B")]
      ["001-001"].

(** Two epic files with the number 001. *)
Definition duplicates : Env :=
  env ["001-old.md"; "002-other.md"; "001-new.md"] ["001-001-a.md"]
      [("epics/001-old.md",
        md (Some "Old") (Some "backend") None None None "Old text");
       ("epics/002-other.md",
        md (Some "Other") (Some "backend") None None None "Other text");
       ("epics/001-new.md",
        md (Some "New") (Some "frontend") None None None "New text");
       ("stories/001-001-a.md",
        md (Some "Story A") (Some "frontend") None None None "Text A")]
      ["001-001"].

(** An epic file whose name has no number. *)
Definition unnumbered : Env :=
  env ["notes.md"] []
      [("epics/notes.md",
        md (Some "Notes") (Some "backend") None None None "Some notes")]
      [].

(** An epic with a role and nothing else of the narrative. *)
Definition roleOnly : Env :=
  env ["001-epic-one.md"] []
      [("epics/001-epic-one.md",
        md (Some "Epic One") (Some "backend") (Some "admin") None None
           "Epic text")]
      [].

(** An epic without a title. *)
Definition untitled : Env :=
  env ["001-epic-one.md"] []
      [("epics/001-epic-one.md",
        md None (Some "backend") None None None "Epic text")]
      [].

(** A story of the epic 002, which does not exist. *)
Definition orphan : Env :=
  env ["001-epic-one.md"] ["002-001-orphan.md"]
      [("epics/001-epic-one.md",
        md (Some "Epic One") (Some "backend") None None None "Epic text");
       ("stories/002-001-orphan.md",
        md (Some "Orphan") (Some "backend") None None None "Story text")]
      ["002-001"].

(** A story whose first segment is the name of a property that every
    object inherits. *)
Definition inherited : Env :=
  env ["001-epic-one.md"] ["constructor-001-x.md"]
      [("epics/001-epic-one.md",
        md (Some "Epic One") (Some "backend") None None None "Epic text");
       ("stories/constructor-001-x.md",
        md (Some "Story X") (Some "backend") None None None "Story text")]
      ["constructor-001"].

Definition readme_calls : history :=
  Eval vm_compute in fst (run readme config).

End Demo.

(* ================================================================== *)
(** ** More test doubles *)

Module Sample.

(** [Demo.env] with another way of resolving labels. *)
Definition withLabels (e : Env)
    (resolve : history -> string -> option string -> outcome string) : Env :=
  {| readdirSync := readdirSync e;
     readFileSync := readFileSync e;
     getMDStory := getMDStory e;
     JSON_parse := JSON_parse e;
     getProjectInfo := getProjectInfo e;
     getRepositoryId := getRepositoryId e;
     createLabelIfNotExists := resolve;
     createIssue := createIssue e;
     createIssueAddToProject := createIssueAddToProject e |}.

(** A client that hands out an empty id for the label "Epic". *)
Definition emptyEpicLabel : Env :=
  withLabels Demo.readme
    (fun _ _ name =>
       if decide (name = Some "Epic") then inr ""
       else inr ("LA_" +:+ JS.show name)).

(** A repository without a project. *)
Definition noProject : Env :=
  {| readdirSync := readdirSync Demo.readme;
     readFileSync := readFileSync Demo.readme;
     getMDStory := getMDStory Demo.readme;
     JSON_parse := JSON_parse Demo.readme;
     getProjectInfo := fun _ _ _ => inr None;
     getRepositoryId := getRepositoryId Demo.readme;
     createLabelIfNotExists := createLabelIfNotExists Demo.readme;
     createIssue := createIssue Demo.readme;
     createIssueAddToProject := createIssueAddToProject Demo.readme |}.

(** The second story has neither a role nor a title. *)
Definition untitledStory : Env :=
  Demo.env ["001-epic-one.md"] ["001-001-a.md"; "001-002-b.md"]
      [("epics/001-epic-one.md",
        Demo.md (Some "Epic One") (Some "backend") None None None "Epic text");
       ("stories/001-001-a.md",
        Demo.md (Some "Story A") (Some "backend") None None None "Text A");
       ("stories/001-002-b.md",
        Demo.md None (Some "backend") None (Some "act") None "Text B")]
      ["001-001"; "001-002"].

(** A client that refuses the second epic issue. *)
Definition rateLimited : Env :=
  {| readdirSync := readdirSync Demo.readme;
     readFileSync := readFileSync Demo.readme;
     getMDStory := getMDStory Demo.readme;
     JSON_parse := JSON_parse Demo.readme;
     getProjectInfo := getProjectInfo Demo.readme;
     getRepositoryId := getRepositoryId Demo.readme;
     createLabelIfNotExists := createLabelIfNotExists Demo.readme;
     createIssue := fun h target title body labelId =>
       if (length h =? 5)%nat then inl "rate limited"
       else createIssue Demo.readme h target title body labelId;
     createIssueAddToProject := createIssueAddToProject Demo.readme |}.

(** [l[k]] in a table. *)
Fixpoint assoc {V} (l : list (string * V)) (k : string) : option V :=
  match l with
  | [] => None
  | (k', v) :: l' => if String.eqb k' k then Some v else assoc l' k
  end.

(** A shell in the directory [/work]: whether [./data] exists, the
    configuration files (a file's content stands for the file; one that
    is listed with nothing cannot be parsed), the environment variables and
    the answers typed at the prompts. *)
Definition shell (dataDir : bool)
    (files : list (string * option PartialConfig))
    (vars answers : list (string * string)) : Shell.t :=
  {| Shell.cwd := "/work";
     Shell.join := fun dir file => dir +:+ "/" +:+ file;
     Shell.existsSync := fun path =>
       (dataDir && String.eqb path "/work/data")
       || match assoc files path with Some _ => true | None => false end;
     Shell.readFileSync := fun path => inr path;
     Shell.JSON_parse := fun content =>
       match assoc files content with
       | Some (Some config) => inr (Some config)
       | _ => inl "Unexpected token"
       end;
     Shell.env := assoc vars;
     Shell.prompts := fun _ _ name => assoc answers name |}.

Definition octo : Github.t :=
  {| Github.owner := Some "octo"; Github.repo := Some "board";
     Github.token := Some "secret" |}.

(** The default data directory and the three environment variables. *)
Definition ready : Shell.t :=
  shell true []
    [("GITHUB_OWNER", "octo"); ("GITHUB_REPO", "board");
     ("GITHUB_TOKEN", "secret")] [].

(** A first configuration file that cannot be parsed and a second one
    that gives the GitHub part and only the epics directory. *)
Definition twoFiles : Shell.t :=
  shell true
    [("/work/.issue-board-creator.json", None);
     ("/work/.issue-board-creator.config.json",
      Some {| github := Some octo;
              data := Some {| Data.epicsDir := Some "my/epics";
                              Data.storiesDir := None;
                              Data.priorityFile := None |} |})]
    [] [("storiesDir", "my/stories"); ("priorityFile", "my/priority.json")].

(** The owner comes from the environment, the rest is typed; the owner
    is typed too. *)
Definition typed : Shell.t :=
  shell true [] [("GITHUB_OWNER", "octo")]
    [("owner", "hubber"); ("repo", "board"); ("token", "secret")].

(** The owner comes from the environment, the rest from the
    configuration file. *)
Definition mixed : Shell.t :=
  shell true
    [("/work/.issue-board-creator.json",
      Some {| github := Some octo; data := None |})]
    [("GITHUB_OWNER", "hubber")] [].

(** Nothing is configured and nothing is answered. *)
Definition silent : Shell.t := shell false [] [] [].

(** Three epic files whose numbers are written without padding, and
    one with it. *)
Definition unpadded : Env :=
  Demo.env ["10-ten.md"; "2-two.md"; "007-seven.md"] []
    [("epics/10-ten.md",
      Demo.md (Some "Ten") (Some "backend") None None None "Ten text");
     ("epics/2-two.md",
      Demo.md (Some "Two") (Some "backend") None None None "Two text");
     ("epics/007-seven.md",
      Demo.md (Some "Seven") (Some "backend") None None None "Seven text")]
    [].

(** Two epics with different labels; the story of epic 001 carries the
    label of epic 002. *)
Definition crossLabelled : Env :=
  Demo.env ["001-epic-one.md"; "002-epic-two.md"] ["001-001-login.md"]
    [("epics/001-epic-one.md",
      Demo.md (Some "Epic One") (Some "backend") None None None "Epic text");
     ("epics/002-epic-two.md",
      Demo.md (Some "Epic Two") (Some "frontend") None None None "More text");
     ("stories/001-001-login.md",
      Demo.md (Some "Login") (Some "frontend") None None None "Story text")]
    ["001-001"].

(** Two epic files whose names have no number. *)
Definition unnumberedTwo : Env :=
  Demo.env ["notes.md"; "todo.md"] []
    [("epics/notes.md",
      Demo.md (Some "Notes") (Some "backend") None None None "Some notes");
     ("epics/todo.md",
      Demo.md (Some "Todo") (Some "backend") None None None "Things to do")]
    [].

(** A story file whose name has no "-", listed in the manifest under the
    story id that is derived for it. *)
Definition solo : Env :=
  Demo.env ["001-epic-one.md"] ["solo.md"]
    [("epics/001-epic-one.md",
      Demo.md (Some "Epic One") (Some "backend") None None None "Epic text");
     ("stories/solo.md",
      Demo.md (Some "Solo") (Some "backend") None None None "Story text")]
    ["solo.md-undefined"].

End Sample.

(* ================================================================== *)
(** ** Examples *)

Example split_story_file :
  JS.split "-" "001-002-second-story.md" = ["001"; "002"; "second"; "story.md"].
Proof. reflexivity. Qed.

Example match_epic_file : JS.match_digits_dash "001-epic-one.md" = Some "001".
Proof. reflexivity. Qed.

Example match_no_dash : JS.match_digits_dash "001.md" = None.
Proof. reflexivity. Qed.

Example values_order :
  JS.values (JS.set "2" "c" (JS.set "10" "b" (JS.set "001" "a" [])))
  = ["c"; "b"; "a"].
Proof. reflexivity. Qed.

Example set_dedup : JS.Set_values [] [Some "a"; None; Some "a"; Some "Epic"]
  = [Some "a"; None; Some "Epic"].
Proof. reflexivity. Qed.


(** The layout of the README: the manifest lists 001-002, 002-001 and
    001-001, and the story issues are asked for in this order. *)
Example readme_story_issues :
  storyIssues (fst (run Demo.readme Demo.config))
  = [CreateIssueAddToProject Demo.target (Some "I_4") "Second Story" "Story B"
       (Some "LA_backend");
     CreateIssueAddToProject Demo.target (Some "I_5") "Third Story" "Story C"
       (Some "LA_backend");
     CreateIssueAddToProject Demo.target (Some "I_4")
       "As a user, I want to do something specific"
       ("As a user, I want to do something specific so that get some value."
        +:+ JS.newline +:+ JS.newline +:+ "Story A")
       (Some "LA_backend")].
Proof. vm_compute. reflexivity. Qed.
(* ================================================================== *)
(** ** The monad and its loops *)

Lemma bind_inv {A B} (m : M A) (f : A -> M B) h h' r :
  (m ≫= f) h = (h', r) ->
  (exists e, m h = (h', inl e) /\ r = inl e)
  \/ (exists a h1, m h = (h1, inr a) /\ f a h1 = (h', r)).
Proof.
  unfold mbind, M_bind, bind.
  destruct (m h) as [h1 [e | a]] eqn:E; intros H.
  - left. exists e. by inversion H.
  - right. by exists a, h1.
Qed.

Lemma bind_ok {A B} (m : M A) (f : A -> M B) h h1 a :
  m h = (h1, inr a) -> (m ≫= f) h = f a h1.
Proof. unfold mbind, M_bind, bind. by intros ->. Qed.

Lemma bind_fail {A B} (m : M A) (f : A -> M B) h h1 e :
  m h = (h1, inl e) -> (m ≫= f) h = (h1, inl e).
Proof. unfold mbind, M_bind, bind. by intros ->. Qed.

Section Step.
Context {A V S : Type}.
Variable c : A -> call.
Variable answer : A -> history -> outcome V.
Variable update : A -> V -> S -> S.

Local Abbreviation step := (step c answer update).

Lemma step_ok x s h v :
  answer x h = inr v -> step x s h = (h ++ [c x], inr (update x v s)).
Proof. unfold step, mbind, M_bind, bind, await. by intros ->. Qed.

Lemma step_fail x s h m :
  answer x h = inl m -> step x s h = (h ++ [c x], inl (Thrown m)).
Proof. unfold step, mbind, M_bind, bind, await. by intros ->. Qed.

Lemma for_of_step_calls l : forall s h h' r,
  for_of l step s h = (h', r) ->
  exists l1 l2, l = l1 ++ l2 /\ h' = h ++ map c l1
    /\ match r with inr _ => l2 = [] | inl _ => l1 <> [] end.
Proof.
  induction l as [| x l IH]; intros s h h' r H; simpl in H.
  - inversion H; subst. exists [], []. simpl. by rewrite app_nil_r.
  - destruct (answer x h) as [m | v] eqn:E.
    + erewrite bind_fail in H by (by apply step_fail).
      inversion H; subst. by exists [x], l.
    + erewrite bind_ok in H by (by apply step_ok).
      apply IH in H as (l1 & l2 & -> & -> & Hr).
      exists (x :: l1), l2. rewrite <- app_assoc. repeat split; try done.
      by destruct r.
Qed.

Lemma for_of_step_ok l s h h' s' :
  for_of l step s h = (h', inr s') -> h' = h ++ map c l.
Proof.
  intros H. apply for_of_step_calls in H as (l1 & l2 & -> & -> & ->).
  by rewrite app_nil_r.
Qed.

(** The loop seen from one of its iterations. *)
Lemma for_of_step_split l1 x l2 : forall s h h' s',
  for_of (l1 ++ x :: l2) step s h = (h', inr s') ->
  exists s1 v,
    for_of l1 step s h = (h ++ map c l1, inr s1)
    /\ answer x (h ++ map c l1) = inr v
    /\ for_of l2 step (update x v s1) (h ++ map c l1 ++ [c x]) = (h', inr s').
Proof.
  induction l1 as [| y l1 IH]; intros s h h' s' H; simpl in H.
  - destruct (answer x h) as [m | v] eqn:E.
    + erewrite bind_fail in H by (by apply step_fail). done.
    + erewrite bind_ok in H by (by apply step_ok).
      exists s, v. simpl. by rewrite app_nil_r.
  - destruct (answer y h) as [m | v] eqn:E.
    + erewrite bind_fail in H by (by apply step_fail). done.
    + erewrite bind_ok in H by (by apply step_ok).
      apply IH in H as (s1 & w & H1 & H2 & H3).
      exists s1, w. simpl. erewrite bind_ok by (by apply step_ok).
      rewrite <- !app_assoc in *. simpl in *. done.
Qed.

End Step.

(* ================================================================== *)
(** ** The three loops *)

Section Loops.
Variable env : Env.

Lemma resolveLabel_step (repositoryId : string) :
  resolveLabel env repositoryId
  = step (CreateLabelIfNotExists repositoryId)
      (fun name h => createLabelIfNotExists env h repositoryId name)
      (fun name id (m : gmap (option string) string) => <[name := id]> m).
Proof. reflexivity. Qed.

Lemma createStory_step (target : Target) :
  createStory env target
  = step (storyCall target)
      (fun story h =>
         createIssueAddToProject env h target (Story.issueId story)
           (Story.title story) (storyBody story) (Story.labelId story))
      (fun _ _ _ => tt).
Proof. reflexivity. Qed.

Lemma createEpic_step (target : Target)
    (labelsByName : gmap (option string) string) (c : ascii) (s : string) :
  labelsByName !! Some "Epic" = Some (String c s) ->
  createEpic env target labelsByName
  = step (fun kv => epicCall target (String c s) (snd kv))
      (fun kv h =>
         createIssue env h target (title (frontmatter (Epic.epic (snd kv))))
           (epicBody (frontmatter (Epic.epic (snd kv)))) (String c s))
      (fun kv id epics => JS.set (fst kv) (withIssueId (snd kv) id) epics).
Proof. unfold createEpic. intros ->. reflexivity. Qed.

Lemma createEpic_throw (target : Target)
    (labelsByName : gmap (option string) string) kv epics (h : history) :
  JS.truthy (labelsByName !! Some "Epic") = false ->
  createEpic env target labelsByName kv epics h = (h, inl epicLabelNotFound).
Proof.
  unfold createEpic. by destruct (labelsByName !! Some "Epic") as [[|]|].
Qed.

End Loops.

(* ================================================================== *)
(** ** Every run has one of the shapes of [Run] *)

Lemma await_eq {A} (c : call) (answer : history -> outcome A) h :
  await c answer h
  = (h ++ [c], match answer h with inl m => inl (Thrown m) | inr a => inr a end).
Proof. reflexivity. Qed.

Lemma for_of_throw {A S} (body : A -> S -> M S) (e : error) l s h :
  (forall x s' h', body x s' h' = (h', inl e)) ->
  for_of l body s h = (h, match l with [] => inr s | _ => inl e end).
Proof.
  intros Hb. destruct l as [| x l]; [done |].
  simpl. by erewrite bind_fail.
Qed.

Lemma epicLabelId_truthy (labelsByName : gmap (option string) string) c s :
  labelsByName !! Some "Epic" = Some (String c s) ->
  epicLabelId labelsByName = String c s.
Proof. unfold epicLabelId. by intros ->. Qed.

Lemma epicCalls_entries (target : Target)
    (labelsByName : gmap (option string) string) c s
    (l : list (string * Epic.t)) :
  labelsByName !! Some "Epic" = Some (String c s) ->
  map (fun kv => epicCall target (String c s) (snd kv)) l
  = epicCalls target labelsByName (map snd l).
Proof.
  intros H. unfold epicCalls. rewrite (epicLabelId_truthy _ _ _ H).
  by rewrite map_map.
Qed.

(** The history after the two loops. *)
Lemma EpicsCreated_history env config target labelsByName epics0 epics h :
  EpicsCreated env config target labelsByName epics0 epics h ->
  h = callsOfEpics config target labelsByName epics0.
Proof.
  intros [_ _ _ _ _ (h1 & Hl & He)].
  rewrite resolveLabel_step in Hl. apply for_of_step_ok in Hl. subst h1.
  unfold callsOfEpics, JS.values.
  destruct (labelsByName !! Some "Epic") as [[| c s] |] eqn:E.
  - rewrite for_of_throw with (e := epicLabelNotFound) in He
      by (intros; apply createEpic_throw; by rewrite E).
    destruct (JS.entries epics0); [| done]. inversion He; subst.
    by rewrite app_nil_r.
  - rewrite (createEpic_step _ _ _ _ _ E) in He.
    apply for_of_step_ok in He. subst h.
    rewrite (epicCalls_entries _ _ _ _ _ E). by rewrite <- app_assoc.
  - rewrite for_of_throw with (e := epicLabelNotFound) in He
      by (intros; apply createEpic_throw; by rewrite E).
    destruct (JS.entries epics0); [| done]. inversion He; subst.
    by rewrite app_nil_r.
Qed.

Theorem run_Run env config t r : run env config = (t, r) -> Run env config t r.
Proof.
  unfold run, createIssues. intros H.
  apply bind_inv in H as [(e & H1 & ->) | (pi & h1 & H1 & H)];
    rewrite await_eq in H1; inversion H1; subst; clear H1.
  { apply Run_lookups. by left. }
  destruct pi as [pi |]; cycle 1.
  { inversion H; subst. apply Run_lookups. by left. }
  apply bind_inv in H as [(e & H1 & ->) | (rid & h2 & H1 & H)];
    rewrite await_eq in H1; inversion H1; subst; clear H1.
  { apply Run_lookups. by right. }
  set (target := {| t_repositoryId := rid; t_projectInfo := pi;
                    t_owner := owner config; t_repo := repo config |}) in *.
  apply bind_inv in H as [(e & H1 & ->) | (epics0 & h3 & H1 & H)];
    unfold lift in H1; injection H1 as <- Hfiles.
  { apply Run_lookups. by right. }
  apply bind_inv in H as [(e & Hl & ->) | (labelsByName & h4 & Hl & H)].
  { rewrite resolveLabel_step in Hl.
    apply for_of_step_calls in Hl as (n1 & n2 & Hn & -> & _).
    by apply (Run_labels env config target epics0 n1 n2). }
  assert (h4 = start config ++ labelCalls rid (labels epics0)) as Hh4.
  { rewrite resolveLabel_step in Hl. by apply for_of_step_ok in Hl. }
  apply bind_inv in H as [(e & He & ->) | (epics & h5 & He & H)].
  { destruct (labelsByName !! Some "Epic") as [[| c s] |] eqn:E.
    - rewrite for_of_throw with (e := epicLabelNotFound) in He
        by (intros; apply createEpic_throw; by rewrite E).
      destruct (JS.entries epics0); [done |].
      simplify_eq.
      pose proof (Run_epics env config target epics0 labelsByName []
                    (JS.values epics0) epicLabelNotFound Hfiles eq_refl) as R.
      simpl in R. by rewrite app_nil_r in R.
    - rewrite (createEpic_step _ _ _ _ _ E) in He.
      apply for_of_step_calls in He as (l1 & l2 & Hes & -> & _). subst h4.
      rewrite (epicCalls_entries _ _ _ _ _ E), <- app_assoc.
      apply (Run_epics env config target epics0 labelsByName (map snd l1)
               (map snd l2)); [done |].
      unfold JS.values. by rewrite Hes, map_app.
    - rewrite for_of_throw with (e := epicLabelNotFound) in He
        by (intros; apply createEpic_throw; by rewrite E).
      destruct (JS.entries epics0); [done |].
      simplify_eq.
      pose proof (Run_epics env config target epics0 labelsByName []
                    (JS.values epics0) epicLabelNotFound Hfiles eq_refl) as R.
      simpl in R. by rewrite app_nil_r in R. }
  assert (Hec : EpicsCreated env config target labelsByName epics0 epics h5).
  { split; simpl; try done.
    - by destruct (getProjectInfo env [] _ _) as [| [|]]; simplify_eq.
    - by destruct (getRepositoryId env _ _ _); simplify_eq.
    - exists h4. split; [exact Hl | exact He]. }
  apply bind_inv in H as [(e & Hp & ->) | (priorityOrder & h6 & Hp & H)];
    unfold lift in Hp; injection Hp as <- Hp.
  { destruct (JSON_parse env _) as [m |] eqn:Ej; [| done].
    simpl in Hp. injection Hp as <-. by eapply Run_priority. }
  destruct (JSON_parse env _) as [| po] eqn:Ej; [done |].
  simpl in Hp. injection Hp as ->.
  apply bind_inv in H as [(e & Hs & ->) | (stories & h7 & Hs & H)];
    unfold lift in Hs; injection Hs as <- Hs.
  { by eapply Run_invalid. }
  rewrite createStory_step in H.
  apply for_of_step_calls in H as (ss1 & ss2 & Hss & -> & Hr).
  by eapply (Run_stories env config target labelsByName epics0 epics _
               priorityOrder stories ss1 ss2).
Qed.

(** A run that gets through the two loops goes on with [afterEpics]. *)
Lemma run_afterEpics env config target labelsByName epics0 epics h :
  EpicsCreated env config target labelsByName epics0 epics h ->
  run env config = afterEpics env config target labelsByName epics h.
Proof.
  intros [Hpi Hrid Ho Hr Hf (h1 & Hl & He)].
  unfold run, createIssues.
  erewrite bind_ok by (rewrite await_eq, Hpi; reflexivity).
  cbv beta iota.
  erewrite bind_ok by (simpl; rewrite await_eq, Hrid; reflexivity).
  cbv beta zeta.
  erewrite bind_ok by (unfold lift; rewrite Hf; reflexivity).
  erewrite bind_ok by exact Hl.
  destruct target as [rid pi o r]; simpl in *; subst o r.
  erewrite bind_ok by exact He.
  reflexivity.
Qed.

Lemma run_invalid env config target labelsByName epics0 epics h po e :
  EpicsCreated env config target labelsByName epics0 epics h ->
  JSON_parse env (readFileSync env (priorityFile config)) = inr po ->
  storiesWithEpic env config po labelsByName epics = inl e ->
  run env config = (h, inl e).
Proof.
  intros Hec Hp Hs. rewrite (run_afterEpics _ _ _ _ _ _ _ Hec).
  unfold afterEpics.
  erewrite bind_ok by (unfold lift; rewrite Hp; reflexivity).
  erewrite bind_fail by (unfold lift; rewrite Hs; reflexivity).
  reflexivity.
Qed.

Lemma run_stories env config target labelsByName epics0 epics h po stories :
  StoriesBuilt env config target labelsByName epics0 epics h po stories ->
  run env config
  = for_of (JS.sort_by Story.priority stories) (createStory env target) tt h.
Proof.
  intros [Hec Hp Hs]. rewrite (run_afterEpics _ _ _ _ _ _ _ Hec).
  unfold afterEpics.
  erewrite bind_ok by (unfold lift; rewrite Hp; reflexivity).
  erewrite bind_ok by (unfold lift; rewrite Hs; reflexivity).
  reflexivity.
Qed.

(** *** The calls of each kind in a history *)

Lemma storyIssues_app h1 h2 :
  storyIssues (h1 ++ h2) = storyIssues h1 ++ storyIssues h2.
Proof. apply List.filter_app. Qed.

Lemma epicIssues_app h1 h2 :
  epicIssues (h1 ++ h2) = epicIssues h1 ++ epicIssues h2.
Proof. apply List.filter_app. Qed.

Lemma labelNames_app h1 h2 :
  labelNames (h1 ++ h2) = labelNames h1 ++ labelNames h2.
Proof. apply omap_app. Qed.

Lemma storyIssues_labelCalls rid names : storyIssues (labelCalls rid names) = [].
Proof. by induction names. Qed.

Lemma epicIssues_labelCalls rid names : epicIssues (labelCalls rid names) = [].
Proof. by induction names. Qed.

Lemma labelNames_labelCalls rid names : labelNames (labelCalls rid names) = names.
Proof. induction names as [| n l IH]; [done |]. simpl. by rewrite IH. Qed.

Lemma storyIssues_epicCalls target lbn es :
  storyIssues (epicCalls target lbn es) = [].
Proof. by induction es. Qed.

Lemma epicIssues_epicCalls target lbn es :
  epicIssues (epicCalls target lbn es) = epicCalls target lbn es.
Proof. induction es as [| e l IH]; [done |]. simpl. by rewrite IH. Qed.

Lemma labelNames_epicCalls target lbn es :
  labelNames (epicCalls target lbn es) = [].
Proof. by induction es. Qed.

Lemma storyIssues_storyCalls target ss :
  storyIssues (storyCalls target ss) = storyCalls target ss.
Proof. induction ss as [| e l IH]; [done |]. simpl. by rewrite IH. Qed.

Lemma epicIssues_storyCalls target ss : epicIssues (storyCalls target ss) = [].
Proof. by induction ss. Qed.

Lemma labelNames_storyCalls target ss : labelNames (storyCalls target ss) = [].
Proof. by induction ss. Qed.

Lemma storyIssues_callsOfEpics config target lbn epics0 :
  storyIssues (callsOfEpics config target lbn epics0) = [].
Proof.
  unfold callsOfEpics.
  by rewrite !storyIssues_app, storyIssues_labelCalls, storyIssues_epicCalls.
Qed.

Lemma epicIssues_callsOfEpics config target lbn epics0 :
  epicIssues (callsOfEpics config target lbn epics0)
  = epicCalls target lbn (JS.values epics0).
Proof.
  unfold callsOfEpics.
  by rewrite !epicIssues_app, epicIssues_labelCalls, epicIssues_epicCalls.
Qed.

Lemma labelNames_callsOfEpics config target lbn epics0 :
  labelNames (callsOfEpics config target lbn epics0) = labels epics0.
Proof.
  unfold callsOfEpics.
  rewrite !labelNames_app, labelNames_labelCalls, labelNames_epicCalls.
  simpl. by rewrite app_nil_r.
Qed.

(** *** [try_map] and [try_fold] *)

Lemma try_map_ok {A B} (f : A -> error + B) l ys :
  try_map f l = inr ys -> Forall2 (fun x y => f x = inr y) l ys.
Proof.
  revert ys. induction l as [| x l IH]; intros ys H; simpl in H.
  - by simplify_eq.
  - destruct (f x) as [| y] eqn:E; [done |].
    destruct (try_map f l) as [| ys']; [done |]. simplify_eq.
    constructor; [done | by apply IH].
Qed.

Lemma try_map_first_error {A B} (f : A -> error + B) l1 x l2 e :
  (forall y, y ∈ l1 -> exists z, f y = inr z) ->
  f x = inl e ->
  try_map f (l1 ++ x :: l2) = inl e.
Proof.
  intros Hl1 Hx. induction l1 as [| y l1 IH]; simpl.
  - by rewrite Hx.
  - destruct (Hl1 y) as [z ->]; [by left |].
    rewrite IH; [done |]. intros y' Hy'. apply Hl1. by right.
Qed.

(* ================================================================== *)
(** ** Arrays: [indexOf], [Set], [sort] *)

Lemma indexOf_range l x : -1 <= JS.indexOf l x < Z.of_nat (length l).
Proof.
  induction l as [| y l IH]; simpl; [lia |].
  destruct (String.eqb y x); [lia |].
  destruct (JS.indexOf l x =? -1) eqn:E; lia.
Qed.

Lemma indexOf_miss l x : JS.indexOf l x = -1 <-> x ∉ l.
Proof.
  induction l as [| y l IH]; simpl.
  - split; [intros _; apply not_elem_of_nil | done].
  - destruct (String.eqb_spec y x) as [-> | Hne].
    + split; [done | intros Hx; destruct Hx; by left].
    + rewrite not_elem_of_cons.
      pose proof (indexOf_range l x) as Hr.
      destruct (JS.indexOf l x =? -1) eqn:E.
      * apply Z.eqb_eq in E. split; [| done].
        intros _. split; [congruence | by apply IH].
      * apply Z.eqb_neq in E. split; [lia |].
        intros [_ Hx]. apply IH in Hx. lia.
Qed.

(** [indexOf] finds the first place where the value is. *)
Lemma indexOf_lookup l x :
  JS.indexOf l x <> -1 ->
  l !! Z.to_nat (JS.indexOf l x) = Some x
  /\ forall j, (j < Z.to_nat (JS.indexOf l x))%nat -> l !! j <> Some x.
Proof.
  induction l as [| y l IH]; simpl; [done |].
  destruct (String.eqb_spec y x) as [-> | Hne].
  - intros _. split; [done | intros j Hj; simpl in Hj; lia].
  - pose proof (indexOf_range l x).
    destruct (JS.indexOf l x =? -1) eqn:E; [done |].
    apply Z.eqb_neq in E. intros _. destruct (IH E) as [H1 H2].
    replace (Z.to_nat (JS.indexOf l x + 1)) with (S (Z.to_nat (JS.indexOf l x)))
      by lia.
    split; [done |].
    intros [| j] Hj; simpl; [congruence |]. apply H2. lia.
Qed.

Lemma indexOf_inj l x y :
  JS.indexOf l x <> -1 -> JS.indexOf l x = JS.indexOf l y -> x = y.
Proof.
  intros Hx Hxy.
  destruct (indexOf_lookup l x Hx) as [H1 _].
  destruct (indexOf_lookup l y) as [H2 _]; [congruence |].
  rewrite Hxy in H1. congruence.
Qed.

Section SetValues.
Context {A : Type} `{EqDecision A}.

Lemma Set_values_elem (l : list A) : forall seen x,
  x ∈ JS.Set_values seen l <-> x ∈ l /\ x ∉ seen.
Proof.
  induction l as [| y l IH]; intros seen x; simpl.
  - split; [by intros ?%elem_of_nil | by intros [?%elem_of_nil _]].
  - destruct (decide (y ∈ seen)) as [Hy | Hy].
    + rewrite IH, elem_of_cons. split; [tauto |].
      intros [[-> | H] Hs]; [done | tauto].
    + rewrite !elem_of_cons, IH, not_elem_of_cons.
      destruct (decide (x = y)) as [-> | Hne]; [tauto |]. tauto.
Qed.

Lemma Set_values_NoDup (l : list A) : forall seen,
  NoDup (JS.Set_values seen l).
Proof.
  induction l as [| y l IH]; intros seen; simpl; [constructor |].
  destruct (decide (y ∈ seen)); [apply IH |].
  constructor; [| apply IH].
  rewrite Set_values_elem, not_elem_of_cons. tauto.
Qed.

End SetValues.

Lemma filter_none {A} (f : A -> bool) l :
  Forall (fun x => f x = false) l -> List.filter f l = [].
Proof. induction 1 as [| x l Hx _ IH]; simpl; [done |]. by rewrite Hx. Qed.

Section Sort.
Context {A : Type} (key : A -> Z).

Local Abbreviation ascending := (ascending key).
Local Abbreviation strictlyAscending := (strictlyAscending key).

Lemma insert_by_perm x l : Permutation (x :: l) (JS.insert_by key x l).
Proof.
  induction l as [| y l IH]; simpl; [done |].
  destruct (key y <=? key x); [| done].
  rewrite perm_swap. by constructor.
Qed.

Lemma insert_by_ascending x l :
  ascending l -> ascending (JS.insert_by key x l).
Proof.
  unfold ascending. induction 1 as [| y l Hs IH Hy]; simpl.
  - repeat constructor.
  - destruct (key y <=? key x) eqn:E.
    + constructor; [done |].
      rewrite <- insert_by_perm. constructor; [lia | done].
    + apply Z.leb_gt in E. constructor; [by constructor |].
      constructor; [lia |].
      eapply Forall_impl; [exact Hy |]. simpl. intros; lia.
Qed.

Lemma fold_insert_perm l : forall acc,
  Permutation (acc ++ l)
    (fold_left (fun acc x => JS.insert_by key x acc) l acc).
Proof.
  induction l as [| x l IH]; intros acc; simpl.
  - by rewrite app_nil_r.
  - rewrite <- IH, <- insert_by_perm. simpl.
    symmetry. apply Permutation_middle.
Qed.

Lemma fold_insert_ascending l : forall acc,
  ascending acc ->
  ascending (fold_left (fun acc x => JS.insert_by key x acc) l acc).
Proof.
  induction l as [| x l IH]; intros acc Hacc; simpl; [done |].
  apply IH. by apply insert_by_ascending.
Qed.

Lemma sort_by_perm l : Permutation l (JS.sort_by key l).
Proof. apply (fold_insert_perm l []). Qed.

Lemma sort_by_ascending l : ascending (JS.sort_by key l).
Proof. apply fold_insert_ascending. constructor. Qed.

(** Without ties the order is strict. *)
Lemma ascending_strict l :
  ascending l -> NoDup (map key l) -> strictlyAscending l.
Proof.
  unfold ascending, strictlyAscending.
  induction 1 as [| y l Hs IH Hy]; simpl; intros Hnd; [constructor |].
  apply NoDup_cons in Hnd as [Hy' Hnd].
  constructor; [by apply IH |].
  rewrite Forall_forall in Hy |- *. intros z Hz.
  assert (key y <> key z).
  { intros E. apply Hy'. rewrite E. by apply (list_elem_of_fmap_2 key). }
  specialize (Hy z Hz). simpl in Hy. lia.
Qed.

Lemma sort_by_strict l :
  NoDup (map key l) -> strictlyAscending (JS.sort_by key l).
Proof.
  intros Hnd. apply ascending_strict; [apply sort_by_ascending |].
  eapply NoDup_Permutation_proper; [| exact Hnd].
  apply Permutation_map, Permutation_sym, sort_by_perm.
Qed.

(** The sort is stable: the records of one rank keep their order. *)
Lemma insert_by_rank k x l :
  ascending l ->
  List.filter (fun y => key y =? k) (JS.insert_by key x l)
  = List.filter (fun y => key y =? k) l
    ++ (if key x =? k then [x] else []).
Proof.
  unfold ascending. induction 1 as [| y l Hs IH Hy]; simpl; [done |].
  destruct (key y <=? key x) eqn:E; simpl.
  - rewrite IH. by destruct (key y =? k).
  - apply Z.leb_gt in E.
    destruct (key x =? k) eqn:Ex; simpl; [| by rewrite app_nil_r].
    apply Z.eqb_eq in Ex.
    assert (List.filter (fun y => key y =? k) l = []) as ->.
    { apply filter_none. eapply Forall_impl; [exact Hy |].
      simpl. intros z Hz. apply Z.eqb_neq. lia. }
    destruct (key y =? k) eqn:Ey; [apply Z.eqb_eq in Ey; lia | done].
Qed.

Lemma fold_insert_rank k l : forall acc,
  ascending acc ->
  List.filter (fun y => key y =? k)
    (fold_left (fun acc x => JS.insert_by key x acc) l acc)
  = List.filter (fun y => key y =? k) acc ++ List.filter (fun y => key y =? k) l.
Proof.
  induction l as [| x l IH]; intros acc Hacc; simpl.
  - by rewrite app_nil_r.
  - rewrite IH by (by apply insert_by_ascending).
    rewrite insert_by_rank by done. rewrite <- app_assoc.
    by destruct (key x =? k).
Qed.

Lemma sort_by_stable k l :
  List.filter (fun y => key y =? k) (JS.sort_by key l)
  = List.filter (fun y => key y =? k) l.
Proof. apply (fold_insert_rank k l []). constructor. Qed.

End Sort.

(* ================================================================== *)
(** ** Objects *)

Section Objects.
Context {V : Type}.
Implicit Types (o : JS.object V) (k : string) (v : V).

Lemma own_set o k v k' :
  JS.own k' (JS.set k v o) = if String.eqb k k' then Some v else JS.own k' o.
Proof.
  induction o as [| [k0 v0] o IH]; simpl.
  - by destruct (String.eqb k k').
  - destruct (String.eqb_spec k0 k) as [-> | Hne]; simpl.
    + by destruct (String.eqb k k').
    + rewrite IH. destruct (String.eqb_spec k0 k') as [-> | Hne']; [| done].
      destruct (String.eqb_spec k k'); [congruence | done].
Qed.

Lemma own_set_eq o k v : JS.own k (JS.set k v o) = Some v.
Proof. by rewrite own_set, String.eqb_refl. Qed.

Lemma own_set_ne o k v k' : k <> k' -> JS.own k' (JS.set k v o) = JS.own k' o.
Proof. intros H. rewrite own_set. by destruct (String.eqb_spec k k'). Qed.

Lemma own_None o k : JS.own k o = None <-> k ∉ map fst o.
Proof.
  induction o as [| [k0 v0] o IH]; simpl.
  - split; [intros _; apply not_elem_of_nil | done].
  - rewrite not_elem_of_cons.
    destruct (String.eqb_spec k0 k) as [-> | Hne]; [split; [done | tauto] |].
    rewrite IH. split; [intros; split; congruence | tauto].
Qed.

Lemma own_Some_elem o k v : JS.own k o = Some v -> (k, v) ∈ o.
Proof.
  induction o as [| [k0 v0] o IH]; simpl; [done |].
  destruct (String.eqb_spec k0 k) as [-> | Hne].
  - intros [= ->]. by left.
  - intros H. right. by apply IH.
Qed.

Lemma elem_own o k v : NoDup (map fst o) -> (k, v) ∈ o -> JS.own k o = Some v.
Proof.
  induction o as [| [k0 v0] o IH]; simpl; intros Hnd Hin.
  - by apply elem_of_nil in Hin.
  - apply NoDup_cons in Hnd as [Hk0 Hnd].
    apply elem_of_cons in Hin as [[= -> ->] | Hin].
    + by rewrite String.eqb_refl.
    + destruct (String.eqb_spec k0 k) as [-> | Hne]; [| by apply IH].
      destruct Hk0. by apply (list_elem_of_fmap_2 fst _ (k, v)).
Qed.

Lemma keys_set o k v :
  map fst (JS.set k v o)
  = match JS.own k o with
    | Some _ => map fst o
    | None => map fst o ++ [k]
    end.
Proof.
  induction o as [| [k0 v0] o IH]; simpl; [done |].
  destruct (String.eqb_spec k0 k) as [-> | Hne]; simpl; [done |].
  rewrite IH. by destruct (JS.own k o).
Qed.

Lemma keys_set_NoDup o k v :
  NoDup (map fst o) -> NoDup (map fst (JS.set k v o)).
Proof.
  intros Hnd. rewrite keys_set. destruct (JS.own k o) eqn:E; [done |].
  apply NoDup_app. split_and!; [done | | apply NoDup_singleton].
  intros x Hx ->%list_elem_of_singleton. by apply own_None in E.
Qed.

Lemma filter_partition {A} (f : A -> bool) (l : list A) :
  Permutation (List.filter f l ++ List.filter (fun x => negb (f x)) l) l.
Proof.
  induction l as [| x l IH]; simpl; [done |].
  destruct (f x); simpl.
  - by constructor.
  - rewrite <- Permutation_middle. by constructor.
Qed.

(** The enumeration lists every own property once. *)
Lemma entries_perm o : Permutation (JS.entries o) o.
Proof.
  unfold JS.entries. rewrite <- sort_by_perm.
  apply (filter_partition (fun kv => JS.is_array_index (fst kv))).
Qed.

Lemma entries_keys_NoDup o :
  NoDup (map fst o) -> NoDup (map fst (JS.entries o)).
Proof.
  intros H. eapply NoDup_Permutation_proper; [| exact H].
  apply Permutation_map, entries_perm.
Qed.

Lemma values_perm o : Permutation (JS.values o) (map snd o).
Proof. apply Permutation_map, entries_perm. Qed.

Lemma get_Undefined o k : JS.get k o = JS.Undefined -> JS.own k o = None.
Proof. unfold JS.get. by destruct (JS.own k o). Qed.

End Objects.

(* ================================================================== *)
(** ** File names *)

Lemma is_digit_dash c : JS.is_digit c = true -> Ascii.eqb c "-" = false.
Proof.
  intros H. destruct (Ascii.eqb_spec c "-") as [-> | ]; [| done].
  by vm_compute in H.
Qed.

Lemma digit_run_prefix d rest :
  JS.all_digits d = true ->
  JS.digit_run (d +:+ String "-" rest) = (d, String "-" rest).
Proof.
  induction d as [| c d IH]; simpl; [done |].
  intros [Hc Hd]%andb_prop. by rewrite Hc, IH.
Qed.

Lemma split_prefix d rest :
  JS.all_digits d = true ->
  JS.split "-" (d +:+ String "-" rest) = d :: JS.split "-" rest.
Proof.
  induction d as [| c d IH]; simpl; [done |].
  intros [Hc Hd]%andb_prop. by rewrite (is_digit_dash _ Hc), IH.
Qed.

Lemma split_nonempty sep s : JS.split sep s <> [].
Proof.
  destruct s as [| c s]; simpl; [done |].
  destruct (Ascii.eqb c sep); [done |]. by destruct (JS.split sep s).
Qed.

(** *** Reading the epic files *)

Lemma try_fold_app {A S} (f : A -> S -> error + S) l1 l2 s :
  try_fold f (l1 ++ l2) s
  = match try_fold f l1 s with
    | inl e => inl e
    | inr s' => try_fold f l2 s'
    end.
Proof.
  revert s. induction l1 as [| x l1 IH]; intros s; simpl; [done |].
  by destruct (f x s).
Qed.

Section ReadEpics.
Variable env : Env.
Variable dir : string.

Lemma readEpics_keys files : forall o o',
  try_fold (readEpic env dir) files o = inr o' ->
  NoDup (map fst o) -> NoDup (map fst o').
Proof.
  induction files as [| f files IH]; intros o o' H Hnd; simpl in H.
  - by simplify_eq.
  - unfold readEpic in H at 1.
    destruct (getMDStory env _) as [| md]; [done |]. simpl in H.
    eapply IH; [exact H |]. by apply keys_set_NoDup.
Qed.

Lemma readEpics_other files k : forall o o',
  try_fold (readEpic env dir) files o = inr o' ->
  (forall f, f ∈ files -> epicNumber f <> k) ->
  JS.own k o' = JS.own k o.
Proof.
  induction files as [| f files IH]; intros o o' H Hk; simpl in H.
  - by simplify_eq.
  - unfold readEpic in H at 1.
    destruct (getMDStory env _) as [| md]; [done |]. simpl in H.
    rewrite (IH _ _ H) by (intros; apply Hk; by right).
    apply own_set_ne, Hk. by left.
Qed.

(** The record kept under a number is the one of the last file that has
    this number. *)
Lemma readEpics_last files1 f files2 o o' :
  try_fold (readEpic env dir) (files1 ++ f :: files2) o = inr o' ->
  (forall f', f' ∈ files2 -> epicNumber f' <> epicNumber f) ->
  exists md,
    getMDStory env (readFileSync env (join dir f)) = inr md
    /\ JS.own (epicNumber f) o' = Some (epicOfFile md).
Proof.
  rewrite try_fold_app.
  destruct (try_fold (readEpic env dir) files1 o) as [| o1]; [done |].
  simpl. unfold readEpic at 1.
  destruct (getMDStory env _) as [| md]; [done |]. simpl.
  intros H Hk. exists md. split; [done |].
  rewrite (readEpics_other _ _ _ _ H Hk). apply own_set_eq.
Qed.

End ReadEpics.

(** *** The state of the epic loop *)

Section EpicLoop.
Variable env : Env.
Variable target : Target.
Variable labelsByName : gmap (option string) string.

Lemma epicLoop_other k es : forall epics h h' epics',
  for_of es (createEpic env target labelsByName) epics h = (h', inr epics') ->
  k ∉ map fst es ->
  JS.own k epics' = JS.own k epics.
Proof.
  destruct (labelsByName !! Some "Epic") as [[| c s] |] eqn:E.
  1, 3: intros epics h h' epics' H _;
    rewrite for_of_throw with (e := epicLabelNotFound) in H
      by (intros; apply createEpic_throw; by rewrite E);
    destruct es; by simplify_eq.
  rewrite (createEpic_step _ _ _ _ _ E).
  induction es as [| kv es IH]; intros epics h h' epics' H Hk; simpl in H.
  - unfold ret in H. by simplify_eq.
  - apply not_elem_of_cons in Hk as [Hk1 Hk2].
    apply bind_inv in H as [(e & _ & ?) | (epics1 & h1 & H1 & H)]; [done |].
    rewrite (IH _ _ _ _ H Hk2).
    unfold step in H1. apply bind_inv in H1 as [(e & _ & ?) | (id & h2 & _ & H1)];
      [done |].
    injection H1 as _ <-. by apply own_set_ne.
Qed.

Lemma epicLoop_at es1 k e es2 epics h h' epics' :
  NoDup (map fst (es1 ++ (k, e) :: es2)) ->
  for_of (es1 ++ (k, e) :: es2) (createEpic env target labelsByName) epics h
  = (h', inr epics') ->
  exists id,
    createIssue env (h ++ epicCalls target labelsByName (map snd es1)) target
      (title (frontmatter (Epic.epic e))) (epicBody (frontmatter (Epic.epic e)))
      (epicLabelId labelsByName) = inr id
    /\ JS.own k epics' = Some (withIssueId e id).
Proof.
  intros Hnd H.
  destruct (labelsByName !! Some "Epic") as [[| c s] |] eqn:E.
  1, 3: rewrite for_of_throw with (e := epicLabelNotFound) in H
      by (intros; apply createEpic_throw; by rewrite E);
    destruct es1; by simplify_eq.
  pose proof H as H'.
  rewrite (createEpic_step _ _ _ _ _ E) in H'.
  apply for_of_step_split in H' as (s1 & id & H1 & H2 & H3).
  rewrite (epicCalls_entries _ _ _ _ _ E) in H2. simpl in H2.
  exists id. rewrite (epicLabelId_truthy _ _ _ E). split; [done |].
  rewrite <- (createEpic_step _ _ _ _ _ E) in H3.
  rewrite (epicLoop_other k _ _ _ _ _ H3); [apply own_set_eq |].
  rewrite map_app in Hnd. apply NoDup_app in Hnd as (_ & _ & Hnd).
  simpl in Hnd. by apply NoDup_cons in Hnd as [? _].
Qed.

End EpicLoop.

Lemma epicsOfFiles_keys env config epics0 :
  epicsOfFiles env config = inr epics0 -> NoDup (map fst epics0).
Proof.
  intros H. eapply readEpics_keys; [exact H |]. constructor.
Qed.

(** The issue id written into each epic record is the one the client
    returned for this record's call. *)
Lemma EpicsCreated_issue env config target labelsByName epics0 epics h
    es1 k e es2 :
  EpicsCreated env config target labelsByName epics0 epics h ->
  JS.entries epics0 = es1 ++ (k, e) :: es2 ->
  exists id,
    createIssue env
      (start config ++ labelCalls (t_repositoryId target) (labels epics0)
       ++ epicCalls target labelsByName (map snd es1)) target
      (title (frontmatter (Epic.epic e))) (epicBody (frontmatter (Epic.epic e)))
      (epicLabelId labelsByName) = inr id
    /\ JS.own k epics = Some (withIssueId e id).
Proof.
  intros [_ _ _ _ Hf (h1 & Hl & He)] Hes.
  assert (h1 = start config ++ labelCalls (t_repositoryId target) (labels epics0))
    as ->.
  { rewrite resolveLabel_step in Hl. by apply for_of_step_ok in Hl. }
  rewrite Hes in He. apply epicLoop_at in He; [by rewrite <- app_assoc in He |].
  rewrite <- Hes. by apply entries_keys_NoDup, (epicsOfFiles_keys env config).
Qed.

Lemma EpicsCreated_keys env config target labelsByName epics0 epics h k :
  EpicsCreated env config target labelsByName epics0 epics h ->
  JS.own k epics = None <-> JS.own k epics0 = None.
Proof.
  intros Hec. destruct (JS.own k epics0) as [e |] eqn:E0.
  - apply own_Some_elem in E0. rewrite <- entries_perm in E0.
    apply list_elem_of_split in E0 as (es1 & es2 & Hes).
    destruct (EpicsCreated_issue _ _ _ _ _ _ _ _ _ _ _ Hec Hes) as (id & _ & ->).
    done.
  - destruct Hec as [_ _ _ _ Hf (h1 & Hl & He)].
    rewrite (epicLoop_other _ _ _ k _ _ _ _ _ He); [done |].
    apply own_None in E0. by rewrite entries_perm.
Qed.

(** Every record of [epics] was read from one of the files. *)
Lemma readEpics_from_file env dir files : forall o o' k e,
  try_fold (readEpic env dir) files o = inr o' ->
  JS.own k o' = Some e ->
  JS.own k o = Some e
  \/ exists file md,
       file ∈ files /\ epicNumber file = k
       /\ getMDStory env (readFileSync env (join dir file)) = inr md
       /\ e = epicOfFile md.
Proof.
  induction files as [| f files IH]; intros o o' k e H Hk; simpl in H.
  - simplify_eq. by left.
  - unfold readEpic in H at 1.
    destruct (getMDStory env _) as [| md] eqn:Emd; [done |]. simpl in H.
    destruct (IH _ _ _ _ H Hk) as [Ho | (file & md' & ? & ? & ? & ?)].
    + rewrite own_set in Ho.
      destruct (String.eqb_spec (epicNumber f) k) as [Hf | _]; [| by left].
      right. exists f, md. simplify_eq. split_and!; try done. by left.
    + right. exists file, md'. split_and!; try done. by right.
Qed.

Lemma values_from_file env config epics0 e :
  epicsOfFiles env config = inr epics0 ->
  e ∈ JS.values epics0 ->
  exists file md,
    file ∈ mdFiles env (epicsDir config)
    /\ getMDStory env (readFileSync env (join (epicsDir config) file)) = inr md
    /\ e = epicOfFile md.
Proof.
  intros Hf He. unfold JS.values in He.
  apply list_elem_of_fmap in He as ([k e'] & -> & He). simpl.
  rewrite entries_perm in He.
  apply elem_own in He; [| by apply (epicsOfFiles_keys env config)].
  destruct (readEpics_from_file _ _ _ _ _ _ _ Hf He)
    as [? | (file & md & ? & _ & ? & ?)]; [done |].
  by exists file, md.
Qed.

(** *** The labels *)

Lemma labels_elem epics0 n :
  n ∈ labels epics0
  <-> n = Some "Epic" \/ exists e, e ∈ JS.values epics0 /\ epicLabel e = n.
Proof.
  unfold labels. rewrite Set_values_elem, elem_of_app, list_elem_of_singleton.
  rewrite (list_elem_of_fmap epicLabel).
  split.
  - intros [[(e & -> & He) | ->] _]; [right; by exists e | by left].
  - intros [-> | (e & He & <-)]; (split; [| apply not_elem_of_nil]).
    + by right.
    + left. by exists e.
Qed.

Lemma labels_NoDup epics0 : NoDup (labels epics0).
Proof. apply Set_values_NoDup. Qed.

Section LabelLoop.
Variable env : Env.
Variable repositoryId : string.

Lemma labelLoop_other (n : option string) (names : list (option string)) :
  forall (m : gmap (option string) string) (h h' : history)
         (m' : gmap (option string) string),
  for_of names (resolveLabel env repositoryId) m h = (h', inr m') ->
  n ∉ names -> m' !! n = m !! n.
Proof.
  rewrite resolveLabel_step.
  induction names as [| x names IH]; intros m h h' m' H Hn; simpl in H.
  - unfold ret in H. by simplify_eq.
  - apply not_elem_of_cons in Hn as [Hn1 Hn2].
    apply bind_inv in H as [(e & _ & ?) | (m1 & h1 & H1 & H)]; [done |].
    rewrite (IH _ _ _ _ H Hn2).
    unfold step in H1.
    apply bind_inv in H1 as [(e & _ & ?) | (id & h2 & _ & H1)]; [done |].
    injection H1 as _ <-. by apply lookup_insert_ne.
Qed.

(** The id kept for a name is the one the client returned for it. *)
Lemma labelLoop_at (names1 : list (option string)) (n : option string)
    (names2 : list (option string)) (m : gmap (option string) string)
    (h h' : history) (m' : gmap (option string) string) :
  NoDup (names1 ++ n :: names2) ->
  for_of (names1 ++ n :: names2) (resolveLabel env repositoryId) m h
  = (h', inr m') ->
  exists id,
    createLabelIfNotExists env (h ++ labelCalls repositoryId names1)
      repositoryId n = inr id
    /\ m' !! n = Some id.
Proof.
  intros Hnd H. pose proof H as H'. rewrite resolveLabel_step in H'.
  apply for_of_step_split in H' as (m1 & id & _ & H2 & H3).
  exists id. split; [done |].
  rewrite <- resolveLabel_step in H3.
  rewrite (labelLoop_other n _ _ _ _ _ H3); [apply lookup_insert_eq |].
  apply NoDup_app in Hnd as (_ & _ & Hnd). by apply NoDup_cons in Hnd as [? _].
Qed.

End LabelLoop.

Lemma EpicsCreated_label env config target labelsByName epics0 epics h
    names1 n names2 :
  EpicsCreated env config target labelsByName epics0 epics h ->
  labels epics0 = names1 ++ n :: names2 ->
  exists id,
    createLabelIfNotExists env
      (start config ++ labelCalls (t_repositoryId target) names1)
      (t_repositoryId target) n = inr id
    /\ labelsByName !! n = Some id.
Proof.
  intros [_ _ _ _ _ (h1 & Hl & _)] Hn. rewrite Hn in Hl.
  apply labelLoop_at in Hl; [done |]. rewrite <- Hn. apply labels_NoDup.
Qed.

Lemma EpicsCreated_label_dom env config target labelsByName epics0 epics h n :
  EpicsCreated env config target labelsByName epics0 epics h ->
  is_Some (labelsByName !! n) <-> n ∈ labels epics0.
Proof.
  intros Hec. split.
  - intros Hn. destruct (decide (n ∈ labels epics0)) as [| Hni]; [done |].
    destruct Hec as [_ _ _ _ _ (h1 & Hl & _)].
    rewrite (labelLoop_other _ _ n _ _ _ _ _ Hl Hni), lookup_empty in Hn.
    by destruct Hn.
  - intros (names1 & names2 & Hn)%list_elem_of_split.
    destruct (EpicsCreated_label _ _ _ _ _ _ _ _ _ _ Hec Hn) as (id & _ & ->).
    by exists id.
Qed.

(** *** The stories *)

Lemma buildStory_inv (env : Env) (dir : string) (po : list string)
    (labelsByName : gmap (option string) string) epics file s :
  buildStory env dir po labelsByName epics file = inr s ->
  exists md,
    getMDStory env (readFileSync env (join dir file)) = inr md
    /\ JS.indexOf po (storyId file) <> -1
    /\ Story.priority s = JS.indexOf po (storyId file) + 1
    /\ storyTitle (frontmatter md) = Some (Story.title s)
    /\ Story.title s <> ""
    /\ Story.frontmatter s = frontmatter md
    /\ Story.description s = description md
    /\ Story.labelId s = labelsByName !! label (frontmatter md)
    /\ match JS.get (storyEpicNumber file) epics with
       | JS.Own e => Story.issueId s = Some (Epic.issueId e)
       | JS.Inherited => Story.issueId s = None
       | JS.Undefined => False
       end.
Proof.
  unfold buildStory.
  destruct (getMDStory env _) as [| md]; [done |]. simpl.
  destruct (JS.indexOf po (storyId file) =? -1) eqn:Ei; [done |].
  apply Z.eqb_neq in Ei.
  destruct (storyTitle (frontmatter md)) as [[| c t] |] eqn:Et; [done | | done].
  destruct (JS.get (storyEpicNumber file) epics) eqn:Eg; [| | done];
    intros [= <-]; exists md; by split_and!.
Qed.

(** The errors a story file can run into, in the order of the checks. *)
Lemma buildStory_error (env : Env) (dir : string) (po : list string)
    (labelsByName : gmap (option string) string) epics file e :
  buildStory env dir po labelsByName epics file = inl e ->
  (exists m, getMDStory env (readFileSync env (join dir file)) = inl m
             /\ e = Thrown m)
  \/ e = notInPriorityOrder file
  \/ e = titleNotSet file
  \/ e = issueIdOfUndefined.
Proof.
  unfold buildStory.
  destruct (getMDStory env _) as [m | md]; simpl.
  { intros [= <-]. left. by exists m. }
  destruct (JS.indexOf po (storyId file) =? -1); [intros [= <-]; tauto |].
  destruct (storyTitle (frontmatter md)) as [[| c t] |];
    [intros [= <-]; tauto | | intros [= <-]; tauto].
  destruct (JS.get (storyEpicNumber file) epics); [done | done |].
  intros [= <-]. tauto.
Qed.

Lemma try_map_error {A B} (f : A -> error + B) l e :
  try_map f l = inl e ->
  exists l1 x l2,
    l = l1 ++ x :: l2 /\ f x = inl e /\ forall y, y ∈ l1 -> exists z, f y = inr z.
Proof.
  induction l as [| x l IH]; simpl; [done |].
  destruct (f x) as [e' | y] eqn:E.
  - intros [= ->]. exists [], x, l. split_and!; [done | done |].
    by intros y ?%elem_of_nil.
  - destruct (try_map f l) as [e' | ys]; [| done].
    intros [= ->]. destruct IH as (l1 & x' & l2 & -> & Hx & Hl1); [done |].
    exists (x :: l1), x', l2. split_and!; [done | done |].
    intros y' [-> | Hy]%elem_of_cons; [by exists y | by apply Hl1].
Qed.

(** What a run that has read its stories does. *)
Lemma StoriesBuilt_run env config target labelsByName epics0 epics h po stories
    t r :
  StoriesBuilt env config target labelsByName epics0 epics h po stories ->
  run env config = (t, r) ->
  exists ss1 ss2,
    JS.sort_by Story.priority stories = ss1 ++ ss2
    /\ t = callsOfEpics config target labelsByName epics0
           ++ storyCalls target ss1
    /\ match r with inr _ => ss2 = [] | inl _ => ss1 <> [] end.
Proof.
  intros Hsb Hrun. rewrite (run_stories _ _ _ _ _ _ _ _ _ Hsb) in Hrun.
  rewrite createStory_step in Hrun.
  apply for_of_step_calls in Hrun as (ss1 & ss2 & Hss & -> & Hr).
  exists ss1, ss2. split_and!; [done | | done].
  by rewrite (EpicsCreated_history _ _ _ _ _ _ _ (sb_epics _ _ _ _ _ _ _ _ _ Hsb)).
Qed.

Lemma try_map_elem {A B} (f : A -> error + B) l ys y :
  try_map f l = inr ys -> y ∈ ys -> exists x, x ∈ l /\ f x = inr y.
Proof.
  intros H%try_map_ok. induction H as [| x y' l ys Hxy _ IH].
  - by intros ?%elem_of_nil.
  - intros [-> | Hy]%elem_of_cons.
    + exists x. split; [by left | done].
    + destruct (IH Hy) as (x' & ? & ?). exists x'. split; [by right | done].
Qed.

(** A run asks for story issues only after all the stories were built,
    and then for those of a beginning of the sorted array. *)
Lemma Run_storyIssues env config t r :
  Run env config t r ->
  (storyIssues t = [] /\ exists e, r = inl e)
  \/ exists target lbn epics0 epics h po stories ss1 ss2,
       StoriesBuilt env config target lbn epics0 epics h po stories
       /\ JS.sort_by Story.priority stories = ss1 ++ ss2
       /\ t = callsOfEpics config target lbn epics0 ++ storyCalls target ss1
       /\ match r with inr _ => ss2 = [] | inl _ => ss1 <> [] end.
Proof.
  intros [h e [-> | ->]
         | target epics0 names1 names2 e Hf Hn
         | target epics0 lbn es1 es2 e Hf Hes
         | target lbn epics0 epics h m Hec Hp
         | target lbn epics0 epics h po e Hec Hp Hs
         | target lbn epics0 epics h po stories ss1 ss2 r' Hsb Hss Hr].
  - left. split; [done | by exists e].
  - left. split; [done | by exists e].
  - left. split; [| by exists e].
    by rewrite storyIssues_app, storyIssues_labelCalls.
  - left. split; [| by exists e].
    by rewrite !storyIssues_app, storyIssues_labelCalls, storyIssues_epicCalls.
  - left. split; [| by eexists].
    by rewrite (EpicsCreated_history _ _ _ _ _ _ _ Hec),
      storyIssues_callsOfEpics.
  - left. split; [| by eexists].
    by rewrite (EpicsCreated_history _ _ _ _ _ _ _ Hec),
      storyIssues_callsOfEpics.
  - right. exists target, lbn, epics0, epics, h, po, stories, ss1, ss2.
    split_and!; [done | done | | done].
    by rewrite (EpicsCreated_history _ _ _ _ _ _ _
                  (sb_epics _ _ _ _ _ _ _ _ _ Hsb)).
Qed.

Lemma storyIssues_run_calls config target lbn epics0 ss :
  storyIssues (callsOfEpics config target lbn epics0 ++ storyCalls target ss)
  = storyCalls target ss.
Proof.
  by rewrite storyIssues_app, storyIssues_callsOfEpics, storyIssues_storyCalls.
Qed.

(** *** Priorities *)

Lemma storiesWithEpic_priority (env : Env) (config : Config) (po : list string)
    (lbn : gmap (option string) string) epics stories :
  storiesWithEpic env config po lbn epics = inr stories ->
  Forall2 (fun file s =>
             Story.priority s = 1 + JS.indexOf po (storyId file)
             /\ 0 <= JS.indexOf po (storyId file))
    (mdFiles env (storiesDir config)) stories.
Proof.
  intros H%try_map_ok. eapply Forall2_impl; [exact H |].
  simpl. intros file s Hb.
  destruct (buildStory_inv _ _ _ _ _ _ _ Hb) as (md & _ & Hi & Hp & _).
  pose proof (indexOf_range po (storyId file)). lia.
Qed.

(** Files with different story ids get different priorities. *)
Lemma priorities_NoDup po files stories :
  Forall2 (fun file s =>
             Story.priority s = 1 + JS.indexOf po (storyId file)
             /\ 0 <= JS.indexOf po (storyId file)) files stories ->
  NoDup (map storyId files) ->
  NoDup (map Story.priority stories).
Proof.
  induction 1 as [| file s files stories [Hp Hi] Hall IH]; simpl; intros Hnd.
  - constructor.
  - apply NoDup_cons in Hnd as [Hfile Hnd].
    constructor; [| by apply IH].
    intros (s' & Hs' & Hin)%(list_elem_of_fmap_1 Story.priority).
    apply Hfile. clear IH Hnd Hfile.
    induction Hall as [| file' s'' files stories [Hp' Hi'] _ IH].
    + by apply elem_of_nil in Hin.
    + apply elem_of_cons in Hin as [-> | Hin]; [| right; by apply IH].
      assert (storyId file = storyId file') as ->; [| by left].
      apply (indexOf_inj po); lia.
Qed.

Lemma buildStory_unlisted (env : Env) (dir : string) (po : list string)
    (lbn : gmap (option string) string) epics file md :
  getMDStory env (readFileSync env (join dir file)) = inr md ->
  storyId file ∉ po ->
  buildStory env dir po lbn epics file = inl (notInPriorityOrder file).
Proof.
  intros Hmd Hid%indexOf_miss. unfold buildStory. rewrite Hmd. simpl.
  by rewrite Hid.
Qed.

(** The stages of a run of a test double, checked by evaluation. *)
Ltac demo_created :=
  split;
  [ reflexivity | reflexivity | reflexivity | reflexivity
  | vm_compute; reflexivity
  | eexists; split; [vm_compute; reflexivity | vm_compute; reflexivity] ].

(** The epic issues asked for in a run are those of records of [epics]. *)
Lemma Run_epicIssues env config t r c :
  Run env config t r ->
  c ∈ epicIssues t ->
  exists target lbn epics0 e,
    epicsOfFiles env config = inr epics0
    /\ e ∈ JS.values epics0
    /\ c = epicCall target (epicLabelId lbn) e.
Proof.
  assert (Hcalls : forall target lbn epics0 es,
            epicsOfFiles env config = inr epics0 ->
            (forall e, e ∈ es -> e ∈ JS.values epics0) ->
            c ∈ epicCalls target lbn es ->
            exists target lbn epics0 e,
              epicsOfFiles env config = inr epics0
              /\ e ∈ JS.values epics0
              /\ c = epicCall target (epicLabelId lbn) e).
  { intros target lbn epics0 es Hf Hes (e & -> & He)%list_elem_of_fmap.
    exists target, lbn, epics0, e. split_and!; [done | by apply Hes | done]. }
  intros [h e [-> | ->]
         | target epics0 names1 names2 e Hf Hn
         | target epics0 lbn es1 es2 e Hf Hes
         | target lbn epics0 epics h m Hec Hp
         | target lbn epics0 epics h po e Hec Hp Hs
         | target lbn epics0 epics h po stories ss1 ss2 r' [Hec _ _] Hss Hr].
  - by intros ?%elem_of_nil.
  - by intros ?%elem_of_nil.
  - rewrite epicIssues_app, epicIssues_labelCalls. by intros ?%elem_of_nil.
  - rewrite !epicIssues_app, epicIssues_labelCalls, epicIssues_epicCalls.
    simpl. apply (Hcalls target lbn epics0); [done |].
    intros e' He'. rewrite Hes, elem_of_app. by left.
  - rewrite (EpicsCreated_history _ _ _ _ _ _ _ Hec), epicIssues_callsOfEpics.
    apply (Hcalls target lbn epics0); [by destruct Hec | done].
  - rewrite (EpicsCreated_history _ _ _ _ _ _ _ Hec), epicIssues_callsOfEpics.
    apply (Hcalls target lbn epics0); [by destruct Hec | done].
  - rewrite (EpicsCreated_history _ _ _ _ _ _ _ Hec), epicIssues_app,
      epicIssues_callsOfEpics, epicIssues_storyCalls, app_nil_r.
    apply (Hcalls target lbn epics0); [by destruct Hec | done].
Qed.

(** *** The checks of a story file, read off the files *)







(* ================================================================== *)
(** ** The labels resolved by a run *)

Lemma labelNames_start config : labelNames (start config) = [].
Proof. reflexivity. Qed.

Lemma epicIssues_start config : epicIssues (start config) = [].
Proof. reflexivity. Qed.

Lemma storyIssues_start config : storyIssues (start config) = [].
Proof. reflexivity. Qed.

(** The label names asked for in a run are a beginning of [labels], and
    all of [labels] once an epic issue is asked for or the run succeeds. *)
Lemma Run_labelNames env config t r :
  Run env config t r ->
  (labelNames t = [] /\ epicIssues t = [] /\ exists e, r = inl e)
  \/ exists epics0 names2,
       epicsOfFiles env config = inr epics0
       /\ labels epics0 = labelNames t ++ names2
       /\ (r = inr tt \/ epicIssues t <> [] -> names2 = []).
Proof.
  intros [h e [-> | ->]
         | target epics0 names1 names2 e Hf Hn
         | target epics0 lbn es1 es2 e Hf Hes
         | target lbn epics0 epics h m Hec Hp
         | target lbn epics0 epics h po e Hec Hp Hs
         | target lbn epics0 epics h po stories ss1 ss2 r' Hsb Hss Hr].
  - left. split_and!; [done | done | by exists e].
  - left. split_and!; [done | done | by exists e].
  - right. exists epics0, names2.
    rewrite labelNames_app, labelNames_labelCalls, epicIssues_app,
      epicIssues_labelCalls. simpl.
    split_and!; [done | done |]. by intros [? | ?].
  - right. exists epics0, [].
    rewrite !labelNames_app, labelNames_labelCalls, labelNames_epicCalls.
    simpl. by rewrite !app_nil_r.
  - right. exists epics0, [].
    rewrite (EpicsCreated_history _ _ _ _ _ _ _ Hec), labelNames_callsOfEpics.
    rewrite app_nil_r. split_and!; [by destruct Hec | done | done].
  - right. exists epics0, [].
    rewrite (EpicsCreated_history _ _ _ _ _ _ _ Hec), labelNames_callsOfEpics.
    rewrite app_nil_r. split_and!; [by destruct Hec | done | done].
  - right. exists epics0, [].
    destruct Hsb as [Hec _ _].
    rewrite (EpicsCreated_history _ _ _ _ _ _ _ Hec), labelNames_app,
      labelNames_callsOfEpics, labelNames_storyCalls, !app_nil_r.
    split_and!; [by destruct Hec | done | done].
Qed.

(** C3. In every run no label name is resolved twice, and every name
    resolved is the label of an epic or "Epic"; in a run that succeeds, or
    that asks for an epic issue, each of these names is resolved, hence
    exactly once, however many epics carry it. *)
Theorem labels_resolved_once env config t r :
  run env config = (t, r) ->
  NoDup (labelNames t)
  /\ forall epics0,
       epicsOfFiles env config = inr epics0 ->
       (forall n, n ∈ labelNames t ->
          n = Some "Epic"
          \/ exists e, e ∈ JS.values epics0 /\ epicLabel e = n)
       /\ (r = inr tt \/ epicIssues t <> [] ->
           forall n,
             n = Some "Epic"
             \/ (exists e, e ∈ JS.values epics0 /\ epicLabel e = n) ->
             n ∈ labelNames t).
Proof.
  intros Hrun. apply run_Run, Run_labelNames in Hrun
    as [(Hl & He & e & ->) | (epics0 & names2 & Hf & Hn & Hall)].
  - rewrite Hl. split; [constructor |].
    intros epics0 _. split; [by intros n ?%elem_of_nil |].
    by intros [? | ?].
  - pose proof (labels_NoDup epics0) as Hnd. rewrite Hn in Hnd.
    split; [by apply NoDup_app in Hnd as [? _] |].
    intros epics0' Hf'. rewrite Hf in Hf'. injection Hf' as <-. split.
    + intros n Hin. apply labels_elem. rewrite Hn, elem_of_app. by left.
    + intros Hr n Hin. apply labels_elem in Hin.
      by rewrite Hn, (Hall Hr), app_nil_r in Hin.
Qed.

Lemma labels_resolved_once_witness :
  run Demo.readme Demo.config = (Demo.readme_calls, inr tt)
  /\ labelNames Demo.readme_calls = [Some "backend"; Some "Epic"]
  /\ NoDup (labelNames Demo.readme_calls)
  /\ Some "backend" ∈ labelNames Demo.readme_calls
  /\ Some "Epic" ∈ labelNames Demo.readme_calls.
Proof.
  assert (Hrun : run Demo.readme Demo.config = (Demo.readme_calls, inr tt))
    by (vm_compute; reflexivity).
  destruct (labels_resolved_once _ _ _ _ Hrun) as [Hnd H].
  destruct (H (Demo.epicsOf Demo.readme) eq_refl) as [_ Hall].
  split_and!; [exact Hrun | reflexivity | exact Hnd | |].
  - apply Hall; [by left |]. right.
    exists (epicOfFile (Demo.md (Some "Epic One") (Some "backend") (Some "user")
                          (Some "perform an action") (Some "achieve a goal")
                          "Epic text")).
    split; [| reflexivity]. vm_compute. apply list_elem_of_here.
  - apply Hall; by left.
Defined.

(* ================================================================== *)
(** ** The label of a story issue *)

(** C1. A story that carries a label which no epic has: the label of its
    epic was resolved to [LA_backend], and the issue of the story is asked
    for with no label id at all. The look-up of line 145 is made on the
    label of the story's own frontmatter and its result is passed on
    unchecked, whereas the epic loop checks the label id it looks up (see
    [epicLabelNotFound]). *)
Theorem story_label_unresolved :
  run Demo.mislabelled Demo.config
  = ([GetProjectInfo "octo" "board"; GetRepositoryId "octo" "board";
      CreateLabelIfNotExists "R_1" (Some "backend");
      CreateLabelIfNotExists "R_1" (Some "Epic");
      CreateIssue Demo.target (Some "Epic One") "" "LA_Epic";
      CreateIssueAddToProject Demo.target (Some "I_4") "Login" "Story text"
        None],
     inr tt)
  /\ exists e,
       JS.own (storyEpicNumber "001-001-login.md")
         (Demo.epicsOf Demo.mislabelled) = Some e
       /\ epicLabel e = Some "backend"
       /\ Demo.labelsOf Demo.mislabelled !! epicLabel e = Some "LA_backend"
       /\ Demo.labelsOf Demo.mislabelled !! Some "frontend" = None.
Proof.
  split; [vm_compute; reflexivity |].
  eexists. split_and!; vm_compute; reflexivity.
Qed.

(** When the label of the story is the label of another epic, the issue
    of the story is asked for with the label id of that other epic. *)
Example cross_label_story :
  run Sample.crossLabelled Demo.config
  = ([GetProjectInfo "octo" "board"; GetRepositoryId "octo" "board";
      CreateLabelIfNotExists "R_1" (Some "backend");
      CreateLabelIfNotExists "R_1" (Some "frontend");
      CreateLabelIfNotExists "R_1" (Some "Epic");
      CreateIssue Demo.target (Some "Epic One") "" "LA_Epic";
      CreateIssue Demo.target (Some "Epic Two") "" "LA_Epic";
      CreateIssueAddToProject Demo.target (Some "I_5") "Login" "Story text"
        (Some "LA_frontend")],
     inr tt)
  /\ exists e,
       JS.own (storyEpicNumber "001-001-login.md")
         (Demo.epicsOf Sample.crossLabelled) = Some e
       /\ Demo.labelsOf Sample.crossLabelled !! epicLabel e = Some "LA_backend".
Proof.
  split; [vm_compute; reflexivity |].
  eexists. split; vm_compute; reflexivity.
Qed.

(* ================================================================== *)
(** ** The order of the story issues *)

(** C4, as amended. In a run that succeeds or asks for a story issue, the
    priority of every story is one more than the place of its story id in
    the manifest, and the story issues are asked for in ascending order of
    priority: they are those of a beginning (all, when the run succeeds) of
    the stories sorted by priority, stories of the same priority staying in
    the order of their files. The order is strict when no two story files
    have the same story id. *)
Theorem stories_in_priority_order env config t r :
  run env config = (t, r) ->
  r = inr tt \/ storyIssues t <> [] ->
  exists target lbn epics0 epics h po stories ss1 ss2,
    StoriesBuilt env config target lbn epics0 epics h po stories
    /\ Forall2 (fun file s =>
                  Story.priority s = 1 + JS.indexOf po (storyId file)
                  /\ 0 <= JS.indexOf po (storyId file))
         (mdFiles env (storiesDir config)) stories
    /\ storyIssues t = storyCalls target ss1
    /\ (r = inr tt -> ss2 = [])
    /\ Permutation stories (ss1 ++ ss2)
    /\ ascending Story.priority (ss1 ++ ss2)
    /\ (forall k,
          List.filter (fun s => Story.priority s =? k) (ss1 ++ ss2)
          = List.filter (fun s => Story.priority s =? k) stories)
    /\ (NoDup (map storyId (mdFiles env (storiesDir config))) ->
        strictlyAscending Story.priority (ss1 ++ ss2)).
Proof.
  intros Hrun Hr. apply run_Run, Run_storyIssues in Hrun
    as [[Hno [e ->]] | (target & lbn & epics0 & epics & h & po & stories & ss1
                        & ss2 & Hsb & Hss & -> & Hr')].
  { by destruct Hr. }
  exists target, lbn, epics0, epics, h, po, stories, ss1, ss2.
  pose proof (storiesWithEpic_priority _ _ _ _ _ _
                (sb_stories _ _ _ _ _ _ _ _ _ Hsb)) as Hprio.
  rewrite <- Hss. split_and!; try done.
  - apply storyIssues_run_calls.
  - by intros ->.
  - apply sort_by_perm.
  - apply sort_by_ascending.
  - intros k. apply sort_by_stable.
  - intros Hnd. apply sort_by_strict. by eapply priorities_NoDup.
Qed.

Lemma stories_in_priority_order_witness :
  run Demo.readme Demo.config = (Demo.readme_calls, inr tt)
  /\ exists ss,
       storyIssues Demo.readme_calls = storyCalls Demo.target ss
       /\ ascending Story.priority ss
       /\ strictlyAscending Story.priority ss.
Proof.
  assert (Hrun : run Demo.readme Demo.config = (Demo.readme_calls, inr tt))
    by (vm_compute; reflexivity).
  split; [exact Hrun |].
  destruct (stories_in_priority_order _ _ _ _ Hrun (or_introl eq_refl))
    as (target & lbn & epics0 & epics & h & po & stories & ss1 & ss2
        & Hsb & _ & Hcalls & Hall & _ & Hasc & _ & Hstrict).
  rewrite (Hall eq_refl), app_nil_r in Hasc, Hstrict.
  exists ss1. split_and!; [| exact Hasc |].
  - rewrite Hcalls. destruct Hsb as [[Hpi Hrid Ho Hrp _ _] _ _].
    destruct target as [rid pi o rp]. simpl in *.
    injection Hpi as <-. injection Hrid as <-. by subst.
  - apply Hstrict. apply (bool_decide_unpack _). vm_compute. exact I.
Defined.

(** The statement of the specification fails here: two story files with
    the story id 001-001 both get the priority 1, and the two issues are
    asked for one after the other, in the order of the files. *)
Lemma stories_in_priority_order_counterexample :
  run Demo.twins Demo.config
  = ([GetProjectInfo "octo" "board"; GetRepositoryId "octo" "board";
      CreateLabelIfNotExists "R_1" (Some "backend");
      CreateLabelIfNotExists "R_1" (Some "Epic");
      CreateIssue Demo.target (Some "Epic One") "" "LA_Epic";
      CreateIssueAddToProject Demo.target (Some "I_4") "Story A" "Text A"
        (Some "LA_backend");
      CreateIssueAddToProject Demo.target (Some "I_4") "Story B" "Text B"
        (Some "LA_backend")],
     inr tt)
  /\ map storyId ["001-001-a.md"; "001-001-b.md"] = ["001-001"; "001-001"]
  /\ storyCalls Demo.target
       (JS.sort_by Story.priority (Demo.storiesOf Demo.twins ["001-001"]))
     = storyIssues (fst (run Demo.twins Demo.config))
  /\ map Story.priority
       (JS.sort_by Story.priority (Demo.storiesOf Demo.twins ["001-001"]))
     = [1; 1]
  /\ ~ strictlyAscending Story.priority
         (JS.sort_by Story.priority (Demo.storiesOf Demo.twins ["001-001"])).
Proof.
  split_and!; try (vm_compute; reflexivity).
  intros H. vm_compute in H. inversion H as [| ? ? _ Hlt]; subst.
  inversion Hlt as [| ? ? Hlt' _]; subst. discriminate Hlt'.
Qed.

(* ================================================================== *)
(** ** A story that the manifest does not list *)

(** C5. When a story file's story id is not in the manifest, the run
    fails and asks for no story issue at all; and when the run gets as far
    as this file (the loops over the labels and the epics ended, the files
    before it passed their checks and the file itself is parsed), it ends
    with the error "Story <file> not found in priority order". *)
Theorem unlisted_story_fatal env config t r po file :
  run env config = (t, r) ->
  JSON_parse env (readFileSync env (priorityFile config)) = inr po ->
  file ∈ mdFiles env (storiesDir config) ->
  storyId file ∉ po ->
  (exists e, r = inl e)
  /\ storyIssues t = []
  /\ forall target lbn epics0 epics h files1 files2 md,
       EpicsCreated env config target lbn epics0 epics h ->
       mdFiles env (storiesDir config) = files1 ++ file :: files2 ->
       (forall f, f ∈ files1 ->
          exists s, buildStory env (storiesDir config) po lbn epics f = inr s) ->
       getMDStory env (readFileSync env (join (storiesDir config) file))
       = inr md ->
       t = h /\ r = inl (notInPriorityOrder file).
Proof.
  intros Hrun Hpo Hfile Hid.
  assert ((exists e, r = inl e) /\ storyIssues t = []) as [He Hno].
  { pose proof Hrun as HR. apply run_Run, Run_storyIssues in HR
      as [[Hno He] | (target & lbn & epics0 & epics & h & po' & stories & ss1
                      & ss2 & [_ Hpo' Hs] & _)]; [done |].
    rewrite Hpo in Hpo'. injection Hpo' as <-.
    apply try_map_ok in Hs.
    apply list_elem_of_lookup in Hfile as [i Hi].
    destruct (Forall2_lookup_l _ _ _ _ _ Hs Hi) as (s & _ & Hb).
    apply buildStory_inv in Hb as (_ & _ & Hidx & _).
    by apply indexOf_miss in Hid. }
  split_and!; [done | done |].
  intros target lbn epics0 epics h files1 files2 md Hec Hfiles Hbefore Hmd.
  assert (storiesWithEpic env config po lbn epics
          = inl (notInPriorityOrder file)) as Hs.
  { unfold storiesWithEpic. rewrite Hfiles.
    apply try_map_first_error; [done |]. by eapply buildStory_unlisted. }
  rewrite (run_invalid _ _ _ _ _ _ _ _ _ Hec Hpo Hs) in Hrun.
  by injection Hrun as <- <-.
Qed.

Lemma unlisted_story_fatal_witness :
  JSON_parse Demo.unlisted (readFileSync Demo.unlisted "priority.json")
  = inr ["001-001"]
  /\ "001-002-b.md" ∈ mdFiles Demo.unlisted "stories"
  /\ (storyId "001-002-b.md" ∉ ["001-001"])
  /\ run Demo.unlisted Demo.config
     = ([GetProjectInfo "octo" "board"; GetRepositoryId "octo" "board";
         CreateLabelIfNotExists "R_1" (Some "backend");
         CreateLabelIfNotExists "R_1" (Some "Epic");
         CreateIssue Demo.target (Some "Epic One") "" "LA_Epic"],
        inl (Error "Story 001-002-b.md not found in priority order"))
  /\ storyIssues
       [GetProjectInfo "octo" "board"; GetRepositoryId "octo" "board";
        CreateLabelIfNotExists "R_1" (Some "backend");
        CreateLabelIfNotExists "R_1" (Some "Epic");
        CreateIssue Demo.target (Some "Epic One") "" "LA_Epic"] = []
  /\ inl (Error "Story 001-002-b.md not found in priority order")
     = (inl (notInPriorityOrder "001-002-b.md") : error + unit).
Proof.
  assert (Hrun :
    run Demo.unlisted Demo.config
    = ([GetProjectInfo "octo" "board"; GetRepositoryId "octo" "board";
        CreateLabelIfNotExists "R_1" (Some "backend");
        CreateLabelIfNotExists "R_1" (Some "Epic");
        CreateIssue Demo.target (Some "Epic One") "" "LA_Epic"],
       inl (Error "Story 001-002-b.md not found in priority order")))
    by (vm_compute; reflexivity).
  assert (Hfile : "001-002-b.md" ∈ mdFiles Demo.unlisted "stories")
    by (vm_compute; apply list_elem_of_further, list_elem_of_here).
  assert (Hid : storyId "001-002-b.md" ∉ ["001-001"])
    by (apply (bool_decide_unpack _); vm_compute; exact I).
  destruct (unlisted_story_fatal Demo.unlisted Demo.config _ _ ["001-001"]
              "001-002-b.md" Hrun eq_refl Hfile Hid) as (_ & Hno & Hlast).
  split_and!; [reflexivity | exact Hfile | exact Hid | exact Hrun | exact Hno |].
  assert (Hec : EpicsCreated Demo.unlisted Demo.config Demo.target
                  (Demo.labelsOf Demo.unlisted) (Demo.epicsOf Demo.unlisted)
                  (Demo.epicsAfter Demo.unlisted)
                  (callsOfEpics Demo.config Demo.target
                     (Demo.labelsOf Demo.unlisted) (Demo.epicsOf Demo.unlisted)))
    by demo_created.
  destruct (Hlast _ _ _ _ _ ["001-001-a.md"] []
              (Demo.md (Some "Story B") (Some "backend") None None None "Text B")
              Hec eq_refl) as [_ Hr].
  - intros f ->%list_elem_of_singleton. eexists. vm_compute. reflexivity.
  - vm_compute. reflexivity.
  - exact Hr.
Defined.

(* ================================================================== *)
(** ** The stories are checked between the epics and the story issues *)



(* ================================================================== *)
(** ** Epic files with the same number *)

(** C10. Once the epic loop has ended: for the last of the epic files
    that have a given number, [epics] holds the record read from this file
    under the number, the enumeration of [epics] has this one entry for the
    number, so that one epic issue is asked for, with the title and the
    body of this file; and every story whose first segment is the number
    gets as its parent the issue id that the client returned for this
    call. *)
Theorem last_epic_file_wins env config target lbn epics0 epics h
    files1 f files2 :
  EpicsCreated env config target lbn epics0 epics h ->
  mdFiles env (epicsDir config) = files1 ++ f :: files2 ->
  (forall f', f' ∈ files2 -> epicNumber f' <> epicNumber f) ->
  exists md es1 es2 id,
    getMDStory env (readFileSync env (join (epicsDir config) f)) = inr md
    /\ JS.own (epicNumber f) epics0 = Some (epicOfFile md)
    /\ JS.entries epics0 = es1 ++ (epicNumber f, epicOfFile md) :: es2
    /\ (epicNumber f ∉ map fst (es1 ++ es2))
    /\ h = start config ++ labelCalls (t_repositoryId target) (labels epics0)
           ++ epicCalls target lbn (map snd es1)
           ++ CreateIssue target (title (frontmatter md))
                (epicBody (frontmatter md)) (epicLabelId lbn)
              :: epicCalls target lbn (map snd es2)
    /\ createIssue env
         (start config ++ labelCalls (t_repositoryId target) (labels epics0)
          ++ epicCalls target lbn (map snd es1)) target
         (title (frontmatter md)) (epicBody (frontmatter md))
         (epicLabelId lbn) = inr id
    /\ JS.own (epicNumber f) epics = Some (withIssueId (epicOfFile md) id)
    /\ forall po file s,
         storyEpicNumber file = epicNumber f ->
         buildStory env (storiesDir config) po lbn epics file = inr s ->
         storyCall target s
         = CreateIssueAddToProject target (Some id) (Story.title s)
             (storyBody s) (Story.labelId s).
Proof.
  intros Hec Hfiles Hlast.
  pose proof (ec_files _ _ _ _ _ _ _ Hec) as Hf.
  pose proof Hf as Hf'. unfold epicsOfFiles in Hf'. rewrite Hfiles in Hf'.
  destruct (readEpics_last _ _ _ _ _ _ _ Hf' Hlast) as (md & Hmd & Hown).
  pose proof (own_Some_elem _ _ _ Hown) as Hin.
  rewrite <- entries_perm in Hin.
  apply list_elem_of_split in Hin as (es1 & es2 & Hes).
  destruct (EpicsCreated_issue _ _ _ _ _ _ _ _ _ _ _ Hec Hes)
    as (id & Hid & Hown').
  exists md, es1, es2, id. split_and!; try done.
  - pose proof (entries_keys_NoDup _ (epicsOfFiles_keys _ _ _ Hf)) as Hnd.
    rewrite Hes, map_app in Hnd. simpl in Hnd. rewrite map_app.
    apply NoDup_app in Hnd as (_ & Hd & Hnd).
    apply NoDup_cons in Hnd as [Hk _].
    intros [Hk1 | Hk2]%elem_of_app; [| done].
    apply (Hd _ Hk1). by left.
  - rewrite (EpicsCreated_history _ _ _ _ _ _ _ Hec).
    unfold callsOfEpics, JS.values, epicCalls. rewrite Hes.
    by rewrite !map_app.
  - intros po file s Hnum Hb.
    apply buildStory_inv in Hb as (_ & _ & _ & _ & _ & _ & _ & _ & _ & Hget).
    unfold JS.get in Hget. rewrite Hnum, Hown' in Hget.
    unfold storyCall. by rewrite Hget.
Qed.

Lemma last_epic_file_wins_witness :
  mdFiles Demo.duplicates "epics" = ["001-old.md"; "002-other.md"] ++ ["001-new.md"]
  /\ epicNumber "001-old.md" = epicNumber "001-new.md"
  /\ run Demo.duplicates Demo.config
     = ([GetProjectInfo "octo" "board"; GetRepositoryId "octo" "board";
         CreateLabelIfNotExists "R_1" (Some "frontend");
         CreateLabelIfNotExists "R_1" (Some "backend");
         CreateLabelIfNotExists "R_1" (Some "Epic");
         CreateIssue Demo.target (Some "New") "" "LA_Epic";
         CreateIssue Demo.target (Some "Other") "" "LA_Epic";
         CreateIssueAddToProject Demo.target (Some "I_5") "Story A" "Text A"
           (Some "LA_frontend")],
        inr tt)
  /\ exists md id,
       getMDStory Demo.duplicates
         (readFileSync Demo.duplicates (join "epics" "001-new.md")) = inr md
       /\ JS.own "001" (Demo.epicsOf Demo.duplicates) = Some (epicOfFile md)
       /\ JS.own "001" (Demo.epicsAfter Demo.duplicates)
          = Some (withIssueId (epicOfFile md) id)
       /\ forall po s,
            buildStory Demo.duplicates "stories" po
              (Demo.labelsOf Demo.duplicates) (Demo.epicsAfter Demo.duplicates)
              "001-001-a.md" = inr s ->
            storyCall Demo.target s
            = CreateIssueAddToProject Demo.target (Some id) (Story.title s)
                (storyBody s) (Story.labelId s).
Proof.
  assert (Hec : EpicsCreated Demo.duplicates Demo.config Demo.target
                  (Demo.labelsOf Demo.duplicates) (Demo.epicsOf Demo.duplicates)
                  (Demo.epicsAfter Demo.duplicates)
                  (callsOfEpics Demo.config Demo.target
                     (Demo.labelsOf Demo.duplicates)
                     (Demo.epicsOf Demo.duplicates)))
    by demo_created.
  destruct (last_epic_file_wins _ _ _ _ _ _ _
              ["001-old.md"; "002-other.md"] "001-new.md" [] Hec eq_refl)
    as (md & es1 & es2 & id & Hmd & Hown & _ & _ & _ & _ & Hown' & Hstories).
  { by intros f' ?%elem_of_nil. }
  split_and!; [reflexivity | reflexivity | vm_compute; reflexivity |].
  exists md, id. split_and!; [exact Hmd | exact Hown | exact Hown' |].
  intros po s. by apply Hstories.
Defined.

(* ================================================================== *)
(** ** The number in a file name *)

(** C7. An epic file whose name does not begin with a number: the match
    of line 58, which the code asserts not to be null, is null; no error
    is raised, the epic is stored under the key "undefined", its issue is
    asked for and the run succeeds. *)
Theorem unnumbered_epic_is_created :
  JS.match_digits_dash "notes.md" = None
  /\ fst (JS.digit_run "notes.md") = ""
  /\ map fst (Demo.epicsOf Demo.unnumbered) = ["undefined"]
  /\ run Demo.unnumbered Demo.config
     = ([GetProjectInfo "octo" "board"; GetRepositoryId "octo" "board";
         CreateLabelIfNotExists "R_1" (Some "backend");
         CreateLabelIfNotExists "R_1" (Some "Epic");
         CreateIssue Demo.target (Some "Notes") "" "LA_Epic"],
        inr tt).
Proof. split_and!; vm_compute; reflexivity. Qed.

(** Two such files are stored under the same key: the second replaces
    the first, and one issue is asked for. *)
Example unnumbered_epics_collapse :
  mdFiles Sample.unnumberedTwo "epics" = ["notes.md"; "todo.md"]
  /\ map fst (Demo.epicsOf Sample.unnumberedTwo) = ["undefined"]
  /\ run Sample.unnumberedTwo Demo.config
     = ([GetProjectInfo "octo" "board"; GetRepositoryId "octo" "board";
         CreateLabelIfNotExists "R_1" (Some "backend");
         CreateLabelIfNotExists "R_1" (Some "Epic");
         CreateIssue Demo.target (Some "Todo") "" "LA_Epic"],
        inr tt).
Proof. split_and!; vm_compute; reflexivity. Qed.

(** A story file whose name has no "-" gets the story id made of its
    whole name and of "undefined"; when the manifest lists this id, the run
    ends with the runtime's error of the look-up of the epic. *)
Example unnumbered_story :
  storyId "solo.md" = "solo.md-undefined"
  /\ run Sample.solo Demo.config
     = ([GetProjectInfo "octo" "board"; GetRepositoryId "octo" "board";
         CreateLabelIfNotExists "R_1" (Some "backend");
         CreateLabelIfNotExists "R_1" (Some "Epic");
         CreateIssue Demo.target (Some "Epic One") "" "LA_Epic"],
        inl issueIdOfUndefined).
Proof. split; vm_compute; reflexivity. Qed.

(* ================================================================== *)
(** ** The issue of an epic *)

(** C8, as amended. Every epic issue a run asks for is the one of an epic
    file: its title is the [title] of the frontmatter and its body is made
    of the frontmatter alone. The body is the sentence "As a <role>, I want
    to <action> so that <benefit>." whenever [role] is present and not
    empty, an absent [action] or [benefit] being printed as "undefined",
    and it is empty otherwise. *)
Theorem epic_issue_body env config t r c :
  run env config = (t, r) ->
  c ∈ epicIssues t ->
  exists target labelId file md body,
    file ∈ mdFiles env (epicsDir config)
    /\ getMDStory env (readFileSync env (join (epicsDir config) file)) = inr md
    /\ c = CreateIssue target (title (frontmatter md)) body labelId
    /\ body = (if JS.truthy (role (frontmatter md))
               then "As a " +:+ JS.show (role (frontmatter md))
                    +:+ ", I want to " +:+ JS.show (action (frontmatter md))
                    +:+ " so that " +:+ JS.show (benefit (frontmatter md))
                    +:+ "."
               else "")
    /\ (forall ro ac be,
          role (frontmatter md) = Some ro -> ro <> "" ->
          action (frontmatter md) = Some ac ->
          benefit (frontmatter md) = Some be ->
          body = "As a " +:+ ro +:+ ", I want to " +:+ ac +:+ " so that "
                 +:+ be +:+ ".")
    /\ (role (frontmatter md) = None \/ role (frontmatter md) = Some "" ->
        body = "").
Proof.
  intros Hrun Hc.
  destruct (Run_epicIssues _ _ _ _ _ (run_Run _ _ _ _ Hrun) Hc)
    as (target & lbn & epics0 & e & Hf & He & ->).
  destruct (values_from_file _ _ _ _ Hf He) as (file & md & Hfile & Hmd & ->).
  exists target, (epicLabelId lbn), file, md, (epicBody (frontmatter md)).
  split_and!; try done.
  - intros ro ac be Hro Hne Hac Hbe. unfold epicBody, sentence.
    rewrite Hro, Hac, Hbe. by destruct ro.
  - unfold epicBody. by intros [-> | ->].
Qed.

Lemma epic_issue_body_witness :
  run Demo.readme Demo.config = (Demo.readme_calls, inr tt)
  /\ CreateIssue Demo.target (Some "Epic One")
       "As a user, I want to perform an action so that achieve a goal."
       "LA_Epic" ∈ epicIssues Demo.readme_calls
  /\ exists file md,
       file ∈ mdFiles Demo.readme "epics"
       /\ getMDStory Demo.readme (readFileSync Demo.readme (join "epics" file))
          = inr md
       /\ title (frontmatter md) = Some "Epic One"
       /\ (JS.truthy (role (frontmatter md)) = true ->
           sentence (frontmatter md)
           = "As a user, I want to perform an action so that achieve a goal.").
Proof.
  assert (Hrun : run Demo.readme Demo.config = (Demo.readme_calls, inr tt))
    by (vm_compute; reflexivity).
  assert (Hc : CreateIssue Demo.target (Some "Epic One")
                 "As a user, I want to perform an action so that achieve a goal."
                 "LA_Epic" ∈ epicIssues Demo.readme_calls)
    by (vm_compute; apply list_elem_of_here).
  destruct (epic_issue_body _ _ _ _ _ Hrun Hc)
    as (target & labelId & file & md & body & Hfile & Hmd & Heq & Hbody & _).
  split_and!; [exact Hrun | exact Hc |].
  exists file, md. injection Heq as _ Htitle Hb _.
  split_and!; [exact Hfile | exact Hmd | by symmetry |].
  intros Htruthy. rewrite Htruthy in Hbody. by rewrite Hb, Hbody.
Defined.

(** The statement of the specification fails here: the epic has a role
    and neither an action nor a benefit, so its narrative is not present,
    and the body of its issue is not empty. *)
Lemma epic_issue_body_counterexample :
  getMDStory Demo.roleOnly (readFileSync Demo.roleOnly "epics/001-epic-one.md")
  = inr (Demo.md (Some "Epic One") (Some "backend") (Some "admin") None None
           "Epic text")
  /\ run Demo.roleOnly Demo.config
     = ([GetProjectInfo "octo" "board"; GetRepositoryId "octo" "board";
         CreateLabelIfNotExists "R_1" (Some "backend");
         CreateLabelIfNotExists "R_1" (Some "Epic");
         CreateIssue Demo.target (Some "Epic One")
           "As a admin, I want to undefined so that undefined." "LA_Epic"],
        inr tt).
Proof. split; vm_compute; reflexivity. Qed.

(* ================================================================== *)
(** ** Records that the checks miss *)

(** C2. An epic whose frontmatter has no title: no error is raised, the
    issue of the epic is asked for without a title and the run succeeds
    (the story path refuses a missing title, see [titleNotSet]). *)
Theorem untitled_epic_is_created :
  getMDStory Demo.untitled (readFileSync Demo.untitled "epics/001-epic-one.md")
  = inr (Demo.md None (Some "backend") None None None "Epic text")
  /\ run Demo.untitled Demo.config
     = ([GetProjectInfo "octo" "board"; GetRepositoryId "octo" "board";
         CreateLabelIfNotExists "R_1" (Some "backend");
         CreateLabelIfNotExists "R_1" (Some "Epic");
         CreateIssue Demo.target None "" "LA_Epic"],
        inr tt).
Proof. split; vm_compute; reflexivity. Qed.

(** C6. A story whose number names no epic: the run ends with the
    runtime's error about the property [issueId] of [undefined], which
    does not name the file (the two checks before it do, see
    [notInPriorityOrder] and [titleNotSet]); no story issue is asked
    for. *)
Theorem orphan_story_error :
  JS.own (storyEpicNumber "002-001-orphan.md") (Demo.epicsOf Demo.orphan) = None
  /\ run Demo.orphan Demo.config
     = ([GetProjectInfo "octo" "board"; GetRepositoryId "octo" "board";
         CreateLabelIfNotExists "R_1" (Some "backend");
         CreateLabelIfNotExists "R_1" (Some "Epic");
         CreateIssue Demo.target (Some "Epic One") "" "LA_Epic"],
        inl (TypeError
               "Cannot read properties of undefined (reading 'issueId')")).
Proof. split; vm_compute; reflexivity. Qed.

(** With a first segment that every object inherits as a property, there
    is no error at all: the story issue is asked for without a parent. *)
Example inherited_key_story :
  JS.own (storyEpicNumber "constructor-001-x.md") (Demo.epicsOf Demo.inherited)
  = None
  /\ run Demo.inherited Demo.config
     = ([GetProjectInfo "octo" "board"; GetRepositoryId "octo" "board";
         CreateLabelIfNotExists "R_1" (Some "backend");
         CreateLabelIfNotExists "R_1" (Some "Epic");
         CreateIssue Demo.target (Some "Epic One") "" "LA_Epic";
         CreateIssueAddToProject Demo.target None "Story X" "Story text"
           (Some "LA_backend")],
        inr tt).
Proof. split; vm_compute; reflexivity. Qed.

(* ================================================================== *)
(** ** More about the stages of a run *)

Lemma LabelsResolved_run env config target lbn epics0 h :
  LabelsResolved env config target lbn epics0 h ->
  run env config = afterLabels env config target lbn epics0 h.
Proof.
  intros [Hpi Hrid Ho Hr Hf Hl].
  unfold run, createIssues.
  erewrite bind_ok by (rewrite await_eq, Hpi; reflexivity).
  cbv beta iota.
  erewrite bind_ok by (simpl; rewrite await_eq, Hrid; reflexivity).
  cbv beta zeta.
  erewrite bind_ok by (unfold lift; rewrite Hf; reflexivity).
  erewrite bind_ok by exact Hl.
  destruct target as [rid pi o r]; simpl in *; subst o r.
  reflexivity.
Qed.

Lemma EpicsCreated_LabelsResolved env config target lbn epics0 epics h :
  EpicsCreated env config target lbn epics0 epics h ->
  LabelsResolved env config target lbn epics0
    (start config ++ labelCalls (t_repositoryId target) (labels epics0))
  /\ for_of (JS.entries epics0) (createEpic env target lbn) epics0
       (start config ++ labelCalls (t_repositoryId target) (labels epics0))
     = (h, inr epics).
Proof.
  intros [Hpi Hrid Ho Hr Hf (h1 & Hl & He)].
  assert (h1 = start config ++ labelCalls (t_repositoryId target) (labels epics0))
    as ->.
  { rewrite resolveLabel_step in Hl. by apply for_of_step_ok in Hl. }
  by split.
Qed.

Lemma LabelsResolved_history env config target lbn epics0 h :
  LabelsResolved env config target lbn epics0 h ->
  h = start config ++ labelCalls (t_repositoryId target) (labels epics0).
Proof.
  intros [_ _ _ _ _ Hl].
  rewrite resolveLabel_step in Hl. by apply for_of_step_ok in Hl.
Qed.

(** A run either stops before the end of the label loop, having asked for
    no issue, or goes on with [afterLabels]. *)
Lemma run_labels_inv env config t r :
  run env config = (t, r) ->
  (epicIssues t = [] /\ storyIssues t = [] /\ exists e, r = inl e)
  \/ exists target lbn epics0 h,
       LabelsResolved env config target lbn epics0 h
       /\ afterLabels env config target lbn epics0 h = (t, r).
Proof.
  intros Hrun. pose proof Hrun as H. unfold run, createIssues in H.
  apply bind_inv in H as [(e & H1 & ->) | (pi & h1 & H1 & H)];
    rewrite await_eq in H1; injection H1 as <- H1.
  { left. split_and!; [done | done | by exists e]. }
  destruct pi as [pi |]; cycle 1.
  { injection H as <- <-. left. split_and!; [done | done | by eexists]. }
  apply bind_inv in H as [(e & H2 & ->) | (rid & h2 & H2 & H)];
    rewrite await_eq in H2; injection H2 as <- H2.
  { left. split_and!; [done | done | by exists e]. }
  set (target := {| t_repositoryId := rid; t_projectInfo := pi;
                    t_owner := owner config; t_repo := repo config |}) in *.
  apply bind_inv in H as [(e & H3 & ->) | (epics0 & h3 & H3 & H)];
    unfold lift in H3; injection H3 as <- Hfiles.
  { left. split_and!; [done | done | by exists e]. }
  apply bind_inv in H as [(e & Hl & ->) | (lbn & h4 & Hl & H)].
  { rewrite resolveLabel_step in Hl.
    apply for_of_step_calls in Hl as (n1 & n2 & Hn & -> & _).
    left. rewrite epicIssues_app, storyIssues_app.
    change (map (CreateLabelIfNotExists rid) n1) with (labelCalls rid n1).
    rewrite epicIssues_labelCalls, storyIssues_labelCalls.
    split_and!; [done | done | by exists e]. }
  right. exists target, lbn, epics0, h4. split; [| exact H].
  split; simpl; try done.
  - by destruct (getProjectInfo env [] _ _) as [| [|]]; simplify_eq.
  - by destruct (getRepositoryId env _ _ _); simplify_eq.
Qed.

(** The calls of [afterEpics] are story issues. *)
Lemma afterEpics_calls env config target lbn epics h t r :
  afterEpics env config target lbn epics h = (t, r) ->
  exists ss, t = h ++ storyCalls target ss.
Proof.
  unfold afterEpics. intros H.
  apply bind_inv in H as [(e & Hp & ->) | (po & h1 & Hp & H)];
    unfold lift in Hp; injection Hp as <- Hp.
  { exists []. simpl. by rewrite app_nil_r. }
  apply bind_inv in H as [(e & Hs & ->) | (stories & h2 & Hs & H)];
    unfold lift in Hs; injection Hs as <- Hs.
  { exists []. simpl. by rewrite app_nil_r. }
  rewrite createStory_step in H.
  apply for_of_step_calls in H as (ss1 & ss2 & _ & -> & _). by exists ss1.
Qed.

(** The calls of [afterLabels]: epic issues, all with the id kept for
    "Epic", which is then not empty, and story issues after them. *)
Lemma afterLabels_calls (env : Env) (config : Config) (target : Target)
    (lbn : gmap (option string) string) epics0 h t r :
  afterLabels env config target lbn epics0 h = (t, r) ->
  exists es1 es2 ss,
    JS.values epics0 = es1 ++ es2
    /\ t = h ++ epicCalls target lbn es1 ++ storyCalls target ss
    /\ (es1 <> [] -> JS.truthy (lbn !! Some "Epic") = true)
    /\ (ss <> [] -> es2 = []).
Proof.
  unfold afterLabels. intros H.
  destruct (JS.truthy (lbn !! Some "Epic")) eqn:Et.
  - destruct (lbn !! Some "Epic") as [[| c s] |] eqn:E; try done.
    rewrite (createEpic_step _ _ _ _ _ E) in H.
    apply bind_inv in H as [(e & He & ->) | (epics & h1 & He & H)].
    + apply for_of_step_calls in He as (l1 & l2 & Hes & -> & _).
      exists (map snd l1), (map snd l2), [].
      rewrite (epicCalls_entries _ _ _ _ _ E). simpl. rewrite app_nil_r.
      split_and!; try done. unfold JS.values. by rewrite Hes, map_app.
    + apply for_of_step_ok in He. subst h1.
      apply afterEpics_calls in H as (ss & ->).
      exists (JS.values epics0), [], ss.
      rewrite (epicCalls_entries _ _ _ _ _ E), app_nil_r, <- app_assoc.
      by split_and!.
  - destruct (JS.entries epics0) as [| kv es] eqn:Ees.
    + erewrite bind_ok in H by reflexivity.
      apply afterEpics_calls in H as (ss & ->).
      exists [], [], ss. unfold JS.values. rewrite Ees. by split_and!.
    + erewrite bind_fail in H
        by (rewrite for_of_throw with (e := epicLabelNotFound);
            [reflexivity | intros; apply createEpic_throw; by rewrite Et]).
      injection H as <- <-. exists [], (JS.values epics0), [].
      simpl. rewrite app_nil_r. by split_and!.
Qed.

Lemma for_of_step_total {A V S} (c : A -> call)
    (answer : A -> history -> outcome V) (update : A -> V -> S -> S) l :
  (forall x h, exists v, answer x h = inr v) ->
  forall s h, exists s',
    for_of l (step c answer update) s h = (h ++ map c l, inr s').
Proof.
  intros Hans. induction l as [| x l IH]; intros s h; simpl.
  - exists s. by rewrite app_nil_r.
  - destruct (Hans x h) as [v Hv].
    erewrite bind_ok by (by apply step_ok).
    destruct (IH (update x v s) (h ++ [c x])) as [s' ->].
    exists s'. by rewrite <- app_assoc.
Qed.

Lemma prototype_key k :
  existsb (String.eqb k) JS.Object_prototype_keys = true ->
  k ∈ JS.Object_prototype_keys.
Proof.
  intros (k' & Hin & ->%String.eqb_eq)%existsb_exists.
  by apply list_elem_of_In.
Qed.

(** The story issue a run asks for comes from a story file. *)
Lemma run_storyIssue_file env config t r c :
  run env config = (t, r) ->
  c ∈ storyIssues t ->
  exists target lbn epics0 epics h po stories file s,
    StoriesBuilt env config target lbn epics0 epics h po stories
    /\ file ∈ mdFiles env (storiesDir config)
    /\ buildStory env (storiesDir config) po lbn epics file = inr s
    /\ c = storyCall target s.
Proof.
  intros Hrun Hc. apply run_Run, Run_storyIssues in Hrun
    as [[Hno _] | (target & lbn & epics0 & epics & h & po & stories & ss1 & ss2
                   & Hsb & Hss & -> & _)].
  { rewrite Hno in Hc. by apply elem_of_nil in Hc. }
  rewrite storyIssues_run_calls in Hc.
  apply list_elem_of_fmap in Hc as (s & -> & Hs).
  assert (s ∈ stories) as Hin.
  { rewrite (sort_by_perm Story.priority), Hss, elem_of_app. by left. }
  destruct (try_map_elem _ _ _ _ (sb_stories _ _ _ _ _ _ _ _ _ Hsb) Hin)
    as (file & Hfile & Hbuild).
  by exists target, lbn, epics0, epics, h, po, stories, file, s.
Qed.

(** *** The keys of [epics] *)

Lemma Set_values_ext {A} `{EqDecision A} (l : list A) : forall seen seen',
  (forall x, x ∈ seen <-> x ∈ seen') ->
  JS.Set_values seen l = JS.Set_values seen' l.
Proof.
  induction l as [| y l IH]; intros seen seen' Hs; simpl; [done |].
  destruct (decide (y ∈ seen)) as [Hy | Hy], (decide (y ∈ seen')) as [Hy' | Hy'].
  - by apply IH.
  - by apply Hs in Hy.
  - by apply Hs in Hy'.
  - f_equal. apply IH. intros x. rewrite !elem_of_cons, Hs. tauto.
Qed.

(** The keys of [epics] are the numbers of the epic files, each once, in
    the order in which they first occur. *)
Lemma readEpics_key_order env dir files : forall o o',
  try_fold (readEpic env dir) files o = inr o' ->
  map fst o' = map fst o ++ JS.Set_values (map fst o) (map epicNumber files).
Proof.
  induction files as [| f files IH]; intros o o' H; simpl in H |- *.
  - simplify_eq. by rewrite app_nil_r.
  - unfold readEpic in H at 1.
    destruct (getMDStory env _) as [| md]; [done |]. simpl in H.
    rewrite (IH _ _ H), keys_set.
    destruct (JS.own (epicNumber f) o) eqn:E.
    + destruct (decide (epicNumber f ∈ map fst o)) as [| Hn]; [done |].
      apply own_None in Hn. congruence.
    + apply own_None in E.
      destruct (decide (epicNumber f ∈ map fst o)) as [| _]; [done |].
      rewrite <- app_assoc. simpl. do 2 f_equal.
      apply Set_values_ext. intros x.
      rewrite elem_of_app, list_elem_of_singleton, elem_of_cons. tauto.
Qed.

Lemma epicsOfFiles_key_order env config epics0 :
  epicsOfFiles env config = inr epics0 ->
  map fst epics0
  = JS.Set_values [] (map epicNumber (mdFiles env (epicsDir config))).
Proof. intros H. by apply readEpics_key_order in H. Qed.


(** *** The checks of a story, one by one *)

Lemma buildStory_untitled (env : Env) (dir : string) (po : list string)
    (lbn : gmap (option string) string) epics file md :
  getMDStory env (readFileSync env (join dir file)) = inr md ->
  storyId file ∈ po ->
  JS.truthy (role (frontmatter md)) = false ->
  JS.truthy (title (frontmatter md)) = false ->
  buildStory env dir po lbn epics file = inl (titleNotSet file).
Proof.
  intros Hmd Hid Hrole Htitle. unfold buildStory. rewrite Hmd. simpl.
  destruct (JS.indexOf po (storyId file) =? -1) eqn:Ei.
  { apply Z.eqb_eq, indexOf_miss in Ei. done. }
  unfold storyTitle. rewrite Hrole.
  by destruct (title (frontmatter md)) as [[|] |].
Qed.

Lemma buildStory_no_title (env : Env) (dir : string) (po : list string)
    (lbn : gmap (option string) string) epics file md s :
  getMDStory env (readFileSync env (join dir file)) = inr md ->
  JS.truthy (role (frontmatter md)) = false ->
  JS.truthy (title (frontmatter md)) = false ->
  buildStory env dir po lbn epics file <> inr s.
Proof.
  intros Hmd Hrole Htitle Hb.
  apply buildStory_inv in Hb as (md' & Hmd' & _ & _ & Ht & Hne & _).
  rewrite Hmd in Hmd'. injection Hmd' as <-.
  unfold storyTitle in Ht. rewrite Hrole in Ht. rewrite Ht in Htitle.
  simpl in Htitle. by destruct (Story.title s).
Qed.

Lemma buildStory_orphan (env : Env) (dir : string) (po : list string)
    (lbn : gmap (option string) string) epics file md :
  getMDStory env (readFileSync env (join dir file)) = inr md ->
  storyId file ∈ po ->
  JS.truthy (storyTitle (frontmatter md)) = true ->
  JS.get (storyEpicNumber file) epics = JS.Undefined ->
  buildStory env dir po lbn epics file = inl issueIdOfUndefined.
Proof.
  intros Hmd Hid Htitle Hget. unfold buildStory. rewrite Hmd. simpl.
  destruct (JS.indexOf po (storyId file) =? -1) eqn:Ei.
  { apply Z.eqb_eq, indexOf_miss in Ei. done. }
  destruct (storyTitle (frontmatter md)) as [[|] |]; try done.
  by rewrite Hget.
Qed.

Lemma get_Undefined_iff {V} (o : JS.object V) k :
  JS.get k o = JS.Undefined
  <-> JS.own k o = None /\ k ∉ JS.Object_prototype_keys.
Proof.
  unfold JS.get. destruct (JS.own k o); [by split; [| intros [? _]] |].
  destruct (existsb _ JS.Object_prototype_keys) eqn:E.
  - apply prototype_key in E. by split; [| intros [_ ?]].
  - split; [| done]. intros _. split; [done |]. intros Hin.
    apply not_true_iff_false in E. apply E, existsb_exists.
    exists k. split; [by apply list_elem_of_In | apply String.eqb_refl].
Qed.

(** A story file that cannot pass its checks: the run fails and asks for
    no story issue. *)
Lemma run_story_never_built env config t r file :
  run env config = (t, r) ->
  file ∈ mdFiles env (storiesDir config) ->
  (forall po lbn epics0 epics h target s,
     EpicsCreated env config target lbn epics0 epics h ->
     buildStory env (storiesDir config) po lbn epics file <> inr s) ->
  (exists e, r = inl e) /\ storyIssues t = [].
Proof.
  intros Hrun Hfile Hnever. apply run_Run, Run_storyIssues in Hrun
    as [[Hno He] | (target & lbn & epics0 & epics & h & po & stories & ss1
                    & ss2 & [Hec _ Hs] & _)]; [done |].
  apply try_map_ok in Hs.
  apply list_elem_of_lookup in Hfile as [i Hi].
  destruct (Forall2_lookup_l _ _ _ _ _ Hs Hi) as (s & _ & Hb).
  by destruct (Hnever po lbn epics0 epics h target s Hec).
Qed.

(** *** Stopping at the first call that fails *)

Lemma failFast_silent {A} env (m : M A) :
  (forall h, fst (m h) = h) -> failFast env m.
Proof.
  intros Hm h h' r H. exists []. rewrite app_nil_r.
  pose proof (Hm h) as Hh. rewrite H in Hh. simpl in Hh.
  split_and!; [done | |].
  - intros h1 c rest Heq. by destruct h1.
  - intros h1 c msg Heq. by destruct h1.
Qed.

Lemma failFast_await {A} env (c : call) (answer : history -> outcome A) :
  (forall h, thrown env h c
             = match answer h with inr _ => None | inl m => Some m end) ->
  failFast env (await c answer).
Proof.
  intros Hans h h' r H. rewrite await_eq in H. injection H as <- <-.
  exists [c]. split_and!; [done | |].
  - intros h1 c' rest Heq Hok.
    destruct h1 as [| c0 h1]; [| by destruct h1].
    injection Heq as <- <-. rewrite app_nil_r, Hans.
    destruct Hok as [? | Hok]; [done |]. by destruct (answer h).
  - intros h1 c' msg Heq Hno.
    destruct h1 as [| c0 h1]; [| by destruct h1].
    injection Heq as <-. rewrite app_nil_r, Hans in Hno.
    destruct (answer h) as [m |]; [| done]. by injection Hno as ->.
Qed.

Lemma failFast_bind {A B} env (m : M A) (f : A -> M B) :
  failFast env m -> (forall a, failFast env (f a)) -> failFast env (m ≫= f).
Proof.
  intros Hm Hf h h' r H.
  apply bind_inv in H as [(e & H1 & ->) | (a & h1 & H1 & H2)].
  { destruct (Hm _ _ _ H1) as (seg & -> & Hall & Hlast).
    exists seg. split_and!; [done | exact Hall |].
    intros k c msg Heq Hno.
    pose proof (Hlast k c msg Heq Hno) as He. by injection He as ->. }
  destruct (Hm _ _ _ H1) as (seg1 & -> & Hall1 & _).
  destruct (Hf a _ _ _ H2) as (seg2 & -> & Hall2 & Hlast2).
  exists (seg1 ++ seg2). rewrite app_assoc. split_and!; [done | |].
  - intros k c rest Heq Hok.
    apply app_eq_inv in Heq as [(l & -> & Hl) | (l & -> & ->)].
    + destruct l as [| c0 l]; simpl in Hl.
      * subst seg2. specialize (Hall2 [] c rest eq_refl Hok).
        by rewrite !app_nil_r in Hall2.
      * injection Hl as <- ->. apply (Hall1 k c l); [done | by right].
    + rewrite app_assoc. by apply (Hall2 l c rest).
  - intros k c msg Heq Hno.
    destruct seg2 as [| c2 seg2 _] using rev_ind.
    + rewrite app_nil_r in Heq. subst seg1.
      rewrite (Hall1 k c []) in Hno; [done | done | by right].
    + rewrite app_assoc in Heq. apply app_inj_tail in Heq as [<- <-].
      apply (Hlast2 seg2 c2); [done |]. by rewrite <- app_assoc.
Qed.

Lemma failFast_for_of {A S} env (body : A -> S -> M S) l :
  (forall x s, failFast env (body x s)) ->
  forall s, failFast env (for_of l body s).
Proof.
  intros Hbody. induction l as [| x l IH]; intros s; simpl.
  - by apply failFast_silent.
  - apply failFast_bind; [apply Hbody | apply IH].
Qed.

Lemma createIssues_failFast env config : failFast env (createIssues env config).
Proof.
  unfold createIssues.
  apply failFast_bind; [by apply failFast_await |].
  intros [pi |]; [| by apply failFast_silent].
  apply failFast_bind; [by apply failFast_await |]. intros rid.
  apply failFast_bind; [by apply failFast_silent |]. intros epics0.
  apply failFast_bind.
  { apply failFast_for_of. intros name m. unfold resolveLabel.
    apply failFast_bind; [by apply failFast_await |].
    intros id. by apply failFast_silent. }
  intros lbn. apply failFast_bind.
  { apply failFast_for_of. intros kv epics. unfold createEpic.
    destruct (lbn !! Some "Epic") as [[| c s] |];
      try (by apply failFast_silent).
    apply failFast_bind; [by apply failFast_await |].
    intros id. by apply failFast_silent. }
  intros epics. apply failFast_bind; [by apply failFast_silent |]. intros po.
  apply failFast_bind; [by apply failFast_silent |]. intros stories.
  apply failFast_for_of. intros story []. unfold createStory.
  apply failFast_bind; [by apply failFast_await |].
  intros id. by apply failFast_silent.
Qed.

(* ================================================================== *)
(** ** The command line *)

Lemma IO_bind_inv {A B} (m : IO A) (f : A -> IO B) s s' r :
  (m ≫= f) s = (s', r) ->
  (exists e, m s = (s', inl e) /\ r = inl e)
  \/ (exists a s1, m s = (s1, inr a) /\ f a s1 = (s', r)).
Proof.
  unfold mbind, IO_mbind, IO_bind.
  destruct (m s) as [s1 [e | a]] eqn:E; intros H.
  - left. exists e. by inversion H.
  - right. by exists a, s1.
Qed.

Lemma IO_bind_ok {A B} (m : IO A) (f : A -> IO B) s s1 a :
  m s = (s1, inr a) -> (m ≫= f) s = f a s1.
Proof. unfold mbind, IO_mbind, IO_bind. by intros ->. Qed.

Lemma truthy_default (v : option string) :
  JS.truthy v = true -> default "" v <> "" /\ v = Some (default "" v).
Proof. by destruct v as [[|] |]. Qed.

Lemma or_else_truthy (a b : option string) :
  JS.truthy a = true -> or_else a b = a.
Proof. unfold or_else. by intros ->. Qed.

Lemma or_else_falsy (a b : option string) :
  JS.truthy a = false -> or_else a b = b.
Proof. unfold or_else. by intros ->. Qed.

Section CommandLineFacts.
Variable sh : Shell.t.

Local Abbreviation warnings := (warnings sh).

(** Loading never throws and adds warnings only. *)
Lemma loadConfigFrom_spec paths : forall s,
  (exists paths1 p paths2 v,
     paths = paths1 ++ p :: paths2
     /\ Shell.existsSync sh p = true
     /\ parseConfigFile sh p = inr v
     /\ (forall q, q ∈ paths1 -> Shell.existsSync sh q = true ->
           exists m, parseConfigFile sh q = inl m)
     /\ loadConfigFrom sh paths s = (s ++ warnings paths1, inr v))
  \/ ((forall q, q ∈ paths -> Shell.existsSync sh q = true ->
         exists m, parseConfigFile sh q = inl m)
      /\ loadConfigFrom sh paths s = (s ++ warnings paths, inr None)).
Proof.
  induction paths as [| p paths IH]; intros s; simpl.
  - right. split; [by intros q ?%elem_of_nil |].
    unfold warnings. simpl. by rewrite app_nil_r.
  - destruct (Shell.existsSync sh p) eqn:Ex.
    + destruct (parseConfigFile sh p) as [m | v] eqn:Ep.
      * erewrite IO_bind_ok by reflexivity.
        destruct (IH (s ++ [Warn ("Warning: Could not parse config file "
                                  +:+ p)]))
          as [(l1 & q & l2 & v & -> & Hq & Hv & Hl1 & Hload) | [Hall Hload]].
        -- left. exists (p :: l1), q, l2, v.
           split_and!; try done.
           ++ intros q' [-> | Hin]%elem_of_cons; [by exists m | by apply Hl1].
           ++ rewrite Hload. unfold warnings. simpl. rewrite Ex. simpl.
              by rewrite <- app_assoc.
        -- right. split.
           ++ intros q' [-> | Hin]%elem_of_cons; [by exists m | by apply Hall].
           ++ rewrite Hload. unfold warnings. simpl. rewrite Ex. simpl.
              by rewrite <- app_assoc.
      * left. exists [], p, paths, v. split_and!; try done.
        -- by intros q ?%elem_of_nil.
        -- unfold warnings. simpl. by rewrite app_nil_r.
    + destruct (IH s)
        as [(l1 & q & l2 & v & -> & Hq & Hv & Hl1 & Hload) | [Hall Hload]].
      * left. exists (p :: l1), q, l2, v. split_and!; try done.
        -- intros q' [-> | Hin]%elem_of_cons; [congruence | by apply Hl1].
        -- rewrite Hload. unfold warnings. simpl. by rewrite Ex.
      * right. split.
        -- intros q' [-> | Hin]%elem_of_cons; [congruence | by apply Hall].
        -- rewrite Hload. unfold warnings. simpl. by rewrite Ex.
Qed.

Lemma loadConfigFrom_frame paths : forall s,
  loadConfigFrom sh paths s
  = (s ++ fst (loadConfigFrom sh paths []), snd (loadConfigFrom sh paths [])).
Proof.
  induction paths as [| p paths IH]; intros s; simpl.
  - unfold mret, IO_mret, IO_ret. simpl. by rewrite app_nil_r.
  - destruct (Shell.existsSync sh p); [| apply IH].
    destruct (parseConfigFile sh p) as [m | v].
    + erewrite !IO_bind_ok by reflexivity.
      rewrite (IH (s ++ _)), (IH ([] ++ _)). simpl. by rewrite <- app_assoc.
    + unfold mret, IO_mret, IO_ret. simpl. by rewrite app_nil_r.
Qed.

Lemma loadConfigFrom_total paths s :
  exists v, snd (loadConfigFrom sh paths s) = inr v.
Proof.
  destruct (loadConfigFrom_spec paths s)
    as [(l1 & q & l2 & v & _ & _ & _ & _ & ->) | [_ ->]]; by eexists.
Qed.

End CommandLineFacts.

Section GetConfigFacts.
Variable sh : Shell.t.

Lemma fromDataDir_ok s :
  exists s1 pc, fromDataDir sh s = (s1, inr pc) /\ github pc = None.
Proof.
  unfold fromDataDir. destruct (checkDefaultDataDir sh) as [[| c d] |];
    by eexists _, _.
Qed.

Lemma fromConfigFile_ok pc s :
  exists s1 pc', fromConfigFile sh pc s = (s1, inr pc').
Proof.
  unfold fromConfigFile, loadConfigFile.
  destruct (loadConfigFrom_total sh (configPaths sh) s) as [v Hv].
  destruct (loadConfigFrom sh (configPaths sh) s) as [s1 r] eqn:E.
  simpl in Hv. subst r. erewrite IO_bind_ok by exact E.
  destruct v; by eexists _, _.
Qed.

Lemma fromEnvironment_ok pc s :
  exists s1 pc', fromEnvironment sh pc s = (s1, inr pc') /\ data pc' = data pc.
Proof.
  unfold fromEnvironment. destruct (JS.truthy _); by eexists _, _.
Qed.

Lemma gather_ok s : exists s1 pc, gather sh s = (s1, inr pc).
Proof.
  unfold gather.
  destruct (fromDataDir_ok s) as (s1 & pc1 & H1 & _).
  erewrite IO_bind_ok by exact H1.
  destruct (fromConfigFile_ok pc1 s1) as (s2 & pc2 & H2).
  erewrite IO_bind_ok by exact H2.
  destruct (fromEnvironment_ok pc2 s2) as (s3 & pc3 & H3 & _).
  by exists s3, pc3.
Qed.

Lemma fromPrompts_complete pc s :
  needGithubConfig pc = false -> needDataConfig pc = false ->
  fromPrompts sh pc s = (s, inr pc).
Proof. unfold fromPrompts. by intros -> ->. Qed.

Lemma fromPrompts_ok pc s : exists s1 pc', fromPrompts sh pc s = (s1, inr pc').
Proof.
  unfold fromPrompts.
  destruct (needGithubConfig pc), (needDataConfig pc); by eexists _, _.
Qed.

Lemma fromPrompts_screen pc s :
  fst (fromPrompts sh pc s)
  = s ++ (if needGithubConfig pc || needDataConfig pc
          then [Log "\nPlease provide the following information:"] else [])
      ++ (if needGithubConfig pc then [Prompt (githubQuestions pc)] else [])
      ++ (if needDataConfig pc then [Prompt (dataQuestions pc)] else []).
Proof.
  unfold fromPrompts.
  destruct (needGithubConfig pc), (needDataConfig pc); simpl;
    rewrite <- ?app_assoc; try done.
  by rewrite app_nil_r.
Qed.

Lemma getConfig_gathered s s1 pc :
  gather sh s = (s1, inr pc) ->
  getConfig sh s = (fromPrompts sh pc ≫= validate) s1.
Proof. intros H. unfold getConfig. by erewrite IO_bind_ok by exact H. Qed.

Lemma validate_screen pc s : fst (validate pc s) = s.
Proof.
  unfold validate. by destruct (needGithubConfig pc), (needDataConfig pc).
Qed.

Lemma validate_inv pc s s' r :
  validate pc s = (s', r) ->
  s' = s
  /\ match r with
     | inr config =>
         needGithubConfig pc = false /\ needDataConfig pc = false
         /\ config = asConfig pc
     | inl e =>
         (needGithubConfig pc = true /\ e = missingGithub)
         \/ (needGithubConfig pc = false /\ needDataConfig pc = true
             /\ e = missingData)
     end.
Proof.
  unfold validate.
  destruct (needGithubConfig pc), (needDataConfig pc); intros [= <- <-];
    (split; [done |]); tauto.
Qed.

Lemma needGithub_false pc :
  needGithubConfig pc = false ->
  JS.truthy (githubOwner pc) = true /\ JS.truthy (githubRepo pc) = true
  /\ JS.truthy (githubToken pc) = true.
Proof.
  unfold needGithubConfig.
  by destruct (JS.truthy (githubOwner pc)), (JS.truthy (githubRepo pc)),
    (JS.truthy (githubToken pc)).
Qed.

Lemma needData_false pc :
  needDataConfig pc = false ->
  JS.truthy (dataEpicsDir pc) = true /\ JS.truthy (dataStoriesDir pc) = true
  /\ JS.truthy (dataPriorityFile pc) = true.
Proof.
  unfold needDataConfig.
  by destruct (JS.truthy (dataEpicsDir pc)), (JS.truthy (dataStoriesDir pc)),
    (JS.truthy (dataPriorityFile pc)).
Qed.

(** How [getConfig] ends, from what [gather] and the prompts gave. *)
Lemma getConfig_inv s s' r :
  getConfig sh s = (s', r) ->
  exists s1 pc s2 pc',
    gather sh s = (s1, inr pc)
    /\ fromPrompts sh pc s1 = (s2, inr pc')
    /\ validate pc' s2 = (s', r).
Proof.
  intros H. destruct (gather_ok s) as (s1 & pc & Hg).
  rewrite (getConfig_gathered _ _ _ Hg) in H.
  destruct (fromPrompts_ok pc s1) as (s2 & pc' & Hp).
  erewrite IO_bind_ok in H by exact Hp.
  by exists s1, pc, s2, pc'.
Qed.

Lemma gather_inv s s1 pc :
  gather sh s = (s1, inr pc) ->
  exists s0 s0' pc0 pc0',
    fromDataDir sh s = (s0, inr pc0)
    /\ github pc0 = None
    /\ fromConfigFile sh pc0 s0 = (s0', inr pc0')
    /\ fromEnvironment sh pc0' s0' = (s1, inr pc).
Proof.
  unfold gather. intros H.
  destruct (fromDataDir_ok s) as (s0 & pc0 & H0 & Hg).
  erewrite IO_bind_ok in H by exact H0.
  destruct (fromConfigFile_ok pc0 s0) as (s0' & pc0' & H0').
  erewrite IO_bind_ok in H by exact H0'.
  by exists s0, s0', pc0, pc0'.
Qed.

Lemma fromPrompts_github_kept pc s s' pc' :
  needGithubConfig pc = false ->
  fromPrompts sh pc s = (s', inr pc') -> github pc' = github pc.
Proof.
  unfold fromPrompts. intros ->. simpl.
  destruct (needDataConfig pc); by intros [= _ <-].
Qed.

Lemma fromPrompts_data_kept pc s s' pc' :
  needDataConfig pc = false ->
  fromPrompts sh pc s = (s', inr pc') -> data pc' = data pc.
Proof.
  unfold fromPrompts. intros ->.
  destruct (needGithubConfig pc); by intros [= _ <-].
Qed.

Lemma fromPrompts_github_typed pc s s' pc' :
  needGithubConfig pc = true ->
  fromPrompts sh pc s = (s', inr pc') ->
  let answers :=
    Shell.prompts sh
      (s ++ [Log "\nPlease provide the following information:"])
      (githubQuestions pc) in
  githubOwner pc'
  = or_else (or_else (answers "owner") (githubOwner pc)) (Some "")
  /\ githubRepo pc'
     = or_else (or_else (answers "repo") (githubRepo pc)) (Some "")
  /\ githubToken pc'
     = or_else (or_else (answers "token") (githubToken pc)) (Some "").
Proof.
  unfold fromPrompts. intros ->. simpl.
  destruct (needDataConfig pc); by intros [= _ <-].
Qed.

End GetConfigFacts.

Lemma or_else_chain (a b v : option string) :
  v = or_else (or_else a b) (Some "") ->
  JS.truthy v = true ->
  (JS.truthy a = true -> a = v) /\ (JS.truthy a = false -> b = v).
Proof.
  unfold or_else. intros -> Hv.
  destruct (JS.truthy a) eqn:Ea; simpl in *.
  - rewrite Ea in *. by split.
  - destruct (JS.truthy b) eqn:Eb; [by split | done].
Qed.

Lemma getConfig_returns_complete sh s s' config :
  getConfig sh s = (s', inr config) ->
  owner config <> "" /\ repo config <> "" /\ token config <> ""
  /\ epicsDir config <> "" /\ storiesDir config <> ""
  /\ priorityFile config <> "".
Proof.
  intros (s1 & pc & s2 & pc' & Hg & Hp & Hv)%getConfig_inv.
  apply validate_inv in Hv as [_ (Hgh%needGithub_false & Hd%needData_false & ->)].
  destruct Hgh as (Ho & Hr & Ht), Hd as (He & Hs & Hf). simpl.
  split_and!; by apply truthy_default.
Qed.

(** *** The order in which the keys of [epics] are enumerated *)

Lemma decimal_acc s : forall acc,
  JS.decimal acc s = acc * 10 ^ Z.of_nat (String.length s) + JS.decimal 0 s.
Proof.
  induction s as [| c s IH]; intros acc; simpl String.length; simpl JS.decimal.
  - simpl. lia.
  - rewrite (IH (10 * acc + _)), (IH (10 * 0 + _)).
    rewrite Nat2Z.inj_succ, Z.pow_succ_r by lia. lia.
Qed.

Lemma digit_value_range c :
  JS.is_digit c = true -> 0 <= JS.digit_value c <= 9.
Proof.
  unfold JS.is_digit, JS.digit_value.
  intros [H1 H2]%andb_prop. apply Nat.leb_le in H1, H2. lia.
Qed.

Lemma digit_value_inj c1 c2 :
  JS.digit_value c1 = JS.digit_value c2 -> c1 = c2.
Proof.
  unfold JS.digit_value. intros H.
  rewrite <- (ascii_nat_embedding c1), <- (ascii_nat_embedding c2).
  f_equal. lia.
Qed.

Lemma decimal_range s :
  JS.all_digits s = true ->
  0 <= JS.decimal 0 s < 10 ^ Z.of_nat (String.length s).
Proof.
  induction s as [| c s IH]; simpl String.length; simpl JS.decimal;
    simpl JS.all_digits.
  - simpl. lia.
  - intros [Hc Hs]%andb_prop. specialize (IH Hs).
    apply digit_value_range in Hc.
    rewrite decimal_acc, Nat2Z.inj_succ, Z.pow_succ_r by lia. nia.
Qed.

(** Two runs of digits of one length and one value are the same. *)
Lemma decimal_inj_length s1 : forall s2,
  String.length s1 = String.length s2 ->
  JS.all_digits s1 = true -> JS.all_digits s2 = true ->
  JS.decimal 0 s1 = JS.decimal 0 s2 -> s1 = s2.
Proof.
  induction s1 as [| c1 s1 IH]; intros [| c2 s2]; simpl String.length;
    try done.
  intros [= Hlen]. simpl JS.all_digits.
  intros [Hc1 Hs1]%andb_prop [Hc2 Hs2]%andb_prop.
  simpl JS.decimal. rewrite (decimal_acc s1), (decimal_acc s2), <- Hlen.
  pose proof (decimal_range s1 Hs1) as R1.
  pose proof (decimal_range s2 Hs2) as R2. rewrite <- Hlen in R2.
  apply digit_value_range in Hc1, Hc2.
  intros H.
  assert (JS.digit_value c1 = JS.digit_value c2) as Hd by nia.
  rewrite (digit_value_inj _ _ Hd). f_equal.
  apply IH; try done. rewrite Hd in H. lia.
Qed.

Lemma array_index_inv k i :
  JS.array_index k = Some i ->
  exists c s, k = String c s /\ JS.all_digits k = true
    /\ (c <> "0"%char \/ s = "") /\ i = JS.decimal 0 k.
Proof.
  destruct k as [| c s]; [done |]. unfold JS.array_index.
  destruct (JS.all_digits _) eqn:Ed; [| done].
  destruct (negb (Ascii.eqb c "0") || String.eqb s "") eqn:Ec; [| done].
  destruct (_ <? _); [| done]. intros [= <-].
  exists c, s. split_and!; try done.
  apply orb_prop in Ec as [Ec | Ec].
  - left. apply negb_true_iff, Ascii.eqb_neq in Ec. done.
  - right. by apply String.eqb_eq.
Qed.

(** A canonical numeral of two digits or more is at least the power of
    ten of its length. *)
Lemma decimal_lower c s :
  JS.all_digits (String c s) = true -> c <> "0"%char ->
  10 ^ Z.of_nat (String.length s) <= JS.decimal 0 (String c s).
Proof.
  simpl JS.all_digits. intros [Hc Hs]%andb_prop Hne.
  simpl JS.decimal. rewrite decimal_acc.
  pose proof (decimal_range s Hs).
  assert (JS.digit_value c <> 0).
  { intros E. apply Hne. apply digit_value_inj. rewrite E. reflexivity. }
  apply digit_value_range in Hc. nia.
Qed.

Lemma array_index_inj k1 k2 i :
  JS.array_index k1 = Some i -> JS.array_index k2 = Some i -> k1 = k2.
Proof.
  intros (c1 & s1 & -> & Hd1 & Hc1 & ->)%array_index_inv
         (c2 & s2 & -> & Hd2 & Hc2 & Hv)%array_index_inv.
  destruct (decide (String.length s1 = String.length s2)) as [Hlen | Hlen];
    [apply decimal_inj_length; [simpl; by rewrite Hlen | done | done | done] |].
  exfalso.
  pose proof (decimal_range _ Hd1) as R1.
  pose proof (decimal_range _ Hd2) as R2.
  simpl String.length in R1, R2.
  rewrite Nat2Z.inj_succ, Z.pow_succ_r in R1, R2 by lia.
  assert (forall c s c' s',
            JS.all_digits (String c s) = true ->
            JS.all_digits (String c' s') = true ->
            (c' <> "0"%char \/ s' = "") ->
            (String.length s < String.length s')%nat ->
            JS.decimal 0 (String c s) < JS.decimal 0 (String c' s')) as Hlt.
  { intros c s c' s' Hd Hd' [Hc | ->] Hl; [| simpl in Hl; lia].
    pose proof (decimal_range _ Hd) as R.
    pose proof (decimal_lower _ _ Hd' Hc) as L.
    simpl String.length in R.
    rewrite Nat2Z.inj_succ, Z.pow_succ_r in R by lia.
    assert (10 * 10 ^ Z.of_nat (String.length s)
            <= 10 ^ Z.of_nat (String.length s')); [| lia].
    rewrite <- Z.pow_succ_r, <- Nat2Z.inj_succ by lia.
    apply Z.pow_le_mono_r; lia. }
  destruct (Nat.lt_total (String.length s1) (String.length s2))
    as [Hl | [Hl | Hl]]; [| done |].
  - specialize (Hlt _ _ _ _ Hd1 Hd2 Hc2 Hl). lia.
  - specialize (Hlt _ _ _ _ Hd2 Hd1 Hc1 Hl). lia.
Qed.

Lemma NoDup_map_inj_on {A B} (f : A -> B) (l : list A) :
  (forall x y, x ∈ l -> y ∈ l -> f x = f y -> x = y) ->
  NoDup l -> NoDup (map f l).
Proof.
  induction l as [| a l IH]; intros Hinj Hnd; [constructor |].
  apply NoDup_cons in Hnd as [Ha Hnd]. simpl. apply NoDup_cons. split.
  - intros (y & Hy & Hin)%list_elem_of_fmap.
    rewrite (Hinj a y) in Ha; [done | by left | by right | done].
  - apply IH; [| done]. intros x y Hx Hy. apply Hinj; by right.
Qed.

Lemma filter_keys {V} (f : string -> bool) (o : JS.object V) :
  map fst (List.filter (fun kv => f (fst kv)) o) = List.filter f (map fst o).
Proof.
  induction o as [| [k v] o IH]; [done |]. simpl.
  destruct (f k); simpl; by rewrite IH.
Qed.

Lemma index_keys_NoDup {V} (o : JS.object V) :
  NoDup (map fst o) ->
  NoDup (map (fun kv => JS.index_of_key (fst kv))
           (List.filter (fun kv => JS.is_array_index (fst kv)) o)).
Proof.
  intros Hnd.
  rewrite <- (map_map fst JS.index_of_key), filter_keys.
  apply NoDup_map_inj_on.
  - intros k1 k2 [_ H1]%list_elem_of_In%filter_In [_ H2]%list_elem_of_In%filter_In.
    unfold JS.is_array_index, JS.index_of_key in *.
    destruct (JS.array_index k1) as [i1 |] eqn:E1; [| done].
    destruct (JS.array_index k2) as [i2 |] eqn:E2; [| done].
    intros ->. by apply (array_index_inj _ _ i2).
  - apply NoDup_ListNoDup, List.NoDup_filter, NoDup_ListNoDup, Hnd.
Qed.

(** *** Labels and file names *)

Lemma own_value {V} (o : JS.object V) (k : string) (v : V) :
  JS.own k o = Some v -> v ∈ JS.values o.
Proof.
  intros H%own_Some_elem. rewrite values_perm.
  by apply (list_elem_of_fmap_2 snd _ (k, v)).
Qed.

Lemma digit_run_inv s : forall d r,
  JS.digit_run s = (d, r) -> s = d +:+ r /\ JS.all_digits d = true.
Proof.
  induction s as [| c s IH]; intros d r; simpl.
  - by intros [= <- <-].
  - destruct (JS.is_digit c) eqn:Ec; [| by intros [= <- <-]].
    destruct (JS.digit_run s) as [d' r']. intros [= <- <-].
    destruct (IH d' r' eq_refl) as [-> Hd]. simpl. by rewrite Ec.
Qed.

Lemma match_digits_dash_inv file d :
  JS.match_digits_dash file = Some d ->
  exists rest,
    file = d +:+ String "-" rest /\ d <> "" /\ JS.all_digits d = true.
Proof.
  unfold JS.match_digits_dash.
  destruct (JS.digit_run file) as [[| c d'] r] eqn:E; [done |].
  destruct r as [| c' rest]; [done |].
  destruct (Ascii.eqb_spec c' "-") as [-> | Hne]; cycle 1.
  { by destruct c' as [[] [] [] [] [] [] [] []]. }
  intros [= <-]. apply digit_run_inv in E as [-> Hd]. by exists rest.
Qed.

(* ================================================================== *)
(** ** Further properties of [createIssues] *)

(** X1. A run resolves a label or asks for an issue only when the project
    and the repository id were found; when the client finds no project,
    the run ends after this one look-up with the error "Could not find
    project information". *)
Theorem lookups_come_first env config t r :
  run env config = (t, r) ->
  (labelNames t <> [] \/ epicIssues t <> [] \/ storyIssues t <> []
   \/ r = inr tt ->
   exists projectInfo repositoryId,
     getProjectInfo env [] (owner config) (repo config)
     = inr (Some projectInfo)
     /\ getRepositoryId env [GetProjectInfo (owner config) (repo config)]
          (owner config) (repo config) = inr repositoryId)
  /\ (getProjectInfo env [] (owner config) (repo config) = inr None ->
      t = [GetProjectInfo (owner config) (repo config)]
      /\ r = inl (Error "Could not find project information")).
Proof.
  intros Hrun. unfold run, createIssues in Hrun.
  apply bind_inv in Hrun as [(e & H1 & ->) | (pi & h1 & H1 & H)];
    rewrite await_eq in H1; injection H1 as <- H1.
  { split; [by intros [? | [? | [? | ?]]] |].
    intros Hpi. by rewrite Hpi in H1. }
  destruct (getProjectInfo env [] _ _) as [| pi'] eqn:Epi; [done |].
  injection H1 as ->.
  destruct pi as [pi |]; cycle 1.
  { injection H as <- <-. split; [by intros [? | [? | [? | ?]]] | done]. }
  split; [| done].
  apply bind_inv in H as [(e & H2 & ->) | (rid & h2 & H2 & H)];
    rewrite await_eq in H2; injection H2 as <- H2.
  - by intros [? | [? | [? | ?]]].
  - intros _. exists pi, rid. split; [done |].
    simpl in H2. by destruct (getRepositoryId env _ _ _); simplify_eq.
Qed.

Lemma lookups_come_first_witness :
  run Sample.noProject Demo.config
  = ([GetProjectInfo "octo" "board"],
     inl (Error "Could not find project information"))
  /\ exists projectInfo repositoryId,
       getProjectInfo Demo.readme [] "octo" "board" = inr (Some projectInfo)
       /\ getRepositoryId Demo.readme [GetProjectInfo "octo" "board"]
            "octo" "board" = inr repositoryId.
Proof.
  split.
  - assert (Hrun : run Sample.noProject Demo.config
                   = ([GetProjectInfo "octo" "board"],
                      inl (Error "Could not find project information")))
      by (vm_compute; reflexivity).
    destruct (lookups_come_first _ _ _ _ Hrun) as [_ Hnone].
    destruct (Hnone eq_refl) as [_ _]. exact Hrun.
  - assert (Hrun : run Demo.readme Demo.config = (Demo.readme_calls, inr tt))
      by (vm_compute; reflexivity).
    destruct (lookups_come_first _ _ _ _ Hrun) as [Hsome _].
    apply Hsome. by right; right; right.
Defined.

(** X2. When every label is resolved and the id the client hands out
    for "Epic" is the empty string, a run with at least one epic ends with
    the error that the label "Epic" was not found, after the label calls
    and before any issue is asked for. *)
Theorem empty_epic_label_id env config projectInfo repositoryId epics0 :
  getProjectInfo env [] (owner config) (repo config) = inr (Some projectInfo) ->
  getRepositoryId env [GetProjectInfo (owner config) (repo config)]
    (owner config) (repo config) = inr repositoryId ->
  epicsOfFiles env config = inr epics0 ->
  epics0 <> [] ->
  (forall h name, exists id,
     createLabelIfNotExists env h repositoryId name = inr id) ->
  (forall h, createLabelIfNotExists env h repositoryId (Some "Epic") = inr "") ->
  run env config
  = (start config ++ labelCalls repositoryId (labels epics0),
     inl epicLabelNotFound).
Proof.
  intros Hpi Hrid Hf Hne Hall Hepic.
  set (target := {| t_repositoryId := repositoryId;
                    t_projectInfo := projectInfo;
                    t_owner := owner config; t_repo := repo config |}).
  destruct (for_of_step_total (CreateLabelIfNotExists repositoryId)
              (fun name h => createLabelIfNotExists env h repositoryId name)
              (fun name id (m : gmap (option string) string) =>
                 <[name := id]> m)
              (labels epics0) (fun name h => Hall h name) ∅ (start config))
    as [lbn Hl].
  rewrite <- resolveLabel_step in Hl.
  assert (Hlr : LabelsResolved env config target lbn epics0
                  (start config ++ labelCalls repositoryId (labels epics0)))
    by (by split).
  rewrite (LabelsResolved_run _ _ _ _ _ _ Hlr). unfold afterLabels.
  assert (Some "Epic" ∈ labels epics0) as (n1 & n2 & Hn)%list_elem_of_split
    by (apply labels_elem; by left).
  pose proof Hl as Hl'. rewrite Hn in Hl'.
  apply labelLoop_at in Hl' as (id & Hid & Hlbn);
    [| rewrite <- Hn; apply labels_NoDup].
  rewrite Hepic in Hid. injection Hid as <-.
  erewrite bind_fail; [reflexivity |].
  rewrite for_of_throw with (e := epicLabelNotFound)
    by (intros; apply createEpic_throw; by rewrite Hlbn).
  destruct (JS.entries epics0) as [| kv es] eqn:Ees; [| done].
  pose proof (entries_perm epics0) as Hp. rewrite Ees in Hp.
  apply Permutation_nil in Hp. done.
Qed.

Lemma empty_epic_label_id_witness :
  run Sample.emptyEpicLabel Demo.config
  = ([GetProjectInfo "octo" "board"; GetRepositoryId "octo" "board";
      CreateLabelIfNotExists "R_1" (Some "backend");
      CreateLabelIfNotExists "R_1" (Some "Epic")],
     inl epicLabelNotFound).
Proof.
  rewrite (empty_epic_label_id Sample.emptyEpicLabel Demo.config "PVT_1" "R_1"
             (Demo.epicsOf Demo.readme)); [reflexivity | reflexivity
    | reflexivity | vm_compute; reflexivity | vm_compute; discriminate | | ].
  - intros h name. cbn. destruct (decide (name = Some "Epic")); by eexists.
  - reflexivity.
Defined.

(** X3. Every epic issue a run asks for carries one and the same label
    id: the id, not empty, that the client returned when the label "Epic"
    was resolved. *)
Theorem epic_issues_carry_epic_label env config t r c :
  run env config = (t, r) ->
  c ∈ epicIssues t ->
  exists target lbn epics0 h names1 names2 labelId title body,
    LabelsResolved env config target lbn epics0 h
    /\ c = CreateIssue target title body labelId
    /\ labelId <> ""
    /\ labels epics0 = names1 ++ Some "Epic" :: names2
    /\ createLabelIfNotExists env
         (start config ++ labelCalls (t_repositoryId target) names1)
         (t_repositoryId target) (Some "Epic") = inr labelId.
Proof.
  intros Hrun Hc.
  apply run_labels_inv in Hrun
    as [(He & _) | (target & lbn & epics0 & h & Hlr & Hafter)].
  { rewrite He in Hc. by apply elem_of_nil in Hc. }
  apply afterLabels_calls in Hafter as (es1 & es2 & ss & _ & -> & Htruthy & _).
  rewrite (LabelsResolved_history _ _ _ _ _ _ Hlr) in Hc.
  rewrite !epicIssues_app, epicIssues_labelCalls, epicIssues_epicCalls,
    epicIssues_storyCalls in Hc. simpl in Hc. rewrite ?app_nil_r in Hc.
  apply list_elem_of_fmap in Hc as (e & -> & He).
  destruct (lbn !! Some "Epic") as [[| ch s] |] eqn:E;
    try (by destruct es1; [apply elem_of_nil in He | specialize (Htruthy ltac:(done))]).
  assert (Some "Epic" ∈ labels epics0) as (n1 & n2 & Hn)%list_elem_of_split
    by (apply labels_elem; by left).
  pose proof (lr_labels _ _ _ _ _ _ Hlr) as Hl. rewrite Hn in Hl.
  apply labelLoop_at in Hl as (id & Hid & Hlbn);
    [| rewrite <- Hn; apply labels_NoDup].
  rewrite E in Hlbn. injection Hlbn as <-.
  exists target, lbn, epics0, h, n1, n2, (String ch s),
    (title (frontmatter (Epic.epic e))), (epicBody (frontmatter (Epic.epic e))).
  unfold epicCall. rewrite (epicLabelId_truthy _ _ _ E).
  by split_and!.
Qed.

Lemma epic_issues_carry_epic_label_witness :
  run Demo.readme Demo.config = (Demo.readme_calls, inr tt)
  /\ CreateIssue Demo.target (Some "Epic Two") "" "LA_Epic"
     ∈ epicIssues Demo.readme_calls
  /\ exists names1 names2 repositoryId,
       createLabelIfNotExists Demo.readme
         (start Demo.config ++ labelCalls repositoryId names1)
         repositoryId (Some "Epic") = inr "LA_Epic"
       /\ labels (Demo.epicsOf Demo.readme) = names1 ++ Some "Epic" :: names2.
Proof.
  assert (Hrun : run Demo.readme Demo.config = (Demo.readme_calls, inr tt))
    by (vm_compute; reflexivity).
  assert (Hc : CreateIssue Demo.target (Some "Epic Two") "" "LA_Epic"
               ∈ epicIssues Demo.readme_calls)
    by (vm_compute; apply list_elem_of_further, list_elem_of_here).
  split_and!; [exact Hrun | exact Hc |].
  destruct (epic_issues_carry_epic_label _ _ _ _ _ Hrun Hc)
    as (target & lbn & epics0 & h & names1 & names2 & labelId & title & body
        & Hlr & Heq & _ & Hn & Hid).
  injection Heq as _ _ _ <-.
  exists names1, names2, (t_repositoryId target). split; [exact Hid |].
  rewrite <- Hn. destruct Hlr as [_ _ _ _ Hf _].
  unfold Demo.epicsOf. by rewrite Hf.
Defined.

(** X4. The parent of every story issue is the id that the client
    returned for the issue of the epic stored under the story's first
    segment, an issue asked for earlier in the run; when no epic is stored
    under it, which a run survives only for the name of an inherited
    property, the story issue has no parent. *)
Theorem story_parent_is_epic_issue env config t r c :
  run env config = (t, r) ->
  c ∈ storyIssues t ->
  exists target lbn epics0 epics h po stories file s,
    StoriesBuilt env config target lbn epics0 epics h po stories
    /\ file ∈ mdFiles env (storiesDir config)
    /\ buildStory env (storiesDir config) po lbn epics file = inr s
    /\ c = CreateIssueAddToProject target (Story.issueId s) (Story.title s)
             (storyBody s) (Story.labelId s)
    /\ match JS.own (storyEpicNumber file) epics0 with
       | Some e =>
           exists es1 es2 id,
             JS.entries epics0 = es1 ++ (storyEpicNumber file, e) :: es2
             /\ createIssue env
                  (start config
                   ++ labelCalls (t_repositoryId target) (labels epics0)
                   ++ epicCalls target lbn (map snd es1)) target
                  (title (frontmatter (Epic.epic e)))
                  (epicBody (frontmatter (Epic.epic e)))
                  (epicLabelId lbn) = inr id
             /\ Story.issueId s = Some id
       | None =>
           Story.issueId s = None
           /\ storyEpicNumber file ∈ JS.Object_prototype_keys
       end.
Proof.
  intros Hrun Hc.
  destruct (run_storyIssue_file _ _ _ _ _ Hrun Hc)
    as (target & lbn & epics0 & epics & h & po & stories & file & s
        & Hsb & Hfile & Hbuild & ->).
  exists target, lbn, epics0, epics, h, po, stories, file, s.
  split_and!; try done.
  pose proof (sb_epics _ _ _ _ _ _ _ _ _ Hsb) as Hec.
  apply buildStory_inv in Hbuild
    as (_ & _ & _ & _ & _ & _ & _ & _ & _ & Hget).
  unfold JS.get in Hget.
  destruct (JS.own (storyEpicNumber file) epics0) as [e |] eqn:E0.
  - pose proof (own_Some_elem _ _ _ E0) as Hin.
    rewrite <- entries_perm in Hin.
    apply list_elem_of_split in Hin as (es1 & es2 & Hes).
    destruct (EpicsCreated_issue _ _ _ _ _ _ _ _ _ _ _ Hec Hes)
      as (id & Hid & Hown).
    rewrite Hown in Hget. by exists es1, es2, id.
  - apply (EpicsCreated_keys _ _ _ _ _ _ _ (storyEpicNumber file) Hec) in E0.
    rewrite E0 in Hget.
    destruct (existsb _ JS.Object_prototype_keys) eqn:Ek; [| done].
    split; [done | by apply prototype_key].
Qed.

Lemma story_parent_is_epic_issue_witness :
  run Demo.readme Demo.config = (Demo.readme_calls, inr tt)
  /\ CreateIssueAddToProject Demo.target (Some "I_5") "Third Story" "Story C"
       (Some "LA_backend") ∈ storyIssues Demo.readme_calls
  /\ exists file s,
       file ∈ mdFiles Demo.readme "stories"
       /\ Story.issueId s = Some "I_5"
       /\ is_Some (JS.own (storyEpicNumber file) (Demo.epicsOf Demo.readme)).
Proof.
  assert (Hrun : run Demo.readme Demo.config = (Demo.readme_calls, inr tt))
    by (vm_compute; reflexivity).
  assert (Hc : CreateIssueAddToProject Demo.target (Some "I_5") "Third Story"
                 "Story C" (Some "LA_backend") ∈ storyIssues Demo.readme_calls)
    by (vm_compute; apply list_elem_of_further, list_elem_of_here).
  split_and!; [exact Hrun | exact Hc |].
  destruct (story_parent_is_epic_issue _ _ _ _ _ Hrun Hc)
    as (target & lbn & epics0 & epics & h & po & stories & file & s
        & Hsb & Hfile & _ & Heq & Hparent).
  injection Heq as _ Hid _ _ _.
  exists file, s. split_and!; [exact Hfile | by symmetry |].
  assert (epics0 = Demo.epicsOf Demo.readme) as <-.
  { destruct Hsb as [[_ _ _ _ Hf _] _ _]. unfold Demo.epicsOf. by rewrite Hf. }
  destruct (JS.own (storyEpicNumber file) epics0); [by eexists |].
  destruct Hparent as [Hnone _]. rewrite Hnone in Hid. discriminate Hid.
Defined.



(** X6. A story file whose first segment is neither the number of an epic
    file nor the name of an inherited property is never created: the run
    fails and asks for no story issue at all. When the run gets as far as
    this file and the file passes the checks of the manifest and of the
    title, the error is the runtime's, about the property [issueId] of
    [undefined]. *)
Theorem story_of_missing_epic env config t r epics0 file :
  run env config = (t, r) ->
  epicsOfFiles env config = inr epics0 ->
  file ∈ mdFiles env (storiesDir config) ->
  JS.own (storyEpicNumber file) epics0 = None ->
  storyEpicNumber file ∉ JS.Object_prototype_keys ->
  (exists e, r = inl e)
  /\ storyIssues t = []
  /\ forall target lbn epics h po files1 files2 md,
       EpicsCreated env config target lbn epics0 epics h ->
       JSON_parse env (readFileSync env (priorityFile config)) = inr po ->
       mdFiles env (storiesDir config) = files1 ++ file :: files2 ->
       (forall f, f ∈ files1 ->
          exists s, buildStory env (storiesDir config) po lbn epics f = inr s) ->
       getMDStory env (readFileSync env (join (storiesDir config) file))
       = inr md ->
       storyId file ∈ po ->
       JS.truthy (storyTitle (frontmatter md)) = true ->
       t = h /\ r = inl issueIdOfUndefined.
Proof.
  intros Hrun Hf Hfile Hown Hproto.
  assert (Hget : forall target lbn epics h,
            EpicsCreated env config target lbn epics0 epics h ->
            JS.get (storyEpicNumber file) epics = JS.Undefined).
  { intros target lbn epics h Hec. apply get_Undefined_iff. split; [| done].
    by apply (EpicsCreated_keys _ _ _ _ _ _ _ _ Hec). }
  destruct (run_story_never_built _ _ _ _ _ Hrun Hfile) as [He Hno].
  { intros po lbn epics0' epics h target s Hec Hb.
    pose proof (ec_files _ _ _ _ _ _ _ Hec) as Hf'.
    rewrite Hf in Hf'. injection Hf' as <-.
    apply buildStory_inv in Hb as (_ & _ & _ & _ & _ & _ & _ & _ & _ & Hg).
    by rewrite (Hget _ _ _ _ Hec) in Hg. }
  split_and!; [done | done |].
  intros target lbn epics h po files1 files2 md Hec Hpo Hfiles Hbefore Hmd
    Hid Htitle.
  assert (storiesWithEpic env config po lbn epics = inl issueIdOfUndefined)
    as Hs.
  { unfold storiesWithEpic. rewrite Hfiles.
    apply try_map_first_error; [done |].
    eapply buildStory_orphan; try done. by eapply Hget. }
  rewrite (run_invalid _ _ _ _ _ _ _ _ _ Hec Hpo Hs) in Hrun.
  by injection Hrun as <- <-.
Qed.

Lemma story_of_missing_epic_witness :
  "002-001-orphan.md" ∈ mdFiles Demo.orphan "stories"
  /\ JS.own (storyEpicNumber "002-001-orphan.md") (Demo.epicsOf Demo.orphan)
     = None
  /\ (storyEpicNumber "002-001-orphan.md" ∉ JS.Object_prototype_keys)
  /\ storyIssues (fst (run Demo.orphan Demo.config)) = []
  /\ snd (run Demo.orphan Demo.config) = inl issueIdOfUndefined.
Proof.
  assert (Hfile : "002-001-orphan.md" ∈ mdFiles Demo.orphan "stories")
    by (vm_compute; apply list_elem_of_here).
  assert (Hproto : storyEpicNumber "002-001-orphan.md"
                   ∉ JS.Object_prototype_keys)
    by (apply (bool_decide_unpack _); vm_compute; exact I).
  destruct (story_of_missing_epic Demo.orphan Demo.config
              (fst (run Demo.orphan Demo.config))
              (snd (run Demo.orphan Demo.config))
              (Demo.epicsOf Demo.orphan) "002-001-orphan.md")
    as (_ & Hno & Hlast);
    [by rewrite <- surjective_pairing | reflexivity | exact Hfile | reflexivity
    | exact Hproto |].
  split_and!; [exact Hfile | reflexivity | exact Hproto | exact Hno |].
  assert (Hec : EpicsCreated Demo.orphan Demo.config Demo.target
                  (Demo.labelsOf Demo.orphan) (Demo.epicsOf Demo.orphan)
                  (Demo.epicsAfter Demo.orphan)
                  (callsOfEpics Demo.config Demo.target
                     (Demo.labelsOf Demo.orphan) (Demo.epicsOf Demo.orphan)))
    by demo_created.
  destruct (Hlast _ _ _ _ ["002-001"] [] []
              (Demo.md (Some "Orphan") (Some "backend") None None None
                 "Story text") Hec eq_refl eq_refl) as [_ Hr].
  - by intros f ?%elem_of_nil.
  - reflexivity.
  - vm_compute. apply list_elem_of_here.
  - reflexivity.
  - exact Hr.
Defined.

(** X7. A story file with neither a role nor a title, or with empty
    ones, is never created: the run fails and asks for no story issue at
    all. When the run gets as far as this file and the manifest lists it,
    the error is "Title not set for <file>". *)
Theorem untitled_story_fatal env config t r file md :
  run env config = (t, r) ->
  file ∈ mdFiles env (storiesDir config) ->
  getMDStory env (readFileSync env (join (storiesDir config) file)) = inr md ->
  JS.truthy (role (frontmatter md)) = false ->
  JS.truthy (title (frontmatter md)) = false ->
  (exists e, r = inl e)
  /\ storyIssues t = []
  /\ forall target lbn epics0 epics h po files1 files2,
       EpicsCreated env config target lbn epics0 epics h ->
       JSON_parse env (readFileSync env (priorityFile config)) = inr po ->
       mdFiles env (storiesDir config) = files1 ++ file :: files2 ->
       (forall f, f ∈ files1 ->
          exists s, buildStory env (storiesDir config) po lbn epics f = inr s) ->
       storyId file ∈ po ->
       t = h /\ r = inl (titleNotSet file).
Proof.
  intros Hrun Hfile Hmd Hrole Htitle.
  destruct (run_story_never_built _ _ _ _ _ Hrun Hfile) as [He Hno].
  { intros po lbn epics0 epics h target s _.
    by eapply buildStory_no_title. }
  split_and!; [done | done |].
  intros target lbn epics0 epics h po files1 files2 Hec Hpo Hfiles Hbefore Hid.
  assert (storiesWithEpic env config po lbn epics = inl (titleNotSet file))
    as Hs.
  { unfold storiesWithEpic. rewrite Hfiles.
    apply try_map_first_error; [done |]. by eapply buildStory_untitled. }
  rewrite (run_invalid _ _ _ _ _ _ _ _ _ Hec Hpo Hs) in Hrun.
  by injection Hrun as <- <-.
Qed.

Lemma untitled_story_fatal_witness :
  "001-002-b.md" ∈ mdFiles Sample.untitledStory "stories"
  /\ storyIssues (fst (run Sample.untitledStory Demo.config)) = []
  /\ snd (run Sample.untitledStory Demo.config)
     = inl (Error "Title not set for 001-002-b.md").
Proof.
  assert (Hfile : "001-002-b.md" ∈ mdFiles Sample.untitledStory "stories")
    by (vm_compute; apply list_elem_of_further, list_elem_of_here).
  destruct (untitled_story_fatal Sample.untitledStory Demo.config
              (fst (run Sample.untitledStory Demo.config))
              (snd (run Sample.untitledStory Demo.config))
              "001-002-b.md"
              (Demo.md None (Some "backend") None (Some "act") None "Text B"))
    as (_ & Hno & Hlast);
    [by rewrite <- surjective_pairing | exact Hfile | reflexivity
    | reflexivity | reflexivity |].
  split_and!; [exact Hfile | exact Hno |].
  assert (Hec : EpicsCreated Sample.untitledStory Demo.config Demo.target
                  (Demo.labelsOf Sample.untitledStory)
                  (Demo.epicsOf Sample.untitledStory)
                  (Demo.epicsAfter Sample.untitledStory)
                  (callsOfEpics Demo.config Demo.target
                     (Demo.labelsOf Sample.untitledStory)
                     (Demo.epicsOf Sample.untitledStory)))
    by demo_created.
  destruct (Hlast _ _ _ _ _ ["001-001"; "001-002"] ["001-001-a.md"] []
              Hec eq_refl eq_refl) as [_ Hr].
  - intros f ->%list_elem_of_singleton. eexists. vm_compute. reflexivity.
  - vm_compute. apply list_elem_of_further, list_elem_of_here.
  - exact Hr.
Defined.

(** X8. The title and the body of every story issue a run asks for come
    from the story's file. With a role that is present and not empty, the
    title is "As a <role>, I want to <action>" and the body is the
    narrative sentence, two line feeds and the description; otherwise the
    title is the [title] of the frontmatter, which is then not empty, and
    the body is the description alone. *)
Theorem story_issue_text env config t r c :
  run env config = (t, r) ->
  c ∈ storyIssues t ->
  exists target file md parent heading body labelId,
    file ∈ mdFiles env (storiesDir config)
    /\ getMDStory env (readFileSync env (join (storiesDir config) file))
       = inr md
    /\ c = CreateIssueAddToProject target parent heading body labelId
    /\ heading <> ""
    /\ (JS.truthy (role (frontmatter md)) = true ->
        heading = "As a " +:+ JS.show (role (frontmatter md))
                  +:+ ", I want to " +:+ JS.show (action (frontmatter md))
        /\ body = (("As a " +:+ JS.show (role (frontmatter md))
                    +:+ ", I want to " +:+ JS.show (action (frontmatter md))
                    +:+ " so that " +:+ JS.show (benefit (frontmatter md))
                    +:+ ".") +:+ JS.newline +:+ JS.newline)
                  +:+ description md)
    /\ (JS.truthy (role (frontmatter md)) = false ->
        title (frontmatter md) = Some heading /\ body = description md).
Proof.
  intros Hrun Hc.
  destruct (run_storyIssue_file _ _ _ _ _ Hrun Hc)
    as (target & lbn & epics0 & epics & h & po & stories & file & s
        & Hsb & Hfile & Hbuild & ->).
  apply buildStory_inv in Hbuild
    as (md & Hmd & _ & _ & Ht & Hne & Hfm & Hd & _).
  exists target, file, md, (Story.issueId s), (Story.title s), (storyBody s),
    (Story.labelId s).
  unfold storyCall, storyBody, storyTitle in *. rewrite Hfm, Hd.
  split_and!; try done.
  - intros Hrole. rewrite Hrole in Ht |- *. split; [congruence | done].
  - intros Hrole. rewrite Hrole in Ht |- *. by split.
Qed.

Lemma story_issue_text_witness :
  run Demo.readme Demo.config = (Demo.readme_calls, inr tt)
  /\ CreateIssueAddToProject Demo.target (Some "I_4")
       "As a user, I want to do something specific"
       ("As a user, I want to do something specific so that get some value."
        +:+ JS.newline +:+ JS.newline +:+ "Story A")
       (Some "LA_backend") ∈ storyIssues Demo.readme_calls
  /\ exists file md,
       file ∈ mdFiles Demo.readme "stories"
       /\ getMDStory Demo.readme (readFileSync Demo.readme (join "stories" file))
          = inr md
       /\ (JS.truthy (role (frontmatter md)) = true ->
           "As a user, I want to do something specific"
           = "As a " +:+ JS.show (role (frontmatter md))
             +:+ ", I want to " +:+ JS.show (action (frontmatter md))).
Proof.
  assert (Hrun : run Demo.readme Demo.config = (Demo.readme_calls, inr tt))
    by (vm_compute; reflexivity).
  assert (Hc : CreateIssueAddToProject Demo.target (Some "I_4")
                 "As a user, I want to do something specific"
                 ("As a user, I want to do something specific so that get some value."
                  +:+ JS.newline +:+ JS.newline +:+ "Story A")
                 (Some "LA_backend") ∈ storyIssues Demo.readme_calls)
    by (vm_compute; apply list_elem_of_further, list_elem_of_further,
          list_elem_of_here).
  split_and!; [exact Hrun | exact Hc |].
  destruct (story_issue_text _ _ _ _ _ Hrun Hc)
    as (target & file & md & parent & heading & body & labelId
        & Hfile & Hmd & Heq & _ & Hrole & _).
  injection Heq as _ _ Hh _ _.
  exists file, md. split_and!; [exact Hfile | exact Hmd |].
  intros Htruthy. destruct (Hrole Htruthy) as [Hheading _].
  by rewrite Hh, Hheading.
Defined.

(** X9. The calls of a run come in the order of their dependencies: the
    look-up of the project and then of the repository id, then label
    calls only, then epic issues only, then story issues only. *)
Theorem calls_in_dependency_order env config t r :
  run env config = (t, r) ->
  exists h0 repositoryId names target lbn es ss,
    (h0 = [GetProjectInfo (owner config) (repo config)] \/ h0 = start config)
    /\ t = h0 ++ labelCalls repositoryId names ++ epicCalls target lbn es
           ++ storyCalls target ss
    /\ (names <> [] \/ es <> [] \/ ss <> [] -> h0 = start config).
Proof.
  intros Hrun. pose proof Hrun as HR. apply run_Run in HR.
  destruct HR as [h e [-> | ->]
         | target epics0 names1 names2 e Hf Hn
         | target epics0 lbn es1 es2 e Hf Hes
         | target lbn epics0 epics h m Hec Hp
         | target lbn epics0 epics h po e Hec Hp Hs
         | target lbn epics0 epics h po stories ss1 ss2 r' [Hec _ _] Hss Hr].
  - exists [GetProjectInfo (owner config) (repo config)], "", [],
      (Build_Target "" "" "" ""), ∅, [], [].
    split_and!; [by left | done | by intros [? | [? | ?]]].
  - exists (start config), "", [], (Build_Target "" "" "" ""), ∅, [], [].
    split_and!; [by right | done | done].
  - exists (start config), (t_repositoryId target), names1, target, ∅, [], [].
    simpl. rewrite app_nil_r. split_and!; [by right | done | done].
  - exists (start config), (t_repositoryId target), (labels epics0), target,
      lbn, es1, []. simpl. rewrite app_nil_r.
    split_and!; [by right | done | done].
  - exists (start config), (t_repositoryId target), (labels epics0), target,
      lbn, (JS.values epics0), [].
    rewrite (EpicsCreated_history _ _ _ _ _ _ _ Hec). unfold callsOfEpics.
    simpl. rewrite app_nil_r. split_and!; [by right | done | done].
  - exists (start config), (t_repositoryId target), (labels epics0), target,
      lbn, (JS.values epics0), [].
    rewrite (EpicsCreated_history _ _ _ _ _ _ _ Hec). unfold callsOfEpics.
    simpl. rewrite app_nil_r. split_and!; [by right | done | done].
  - exists (start config), (t_repositoryId target), (labels epics0), target,
      lbn, (JS.values epics0), ss1.
    rewrite (EpicsCreated_history _ _ _ _ _ _ _ Hec). unfold callsOfEpics.
    rewrite <- !app_assoc. split_and!; [by right | done | done].
Qed.

Lemma calls_in_dependency_order_witness :
  run Demo.readme Demo.config = (Demo.readme_calls, inr tt)
  /\ exists names es ss,
       Demo.readme_calls
       = start Demo.config ++ labelCalls "R_1" names
         ++ epicCalls Demo.target (Demo.labelsOf Demo.readme) es
         ++ storyCalls Demo.target ss
       /\ length names = 2%nat /\ length es = 2%nat /\ length ss = 3%nat.
Proof.
  assert (Hrun : run Demo.readme Demo.config = (Demo.readme_calls, inr tt))
    by (vm_compute; reflexivity).
  split; [exact Hrun |].
  destruct (calls_in_dependency_order _ _ _ _ Hrun)
    as (h0 & rid & names & target & lbn & es & ss & _ & _ & _).
  exists (labels (Demo.epicsOf Demo.readme)),
    (JS.values (Demo.epicsOf Demo.readme)),
    (JS.sort_by Story.priority
       (Demo.storiesOf Demo.readme ["001-002"; "002-001"; "001-001"])).
  split_and!; vm_compute; reflexivity.
Defined.

(** X10. A run stops at the first call at which the client throws: the
    client threw at no call that is followed by another one, nor at any
    call of a run that succeeds, and when it threw at the last call the
    run ends with exactly what it threw there. *)
Theorem no_call_after_a_failure env config t r :
  run env config = (t, r) ->
  (forall h c rest,
     t = h ++ c :: rest -> rest <> [] \/ r = inr tt ->
     thrown env h c = None)
  /\ (forall h c message,
        t = h ++ [c] -> thrown env h c = Some message ->
        r = inl (Thrown message)).
Proof.
  intros Hrun.
  destruct (createIssues_failFast env config _ _ _ Hrun)
    as (seg & Ht & Hall & Hlast).
  simpl in Ht. subst seg. split.
  - intros h c rest Heq Hok. apply (Hall h c rest Heq).
    destruct Hok as [? | ->]; [by left | by right].
  - intros h c msg Heq Hno. by apply (Hlast h c).
Qed.

Lemma no_call_after_a_failure_witness :
  run Sample.rateLimited Demo.config
  = ([GetProjectInfo "octo" "board"; GetRepositoryId "octo" "board";
      CreateLabelIfNotExists "R_1" (Some "backend");
      CreateLabelIfNotExists "R_1" (Some "Epic");
      CreateIssue Demo.target (Some "Epic One")
        "As a user, I want to perform an action so that achieve a goal."
        "LA_Epic"]
     ++ [CreateIssue Demo.target (Some "Epic Two") "" "LA_Epic"],
     snd (run Sample.rateLimited Demo.config))
  /\ thrown Sample.rateLimited
       [GetProjectInfo "octo" "board"; GetRepositoryId "octo" "board";
        CreateLabelIfNotExists "R_1" (Some "backend");
        CreateLabelIfNotExists "R_1" (Some "Epic")]
       (CreateIssue Demo.target (Some "Epic One")
          "As a user, I want to perform an action so that achieve a goal."
          "LA_Epic") = None
  /\ thrown Sample.rateLimited
       [GetProjectInfo "octo" "board"; GetRepositoryId "octo" "board";
        CreateLabelIfNotExists "R_1" (Some "backend");
        CreateLabelIfNotExists "R_1" (Some "Epic");
        CreateIssue Demo.target (Some "Epic One")
          "As a user, I want to perform an action so that achieve a goal."
          "LA_Epic"]
       (CreateIssue Demo.target (Some "Epic Two") "" "LA_Epic")
     = Some "rate limited"
  /\ snd (run Sample.rateLimited Demo.config) = inl (Thrown "rate limited").
Proof.
  assert (Hrun :
    run Sample.rateLimited Demo.config
    = ([GetProjectInfo "octo" "board"; GetRepositoryId "octo" "board";
        CreateLabelIfNotExists "R_1" (Some "backend");
        CreateLabelIfNotExists "R_1" (Some "Epic");
        CreateIssue Demo.target (Some "Epic One")
          "As a user, I want to perform an action so that achieve a goal."
          "LA_Epic"]
       ++ [CreateIssue Demo.target (Some "Epic Two") "" "LA_Epic"],
       snd (run Sample.rateLimited Demo.config)))
    by (vm_compute; reflexivity).
  destruct (no_call_after_a_failure _ _ _ _ Hrun) as [Hall Hlast].
  split_and!; [exact Hrun | | reflexivity |].
  - apply (Hall [GetProjectInfo "octo" "board"; GetRepositoryId "octo" "board";
                 CreateLabelIfNotExists "R_1" (Some "backend");
                 CreateLabelIfNotExists "R_1" (Some "Epic")] _
             [CreateIssue Demo.target (Some "Epic Two") "" "LA_Epic"]);
      [reflexivity | by left].
  - apply (Hlast _ _ "rate limited" eq_refl). reflexivity.
Defined.

(* ================================================================== *)
(** ** Properties of the command line *)

(** X11. [getConfig] returns only complete configurations: the owner,
    the repository, the token and the three paths of what it returns are
    not empty. It fails in two ways only, with the error about the GitHub
    configuration when one of its three values is missing after the
    prompts, whatever the data paths are, and else with the error about
    the data configuration. *)
Theorem getConfig_complete_or_error sh s s' r :
  getConfig sh s = (s', r) ->
  match r with
  | inr config =>
      owner config <> "" /\ repo config <> "" /\ token config <> ""
      /\ epicsDir config <> "" /\ storiesDir config <> ""
      /\ priorityFile config <> ""
  | inl e =>
      exists s1 pc s2 pc',
        gather sh s = (s1, inr pc)
        /\ fromPrompts sh pc s1 = (s2, inr pc')
        /\ ((needGithubConfig pc' = true /\ e = missingGithub)
            \/ (needGithubConfig pc' = false /\ needDataConfig pc' = true
                /\ e = missingData))
  end.
Proof.
  intros (s1 & pc & s2 & pc' & Hg & Hp & Hv)%getConfig_inv.
  apply validate_inv in Hv as [_ Hv]. destruct r as [e | config].
  - by exists s1, pc, s2, pc'.
  - destruct Hv as (Hgh%needGithub_false & Hd%needData_false & ->).
    destruct Hgh as (Ho & Hr & Ht), Hd as (He & Hs & Hf). simpl.
    split_and!; by apply truthy_default.
Qed.

Lemma getConfig_complete_or_error_witness :
  getConfig Sample.ready []
  = ([Log "Found default ./data directory";
      Log "Using environment variables for GitHub configuration"],
     inr {| owner := "octo"; repo := "board"; token := "secret";
            epicsDir := "/work/data/epics";
            storiesDir := "/work/data/stories";
            priorityFile := "/work/data/priority.json" |})
  /\ "octo" <> ""
  /\ snd (getConfig Sample.silent []) = inl missingGithub.
Proof.
  assert (H : getConfig Sample.ready []
              = ([Log "Found default ./data directory";
                  Log "Using environment variables for GitHub configuration"],
                 inr {| owner := "octo"; repo := "board"; token := "secret";
                        epicsDir := "/work/data/epics";
                        storiesDir := "/work/data/stories";
                        priorityFile := "/work/data/priority.json" |}))
    by (vm_compute; reflexivity).
  pose proof (getConfig_complete_or_error _ _ _ _ H) as (Ho & _).
  split_and!; [exact H | exact Ho |].
  pose proof (getConfig_complete_or_error Sample.silent [] _ _
                (surjective_pairing _)) as Hs.
  destruct (snd (getConfig Sample.silent [])) as [e |] eqn:E;
    [| by vm_compute in E].
  vm_compute in E. by injection E as <-.
Defined.

(** X12. After the configuration is gathered from the data directory,
    the configuration file and the environment, [getConfig] asks nothing
    when the six values are there, and returns them. Otherwise it shows
    one line, then the three GitHub questions exactly when a GitHub value
    is missing, then the three data questions exactly when a data path is
    missing; the values gathered are proposed as initial values, and the
    paths under [./data] where a path is missing. *)
Theorem prompts_for_what_is_missing sh s s1 pc :
  gather sh s = (s1, inr pc) ->
  fst (getConfig sh s)
  = s1 ++ (if needGithubConfig pc || needDataConfig pc
           then [Log "\nPlease provide the following information:"] else [])
       ++ (if needGithubConfig pc then [Prompt (githubQuestions pc)] else [])
       ++ (if needDataConfig pc then [Prompt (dataQuestions pc)] else [])
  /\ (needGithubConfig pc = false -> needDataConfig pc = false ->
      getConfig sh s = (s1, inr (asConfig pc)))
  /\ map q_initial (githubQuestions pc)
     = [githubOwner pc; githubRepo pc; githubToken pc]
  /\ (forall q, q ∈ dataQuestions pc -> JS.truthy (q_initial q) = true).
Proof.
  intros Hg. rewrite (getConfig_gathered _ _ _ _ Hg). split_and!.
  - destruct (fromPrompts_ok sh pc s1) as (s2 & pc' & Hp).
    erewrite IO_bind_ok by exact Hp. rewrite validate_screen.
    by rewrite <- (fromPrompts_screen sh pc s1), Hp.
  - intros Hgh Hd.
    erewrite IO_bind_ok by (by apply fromPrompts_complete).
    unfold validate. by rewrite Hgh, Hd.
  - reflexivity.
  - intros q Hq. unfold dataQuestions in Hq.
    repeat (apply elem_of_cons in Hq as [-> | Hq]);
      [| | | by apply elem_of_nil in Hq]; simpl; unfold or_else;
      match goal with
      | |- context [if JS.truthy ?x then _ else _] =>
          destruct (JS.truthy x) eqn:E
      end; done.
Qed.

Lemma prompts_for_what_is_missing_witness :
  fst (getConfig Sample.twoFiles [])
  = fst (gather Sample.twoFiles [])
    ++ [Log "\nPlease provide the following information:"]
    ++ [Prompt
          [ {| q_type := "text"; q_name := "epicsDir";
               q_message := "Epics directory path:";
               q_initial := Some "my/epics" |};
            {| q_type := "text"; q_name := "storiesDir";
               q_message := "Stories directory path:";
               q_initial := Some "./data/stories" |};
            {| q_type := "text"; q_name := "priorityFile";
               q_message := "Priority file path:";
               q_initial := Some "./data/priority.json" |} ]]
  /\ getConfig Sample.ready []
     = (fst (gather Sample.ready []),
        inr {| owner := "octo"; repo := "board"; token := "secret";
               epicsDir := "/work/data/epics";
               storiesDir := "/work/data/stories";
               priorityFile := "/work/data/priority.json" |}).
Proof.
  split.
  - destruct (gather Sample.twoFiles []) as [s1 [e | pc]] eqn:Hg;
      [by vm_compute in Hg |].
    destruct (prompts_for_what_is_missing _ _ _ _ Hg) as (Hscreen & _).
    rewrite Hscreen. vm_compute in Hg. injection Hg as <- <-. reflexivity.
  - destruct (gather Sample.ready []) as [s1 [e | pc]] eqn:Hg;
      [by vm_compute in Hg |].
    destruct (prompts_for_what_is_missing _ _ _ _ Hg) as (_ & Hdone & _).
    vm_compute in Hg. injection Hg as <- <-.
    rewrite Hdone; reflexivity.
Defined.

(** X13. When the three environment variables are set and not empty,
    the owner, the repository and the token that [getConfig] returns are
    theirs, whatever the configuration file says, and no GitHub question
    is asked. *)
Theorem environment_variables_win sh o r t s s' config :
  Shell.env sh "GITHUB_OWNER" = Some o -> o <> "" ->
  Shell.env sh "GITHUB_REPO" = Some r -> r <> "" ->
  Shell.env sh "GITHUB_TOKEN" = Some t -> t <> "" ->
  getConfig sh s = (s', inr config) ->
  owner config = o /\ repo config = r /\ token config = t
  /\ exists s1 pc,
       gather sh s = (s1, inr pc)
       /\ s' = s1 ++ (if needDataConfig pc
                      then [Log "\nPlease provide the following information:";
                            Prompt (dataQuestions pc)]
                      else []).
Proof.
  intros Ho Hone Hr Hrne Ht Htne Hget.
  pose proof Hget as (s1 & pc & s2 & pc' & Hg & Hp & Hv)%getConfig_inv.
  apply validate_inv in Hv as [-> (_ & _ & ->)].
  pose proof Hg as (s0 & s0' & pc0 & pc0' & _ & _ & _ & Henv)%gather_inv.
  unfold fromEnvironment in Henv. rewrite Ho, Hr, Ht in Henv.
  assert (JS.truthy (Some o) = true) as Hto by (by destruct o).
  assert (JS.truthy (Some r) = true) as Htr by (by destruct r).
  assert (JS.truthy (Some t) = true) as Htt by (by destruct t).
  rewrite !(or_else_truthy (Some o)), !(or_else_truthy (Some r)),
    !(or_else_truthy (Some t)), Hto in Henv by done.
  injection Henv as <- <-.
  assert (needGithubConfig
            {| github := Some {| Github.owner := Some o; Github.repo := Some r;
                                 Github.token := Some t |};
               data := data pc0' |} = false) as Hneed.
  { by destruct o, r, t. }
  pose proof (fromPrompts_github_kept _ _ _ _ _ Hneed Hp) as Hkept.
  unfold asConfig, githubOwner, githubRepo, githubToken. rewrite Hkept. simpl.
  split_and!; try done.
  eexists _, _. split; [exact Hg |].
  match type of Hp with
  | fromPrompts _ ?c ?s0 = _ =>
      pose proof (fromPrompts_screen sh c s0) as Hscr
  end.
  rewrite Hp, Hneed in Hscr. simpl in Hscr. rewrite Hscr.
  by destruct (needDataConfig _).
Qed.

Lemma environment_variables_win_witness :
  getConfig Sample.ready []
  = ([Log "Found default ./data directory";
      Log "Using environment variables for GitHub configuration"],
     inr {| owner := "octo"; repo := "board"; token := "secret";
            epicsDir := "/work/data/epics";
            storiesDir := "/work/data/stories";
            priorityFile := "/work/data/priority.json" |})
  /\ owner {| owner := "octo"; repo := "board"; token := "secret";
              epicsDir := "/work/data/epics";
              storiesDir := "/work/data/stories";
              priorityFile := "/work/data/priority.json" |} = "octo".
Proof.
  assert (H : getConfig Sample.ready []
              = ([Log "Found default ./data directory";
                  Log "Using environment variables for GitHub configuration"],
                 inr {| owner := "octo"; repo := "board"; token := "secret";
                        epicsDir := "/work/data/epics";
                        storiesDir := "/work/data/stories";
                        priorityFile := "/work/data/priority.json" |}))
    by (vm_compute; reflexivity).
  split; [exact H |].
  by destruct (environment_variables_win Sample.ready "octo" "board" "secret"
                 _ _ _ eq_refl ltac:(discriminate) eq_refl ltac:(discriminate)
                 eq_refl ltac:(discriminate) H) as (Ho & _).
Defined.

(** X14. The data part of a configuration file replaces the paths of the
    default [./data] directory as a whole: the paths gathered are those
    of the file and no other, so that a path the file leaves out is asked
    for, whether [./data] exists or not. *)
Theorem config_file_data_replaces_defaults sh configFile d s s1 pc :
  snd (loadConfigFile sh []) = inr (Some configFile) ->
  data configFile = Some d ->
  gather sh s = (s1, inr pc) ->
  data pc = Some d
  /\ (JS.truthy (Data.epicsDir d) = false
      \/ JS.truthy (Data.storiesDir d) = false
      \/ JS.truthy (Data.priorityFile d) = false ->
      needDataConfig pc = true
      /\ Prompt (dataQuestions pc) ∈ fst (getConfig sh s)).
Proof.
  intros Hload Hd Hg.
  pose proof Hg as (s0 & s0' & pc0 & pc0' & _ & _ & Hfile & Henv)%gather_inv.
  unfold fromConfigFile, loadConfigFile in Hfile.
  erewrite IO_bind_ok in Hfile
    by (rewrite loadConfigFrom_frame; unfold loadConfigFile in Hload;
        rewrite Hload; reflexivity).
  simpl in Hfile. injection Hfile as _ <-.
  destruct (fromEnvironment_ok sh (spread pc0 configFile)
              (s0 ++ fst (loadConfigFrom sh (configPaths sh) [])
               ++ [Log "Loaded configuration from .issue-board-creator.json"]))
    as (s1' & pc' & Henv' & Hdata).
  assert (data pc = Some d) as Hpc.
  { unfold fromEnvironment in Henv.
    destruct (JS.truthy _); injection Henv as _ <-; simpl; by rewrite Hd. }
  split; [done |]. intros Hmissing.
  assert (needDataConfig pc = true) as Hneed.
  { unfold needDataConfig, dataEpicsDir, dataStoriesDir, dataPriorityFile.
    rewrite Hpc. simpl.
    destruct Hmissing as [-> | [-> | ->]]; simpl;
      by rewrite ?orb_true_r. }
  split; [done |].
  rewrite (getConfig_gathered _ _ _ _ Hg).
  destruct (fromPrompts_ok sh pc s1) as (s2 & pc2 & Hp).
  erewrite IO_bind_ok by exact Hp. rewrite validate_screen.
  pose proof (fromPrompts_screen sh pc s1) as Hscr.
  rewrite Hp, Hneed in Hscr. simpl in Hscr. rewrite Hscr.
  rewrite !elem_of_app. right. right. right. apply list_elem_of_here.
Qed.

Lemma config_file_data_replaces_defaults_witness :
  Shell.existsSync Sample.twoFiles "/work/data" = true
  /\ exists pc,
       snd (gather Sample.twoFiles []) = inr pc
       /\ data pc = Some {| Data.epicsDir := Some "my/epics";
                            Data.storiesDir := None;
                            Data.priorityFile := None |}
       /\ needDataConfig pc = true.
Proof.
  split; [reflexivity |].
  destruct (gather Sample.twoFiles []) as [s1 [e | pc]] eqn:Hg;
    [by vm_compute in Hg |].
  exists pc. split; [reflexivity |].
  destruct (config_file_data_replaces_defaults Sample.twoFiles
              {| github := Some Sample.octo;
                 data := Some {| Data.epicsDir := Some "my/epics";
                                 Data.storiesDir := None;
                                 Data.priorityFile := None |} |}
              _ [] s1 pc eq_refl eq_refl Hg) as [Hd Hmissing].
  split; [exact Hd |]. apply Hmissing. right. by left.
Defined.

(** X15. When a GitHub value is missing, the three GitHub questions are
    asked, and for each of them an answer that is not empty is what
    [getConfig] returns, over the value of the environment or of the
    configuration file; without an answer the value gathered is kept. *)
Theorem typed_answers_override sh s s1 pc s' config :
  gather sh s = (s1, inr pc) ->
  needGithubConfig pc = true ->
  getConfig sh s = (s', inr config) ->
  let answers :=
    Shell.prompts sh
      (s1 ++ [Log "\nPlease provide the following information:"])
      (githubQuestions pc) in
  (JS.truthy (answers "owner") = true -> answers "owner" = Some (owner config))
  /\ (JS.truthy (answers "owner") = false ->
      githubOwner pc = Some (owner config))
  /\ (JS.truthy (answers "repo") = true -> answers "repo" = Some (repo config))
  /\ (JS.truthy (answers "repo") = false ->
      githubRepo pc = Some (repo config))
  /\ (JS.truthy (answers "token") = true ->
      answers "token" = Some (token config))
  /\ (JS.truthy (answers "token") = false ->
      githubToken pc = Some (token config)).
Proof.
  intros Hg Hneed Hget answers.
  rewrite (getConfig_gathered _ _ _ _ Hg) in Hget.
  destruct (fromPrompts_ok sh pc s1) as (s2 & pc' & Hp).
  erewrite IO_bind_ok in Hget by exact Hp.
  apply validate_inv in Hget
    as [_ ((Ho & Hr & Ht)%needGithub_false & _ & ->)].
  destruct (fromPrompts_github_typed _ _ _ _ _ Hneed Hp) as (Eo & Er & Et).
  fold answers in Eo, Er, Et. simpl.
  destruct (or_else_chain _ _ _ Eo Ho) as [Ho1 Ho2].
  destruct (or_else_chain _ _ _ Er Hr) as [Hr1 Hr2].
  destruct (or_else_chain _ _ _ Et Ht) as [Ht1 Ht2].
  apply truthy_default in Ho as [_ Ho], Hr as [_ Hr], Ht as [_ Ht].
  split_and!; intros Ha.
  - by rewrite (Ho1 Ha).
  - by rewrite (Ho2 Ha).
  - by rewrite (Hr1 Ha).
  - by rewrite (Hr2 Ha).
  - by rewrite (Ht1 Ha).
  - by rewrite (Ht2 Ha).
Qed.

Lemma typed_answers_override_witness :
  Shell.env Sample.typed "GITHUB_OWNER" = Some "octo"
  /\ exists s' config,
       getConfig Sample.typed [] = (s', inr config)
       /\ owner config = "hubber" /\ token config = "secret".
Proof.
  split; [reflexivity |].
  destruct (gather Sample.typed []) as [s1 [e | pc]] eqn:Hg;
    [by vm_compute in Hg |].
  destruct (getConfig Sample.typed []) as [s' [e | config]] eqn:Hget;
    [by vm_compute in Hget |].
  exists s', config. split; [reflexivity |].
  assert (Hneed : needGithubConfig pc = true)
    by (vm_compute in Hg; by injection Hg as _ <-).
  destruct (typed_answers_override _ _ _ _ _ _ Hg Hneed Hget)
    as (Ho & _ & _ & _ & Ht & _).
  split.
  - assert (Some "hubber" = Some (owner config)) as [= <-]; [| done].
    apply Ho. reflexivity.
  - assert (Some "secret" = Some (token config)) as [= <-]; [| done].
    apply Ht. reflexivity.
Defined.

(** X16. [loadConfigFile] never throws. It returns what the first of the
    two configuration files that exists and can be read and parsed holds,
    without looking at the other, and nothing when there is none; each
    file before it that exists and cannot be parsed gives a warning that
    names it, and nothing else is shown. *)
Theorem config_file_first_usable sh s :
  (exists paths1 p paths2 v,
     configPaths sh = paths1 ++ p :: paths2
     /\ Shell.existsSync sh p = true
     /\ parseConfigFile sh p = inr v
     /\ (forall q, q ∈ paths1 -> Shell.existsSync sh q = true ->
           exists m, parseConfigFile sh q = inl m)
     /\ loadConfigFile sh s = (s ++ warnings sh paths1, inr v))
  \/ ((forall q, q ∈ configPaths sh -> Shell.existsSync sh q = true ->
         exists m, parseConfigFile sh q = inl m)
      /\ loadConfigFile sh s = (s ++ warnings sh (configPaths sh), inr None)).
Proof. apply loadConfigFrom_spec. Qed.

(** X17. [main] exits with 1 without calling the client when [getConfig]
    fails, showing the message of the error; otherwise it runs
    [createIssues] on the configuration returned, whose values are not
    empty, and exits with 0 after the line of success when the run
    succeeds, and with 1 after the message of the error when it fails. *)
Theorem main_exit_code sh env scr h code :
  main sh env = (scr, h, code) ->
  (exists s e,
     getConfig sh [Log "🚀 Issue Board Creator\n"] = (s, inl e)
     /\ h = [] /\ code = 1
     /\ scr = s ++ [ErrorLog "\n❌ Error:" (errorMessage e)])
  \/ (exists s config r,
        getConfig sh [Log "🚀 Issue Board Creator\n"] = (s, inr config)
        /\ run env config = (h, r)
        /\ owner config <> "" /\ repo config <> "" /\ token config <> ""
        /\ epicsDir config <> "" /\ storiesDir config <> ""
        /\ priorityFile config <> ""
        /\ match r with
           | inr _ =>
               code = 0
               /\ last scr
                  = Some (Log "\n✅ Successfully created GitHub issues and project cards!")
           | inl e =>
               code = 1
               /\ last scr = Some (ErrorLog "\n❌ Error:" (errorMessage e))
           end).
Proof.
  unfold main.
  destruct (getConfig sh _) as [s [e | config]] eqn:Hget.
  - intros [= <- <- <-]. left. by exists s, e.
  - destruct (run env config) as [h' r] eqn:Hrun.
    pose proof (getConfig_returns_complete _ _ _ _ Hget)
      as (? & ? & ? & ? & ? & ?).
    intros Hmain. right. exists s, config, r.
    destruct r as [e | []]; injection Hmain as <- <- <-;
      split_and!; try done; by rewrite last_snoc.
Qed.

Lemma main_exit_code_witness :
  snd (main Sample.ready Demo.readme) = 0
  /\ snd (fst (main Sample.ready Demo.readme))
     = [GetProjectInfo "octo" "board"; GetRepositoryId "octo" "board";
        CreateLabelIfNotExists "R_1" (Some "Epic")]
  /\ snd (main Sample.silent Demo.readme) = 1
  /\ snd (fst (main Sample.silent Demo.readme)) = [].
Proof.
  destruct (main Sample.ready Demo.readme) as [[scr h] code] eqn:E1.
  destruct (main Sample.silent Demo.readme) as [[scr' h'] code'] eqn:E2.
  simpl.
  destruct (main_exit_code _ _ _ _ _ E1)
    as [(s & e & Hget & _) | (s & config & r & Hget & Hrun & _)];
    [by vm_compute in Hget |].
  destruct (main_exit_code _ _ _ _ _ E2)
    as [(s2 & e2 & Hget2 & -> & -> & _) | (s2 & config2 & r2 & Hget2 & _)];
    [| by vm_compute in Hget2].
  vm_compute in E1. injection E1 as _ <- <-. done.
Defined.

(** X18. With a [./data] directory and no data part in a configuration
    file, the three paths gathered are [epics], [stories] and
    [priority.json] under this directory, and when [path.join] gives
    them as paths that are not empty no data question is asked. *)
Theorem default_data_directory sh d s s1 pc :
  checkDefaultDataDir sh = Some d -> d <> "" ->
  (snd (loadConfigFile sh []) = inr None
   \/ exists configFile,
        snd (loadConfigFile sh []) = inr (Some configFile)
        /\ data configFile = None) ->
  gather sh s = (s1, inr pc) ->
  data pc = Some {| Data.epicsDir := Some (Shell.join sh d "epics");
                    Data.storiesDir := Some (Shell.join sh d "stories");
                    Data.priorityFile :=
                      Some (Shell.join sh d "priority.json") |}
  /\ (Shell.join sh d "epics" <> "" -> Shell.join sh d "stories" <> "" ->
      Shell.join sh d "priority.json" <> "" ->
      needDataConfig pc = false).
Proof.
  intros Hdir Hne Hload Hg.
  pose proof Hg as (s0 & s0' & pc0 & pc0' & Hdata & _ & Hfile & Henv)%gather_inv.
  unfold fromDataDir in Hdata. rewrite Hdir in Hdata.
  destruct d as [| c d]; [done |]. injection Hdata as _ <-.
  assert (data pc0' = Some
            {| Data.epicsDir := Some (Shell.join sh (String c d) "epics");
               Data.storiesDir := Some (Shell.join sh (String c d) "stories");
               Data.priorityFile :=
                 Some (Shell.join sh (String c d) "priority.json") |}) as Hd.
  { unfold fromConfigFile, loadConfigFile in Hfile, Hload.
    destruct Hload as [Hload | (cf & Hload & Hnone)];
      erewrite IO_bind_ok in Hfile
        by (rewrite loadConfigFrom_frame, Hload; reflexivity);
      simpl in Hfile; injection Hfile as _ <-; simpl; [done |].
    by rewrite Hnone. }
  assert (data pc = data pc0') as Hpc.
  { unfold fromEnvironment in Henv.
    by destruct (JS.truthy _); injection Henv as _ <-. }
  rewrite Hpc, Hd. split; [done |].
  intros He Hs Hp.
  unfold needDataConfig, dataEpicsDir, dataStoriesDir, dataPriorityFile.
  rewrite Hpc, Hd. simpl.
  by destruct (Shell.join sh (String c d) "epics"),
    (Shell.join sh (String c d) "stories"),
    (Shell.join sh (String c d) "priority.json").
Qed.

Lemma default_data_directory_witness :
  checkDefaultDataDir Sample.ready = Some "/work/data"
  /\ exists pc,
       snd (gather Sample.ready []) = inr pc
       /\ data pc = Some {| Data.epicsDir := Some "/work/data/epics";
                            Data.storiesDir := Some "/work/data/stories";
                            Data.priorityFile :=
                              Some "/work/data/priority.json" |}
       /\ needDataConfig pc = false.
Proof.
  split; [reflexivity |].
  destruct (gather Sample.ready []) as [s1 [e | pc]] eqn:Hg;
    [by vm_compute in Hg |].
  exists pc. split; [reflexivity |].
  destruct (default_data_directory Sample.ready "/work/data" [] s1 pc
              eq_refl ltac:(discriminate) (or_introl eq_refl) Hg)
    as [Hd Hneed].
  split; [exact Hd |]. apply Hneed; discriminate.
Defined.

(** X19. Each GitHub value gathered is the one of its environment
    variable when this variable is set and not empty, and otherwise the
    one of the configuration file, when the file gives it. *)
Theorem environment_before_config_file sh configFile s s1 pc :
  snd (loadConfigFile sh []) = inr configFile ->
  gather sh s = (s1, inr pc) ->
  let file := configFile ≫= github in
  (forall v, Shell.env sh "GITHUB_OWNER" = Some v -> v <> "" ->
     githubOwner pc = Some v)
  /\ (forall v, Shell.env sh "GITHUB_REPO" = Some v -> v <> "" ->
        githubRepo pc = Some v)
  /\ (forall v, Shell.env sh "GITHUB_TOKEN" = Some v -> v <> "" ->
        githubToken pc = Some v)
  /\ (forall v, JS.truthy (Shell.env sh "GITHUB_OWNER") = false ->
        file ≫= Github.owner = Some v -> v <> "" -> githubOwner pc = Some v)
  /\ (forall v, JS.truthy (Shell.env sh "GITHUB_REPO") = false ->
        file ≫= Github.repo = Some v -> v <> "" -> githubRepo pc = Some v)
  /\ (forall v, JS.truthy (Shell.env sh "GITHUB_TOKEN") = false ->
        file ≫= Github.token = Some v -> v <> "" -> githubToken pc = Some v).
Proof.
  intros Hload Hg file.
  pose proof Hg as (s0 & s0' & pc0 & pc0' & _ & Hnone & Hfile & Henv)%gather_inv.
  assert (github pc0' = file) as Hgh.
  { unfold fromConfigFile, loadConfigFile in Hfile, Hload.
    erewrite IO_bind_ok in Hfile
      by (rewrite loadConfigFrom_frame, Hload; reflexivity).
    destruct configFile as [cf |]; simpl in Hfile; injection Hfile as _ <-;
      subst file; simpl; [| done].
    rewrite Hnone. by destruct (github cf). }
  unfold fromEnvironment in Henv.
  assert (Ht : forall v, v <> "" -> JS.truthy (Some v) = true)
    by (by intros [|]).
  destruct (JS.truthy (or_else (or_else _ _) _)) eqn:Eany;
    injection Henv as _ <-;
    unfold githubOwner, githubRepo, githubToken; simpl; rewrite ?Hgh.
  - split_and!; intros v.
    + intros -> Hv. by rewrite !(or_else_truthy (Some v)) by (by apply Ht).
    + intros -> Hv. by rewrite !(or_else_truthy (Some v)) by (by apply Ht).
    + intros -> Hv. by rewrite !(or_else_truthy (Some v)) by (by apply Ht).
    + intros He Hf Hv. rewrite (or_else_falsy _ _ He), Hf.
      by rewrite (or_else_truthy (Some v)) by (by apply Ht).
    + intros He Hf Hv. rewrite (or_else_falsy _ _ He), Hf.
      by rewrite (or_else_truthy (Some v)) by (by apply Ht).
    + intros He Hf Hv. rewrite (or_else_falsy _ _ He), Hf.
      by rewrite (or_else_truthy (Some v)) by (by apply Ht).
  - assert (JS.truthy (Shell.env sh "GITHUB_OWNER") = false
            /\ JS.truthy (Shell.env sh "GITHUB_REPO") = false
            /\ JS.truthy (Shell.env sh "GITHUB_TOKEN") = false)
      as (Eo & Er & Et).
    { unfold or_else in Eany.
      destruct (JS.truthy (Shell.env sh "GITHUB_OWNER")) eqn:Eo;
        [simpl in Eany; rewrite Eo in Eany; by rewrite Eo in Eany |].
      destruct (JS.truthy (Shell.env sh "GITHUB_REPO")) eqn:Er;
        [simpl in Eany; by rewrite Er in Eany |].
      done. }
    split_and!; intros v; try done.
    + intros Hv Hne. rewrite Hv in Eo. by rewrite Ht in Eo.
    + intros Hv Hne. rewrite Hv in Er. by rewrite Ht in Er.
    + intros Hv Hne. rewrite Hv in Et. by rewrite Ht in Et.
Qed.

Lemma environment_before_config_file_witness :
  Shell.env Sample.mixed "GITHUB_OWNER" = Some "hubber"
  /\ exists pc,
       snd (gather Sample.mixed []) = inr pc
       /\ githubOwner pc = Some "hubber"
       /\ githubRepo pc = Some "board".
Proof.
  split; [reflexivity |].
  destruct (gather Sample.mixed []) as [s1 [e | pc]] eqn:Hg;
    [by vm_compute in Hg |].
  exists pc. split; [reflexivity |].
  destruct (environment_before_config_file Sample.mixed
              (Some {| github := Some Sample.octo; data := None |})
              [] s1 pc eq_refl Hg) as (Ho & _ & _ & _ & Hr & _).
  split.
  - apply Ho; [reflexivity | discriminate].
  - apply Hr; [reflexivity | reflexivity | discriminate].
Defined.

(** X20. The epic issues of a run that succeeds are asked for in the
    order in which the keys of [epics] are enumerated, which is not the
    order of the files: first the epics whose number is an array index (a
    decimal numeral without a leading zero, below 2^32 - 1), by strictly
    ascending number, then the others in the order in which their numbers
    first occur among the files. *)
Theorem epic_issues_in_key_order env config t :
  run env config = (t, inr tt) ->
  exists target lbn epics0 numbered others,
    epicsOfFiles env config = inr epics0
    /\ epicIssues t = epicCalls target lbn (map snd (numbered ++ others))
    /\ Permutation (numbered ++ others) epics0
    /\ Forall (fun kv => JS.is_array_index (fst kv) = true) numbered
    /\ strictlyAscending (fun kv => JS.index_of_key (fst kv)) numbered
    /\ map fst others
       = List.filter (fun k => negb (JS.is_array_index k))
           (JS.Set_values []
              (map epicNumber (mdFiles env (epicsDir config)))).
Proof.
  intros Hrun. apply run_Run, Run_storyIssues in Hrun
    as [[_ [e [=]]] | (target & lbn & epics0 & epics & h & po & stories & ss1
                       & ss2 & Hsb & Hss & -> & ->)].
  pose proof (ec_files _ _ _ _ _ _ _ (sb_epics _ _ _ _ _ _ _ _ _ Hsb)) as Hf.
  exists target, lbn, epics0,
    (JS.sort_by (fun kv => JS.index_of_key (fst kv))
       (List.filter (fun kv => JS.is_array_index (fst kv)) epics0)),
    (List.filter (fun kv => negb (JS.is_array_index (fst kv))) epics0).
  split_and!.
  - done.
  - by rewrite epicIssues_app, epicIssues_callsOfEpics, epicIssues_storyCalls,
      app_nil_r.
  - apply entries_perm.
  - apply Forall_forall. intros kv Hkv.
    rewrite <- sort_by_perm in Hkv.
    by apply list_elem_of_In, filter_In in Hkv as [_ Hkv].
  - apply sort_by_strict, index_keys_NoDup.
    rewrite (epicsOfFiles_key_order _ _ _ Hf). apply Set_values_NoDup.
  - rewrite (filter_keys (fun k => negb (JS.is_array_index k))).
    by rewrite (epicsOfFiles_key_order _ _ _ Hf).
Qed.

Lemma epic_issues_in_key_order_witness :
  run Sample.unpadded Demo.config
  = (fst (run Sample.unpadded Demo.config), inr tt)
  /\ map epicNumber (mdFiles Sample.unpadded "epics") = ["10"; "2"; "007"]
  /\ map (fun c => match c with
                   | CreateIssue _ title _ _ => title
                   | _ => None
                   end)
       (epicIssues (fst (run Sample.unpadded Demo.config)))
     = [Some "Two"; Some "Ten"; Some "Seven"]
  /\ exists others : list (string * Epic.t), map fst others = ["007"].
Proof.
  assert (Hrun : run Sample.unpadded Demo.config
                 = (fst (run Sample.unpadded Demo.config), inr tt))
    by (vm_compute; reflexivity).
  destruct (epic_issues_in_key_order _ _ _ Hrun)
    as (target & lbn & epics0 & numbered & others & Hf & Hi & Hp & Hn & Ha
        & Ho).
  split_and!; [exact Hrun | reflexivity | by vm_compute |].
  exists others. rewrite Ho. reflexivity.
Defined.

(* ================================================================== *)
(** ** The label of a story and the number of a file *)

(** X21. Every story issue a run asks for is the issue of a story file
    that passed its checks, and its label id is looked up in
    [labelsByName] under the label of the story's own frontmatter. When
    this label is one of the labels resolved (a label of an epic, or
    "Epic"), the label id is the id that the client returned when this
    label was resolved; so a story that carries the label of its epic
    carries the label id of its epic. *)
Theorem story_label_resolved env config t r c :
  run env config = (t, r) ->
  c ∈ storyIssues t ->
  exists target lbn epics0 epics h po stories file md s,
    StoriesBuilt env config target lbn epics0 epics h po stories
    /\ file ∈ mdFiles env (storiesDir config)
    /\ getMDStory env (readFileSync env (join (storiesDir config) file))
       = inr md
    /\ buildStory env (storiesDir config) po lbn epics file = inr s
    /\ c = CreateIssueAddToProject target (Story.issueId s) (Story.title s)
             (storyBody s) (lbn !! label (frontmatter md))
    /\ (forall names1 names2,
          labels epics0 = names1 ++ label (frontmatter md) :: names2 ->
          exists id,
            createLabelIfNotExists env
              (start config ++ labelCalls (t_repositoryId target) names1)
              (t_repositoryId target) (label (frontmatter md)) = inr id
            /\ lbn !! label (frontmatter md) = Some id)
    /\ forall e,
         JS.own (storyEpicNumber file) epics0 = Some e ->
         label (frontmatter md) = epicLabel e ->
         exists id,
           lbn !! epicLabel e = Some id
           /\ c = CreateIssueAddToProject target (Story.issueId s)
                    (Story.title s) (storyBody s) (Some id).
Proof.
  intros Hrun Hc. apply run_Run, Run_storyIssues in Hrun
    as [[Hno _] | (target & lbn & epics0 & epics & h & po & stories & ss1 & ss2
                   & Hsb & Hss & -> & _)].
  { rewrite Hno in Hc. by apply elem_of_nil in Hc. }
  rewrite storyIssues_run_calls in Hc.
  apply list_elem_of_fmap in Hc as (s & -> & Hs).
  assert (s ∈ stories) as Hin.
  { rewrite (sort_by_perm Story.priority), Hss, elem_of_app. by left. }
  destruct (try_map_elem _ _ _ _ (sb_stories _ _ _ _ _ _ _ _ _ Hsb) Hin)
    as (file & Hfile & Hbuild).
  destruct (buildStory_inv _ _ _ _ _ _ _ Hbuild)
    as (md & Hmd & _ & _ & _ & _ & _ & _ & Hlabel & _).
  pose proof (sb_epics _ _ _ _ _ _ _ _ _ Hsb) as Hec.
  exists target, lbn, epics0, epics, h, po, stories, file, md, s.
  unfold storyCall. rewrite Hlabel.
  split_and!; try done.
  - intros names1 names2 Hn.
    by apply (EpicsCreated_label _ _ _ _ _ _ _ _ _ _ Hec Hn).
  - intros e He ->.
    assert (is_Some (lbn !! epicLabel e)) as [id Hid].
    { apply (EpicsCreated_label_dom _ _ _ _ _ _ _ _ Hec), labels_elem.
      right. exists e. split; [by eapply own_value | done]. }
    exists id. by rewrite Hid.
Qed.

Lemma story_label_resolved_witness :
  run Demo.readme Demo.config = (Demo.readme_calls, inr tt)
  /\ exists file md s,
       file ∈ mdFiles Demo.readme "stories"
       /\ getMDStory Demo.readme (readFileSync Demo.readme (join "stories" file))
          = inr md
       /\ CreateIssueAddToProject Demo.target (Some "I_5") "Third Story"
            "Story C" (Some "LA_backend")
          = CreateIssueAddToProject Demo.target (Story.issueId s)
              (Story.title s) (storyBody s)
              (Demo.labelsOf Demo.readme !! label (frontmatter md)).
Proof.
  assert (Hrun : run Demo.readme Demo.config = (Demo.readme_calls, inr tt))
    by (vm_compute; reflexivity).
  split; [exact Hrun |].
  assert (Hc : CreateIssueAddToProject Demo.target (Some "I_5") "Third Story"
                 "Story C" (Some "LA_backend") ∈ storyIssues Demo.readme_calls).
  { vm_compute. apply list_elem_of_further, list_elem_of_here. }
  destruct (story_label_resolved _ _ _ _ _ Hrun Hc)
    as (target & lbn & epics0 & epics & h & po & stories & file & md & s
        & Hsb & Hfile & Hmd & _ & Heq & _).
  exists file, md, s. split_and!; [exact Hfile | exact Hmd |].
  rewrite Heq. injection Heq as <- _ _ _ _.
  assert (lbn = Demo.labelsOf Demo.readme) as ->; [| reflexivity].
  destruct Hsb as [[_ _ _ _ Hf (h1 & Hl & _)] _ _].
  assert (epics0 = Demo.epicsOf Demo.readme) as ->
    by (unfold Demo.epicsOf; by rewrite Hf).
  change (t_repositoryId Demo.target) with "R_1" in Hl.
  unfold Demo.labelsOf. by rewrite Hl.
Defined.

(** X22. For a file name that begins with a run of digits, not empty,
    followed by "-", the number derived for an epic file (the capture of
    the regular expression) and the one derived for a story file (the
    first segment) are this run of digits; and the regular expression
    matches no other file name. *)
Theorem number_of_file_name :
  (forall d rest,
     d <> "" -> JS.all_digits d = true ->
     JS.match_digits_dash (d +:+ String "-" rest) = Some d
     /\ epicNumber (d +:+ String "-" rest) = d
     /\ storyEpicNumber (d +:+ String "-" rest) = d)
  /\ (forall file d,
        JS.match_digits_dash file = Some d ->
        exists rest,
          file = d +:+ String "-" rest /\ d <> "" /\ JS.all_digits d = true).
Proof.
  split.
  - intros d rest Hne Hd.
    pose proof (digit_run_prefix d rest Hd) as Hrun.
    assert (JS.match_digits_dash (d +:+ String "-" rest) = Some d) as Hm.
    { unfold JS.match_digits_dash. rewrite Hrun. by destruct d. }
    split_and!; [done | |].
    + unfold epicNumber. by rewrite Hm.
    + unfold storyEpicNumber, storySegments.
      rewrite (split_prefix d rest Hd).
      pose proof (split_nonempty "-" rest). by destruct (JS.split "-" rest).
  - apply match_digits_dash_inv.
Qed.

Lemma number_of_file_name_witness :
  epicNumber "001-epic-one.md" = "001"
  /\ storyEpicNumber "001-002-second-story.md" = "001"
  /\ exists rest, "42-answer.md" = "42" +:+ String "-" rest.
Proof.
  destruct number_of_file_name as [Hnum Hconv].
  split_and!.
  - by destruct (Hnum "001" "epic-one.md") as (_ & ? & _).
  - by destruct (Hnum "001" "002-second-story.md") as (_ & _ & ?).
  - destruct (Hconv "42-answer.md" "42" eq_refl) as (rest & Hrest & _).
    by exists rest.
Defined.
